(** * Ticket lifecycle of the ticket bot ([src/index.js])

    A shallow embedding of [createTicketChannel], [generateTranscript],
    [handleSlashCommand] and the [interactionCreate] listener.  The SQLite
    tables are finite maps (and, for [ticket_members], a list of rows, read
    back in primary-key order); the Discord gateway is a map of channels
    plus the trace of the calls that went through.  Every awaited call may
    reject; a rejection propagates as a JavaScript exception and leaves all
    earlier mutations in place, as in the source, which has no [try] block
    inside either function.

    Reading notes on the source:
    - line 476 nests single quotes; it is read as the SQL statement
      [UPDATE tickets SET status = 'open' WHERE channelId = ?];
    - the gateway is taken at the contract of the calls the source makes:
      [setParent], called without options, re-parents and locks the
      channel's overwrites to those of the new category;
      [permissionOverwrites.edit] merges the given flags into the overwrite;
      [permissionOverwrites.delete] drops it;
    - what the platform decides is a parameter ([Env]): which awaited calls
      reject, the clock, the id of a new channel,
      [String.prototype.toLowerCase], and which values the message builders
      refuse. *)

From Stdlib Require Import ZArith.
From stdpp Require Import base gmap strings list sorting.

(** ** Permission bit fields *)

Module PermissionFlagsBits.
Definition Administrator : Z := Z.shiftl 1 3.
Definition ViewChannel : Z := Z.shiftl 1 10.
Definition SendMessages : Z := Z.shiftl 1 11.
End PermissionFlagsBits.

Module BitField.
(** [has]: every bit of [flag] is set in [bits]. *)
Definition has (bits flag : Z) : bool := (Z.land bits flag =? flag)%Z.
Definition add (bits flag : Z) : Z := Z.lor bits flag.
Definition remove (bits flag : Z) : Z := Z.land bits (Z.lnot flag).
Definition resolve (flags : list Z) : Z := foldr Z.lor 0%Z flags.
End BitField.

Module Overwrite.
Record t := Build { allow : Z; deny : Z }.

(** [resolveOverwriteOptions]: [true] allows the flag and lifts its denial,
    [false] does the converse. *)
Definition resolveOverwriteOptions (options : list (Z * bool)) (o : t) : t :=
  foldl (λ acc '(perm, value),
           if value : bool
           then Build (BitField.add (allow acc) perm) (BitField.remove (deny acc) perm)
           else Build (BitField.remove (allow acc) perm) (BitField.add (deny acc) perm))
        o options.

Definition empty : t := Build 0 0.

(** The principal may see the channel and write to it. *)
Definition grants_view_send (o : t) : bool :=
  BitField.has (allow o) PermissionFlagsBits.ViewChannel
  && BitField.has (allow o) PermissionFlagsBits.SendMessages.
End Overwrite.

#[global] Instance Overwrite_eq_dec : EqDecision Overwrite.t.
Proof. solve_decision. Defined.

(** ** Channels *)

Inductive ChannelType := GuildText | GuildVoice | GuildCategory.

#[global] Instance ChannelType_eq_dec : EqDecision ChannelType.
Proof. solve_decision. Defined.

Module Channel.
Record t := Build {
  guild : string;
  name : string;
  type : ChannelType;
  parent : option string;
  permissionOverwrites : gmap string Overwrite.t
}.

(** [channel.setParent(category)] with its default [lockPermissions: true]:
    the channel moves under the category and, when the category was resolved
    ([locked] holds its overwrites), takes the category's overwrites in place
    of its own. *)
Definition set_parent (category : string) (locked : option (gmap string Overwrite.t))
    (c : t) : t :=
  Build (guild c) (name c) (type c) (Some category)
    (default (permissionOverwrites c) locked).

Definition edit_overwrite (id : string) (options : list (Z * bool)) (c : t) : t :=
  Build (guild c) (name c) (type c) (parent c)
    (<[id := Overwrite.resolveOverwriteOptions options
               (default Overwrite.empty (permissionOverwrites c !! id))]>
       (permissionOverwrites c)).

Definition delete_overwrite (id : string) (c : t) : t :=
  Build (guild c) (name c) (type c) (parent c) (delete id (permissionOverwrites c)).

(** [`${channel}`] *)
Definition mention (id : string) : string := "<#" +:+ id +:+ ">".
End Channel.

Module Role.
(** [`${role}`]: the role whose id is the guild's is [@everyone]. *)
Definition mention (guild id : string) : string :=
  if decide (id = guild) then "@everyone" else "<@&" +:+ id +:+ ">".
End Role.

(** ** Rows of the four tables *)

Module Config.
Record t := Build {
  supportRole : option string;
  closedCategory : option string;
  logChannel : option string;
  panelColor : option string
}.
End Config.

Module Ticket.
Record t := Build {
  guildId : string;
  ownerId : string;
  panelName : string;
  status : string;
  createdAt : Z;
  closedAt : option Z
}.
End Ticket.

Module Panel.
Record t := Build {
  channelId : string;
  title : string;
  description : string;
  imageUrl : option string
}.
End Panel.

(** ** Users, members and interactions *)

Module User.
Record t := Build { id : string; username : string; tag : string }.
(** [`${user}`] *)
Definition mention (u : t) : string := "<@" +:+ id u +:+ ">".
End User.

Module GuildMember.
Record t := Build { permissions : Z; roles : gset string }.
End GuildMember.

(** The subcommands registered at lines 68-176, with their options; required
    options are always present, optional ones may be absent.  [Unknown] is any
    other name, which reaches the [default] branch. *)
Inductive Subcommand :=
| Add (user : User.t)
| Remove (user : User.t)
| Close
| Delete
| Open
| PanelCmd (name : string) (channel : string)
           (title description image_url : option string)
| Setup (role : string) (category : string)
        (log_channel : option string) (color : option string)
| Transcript
| Unknown (name : string).

Module Interaction.
Record t := Build {
  subcommand : Subcommand;
  channel : string;
  guild : string;
  member : GuildMember.t;
  user : User.t
}.
End Interaction.

(** ** Messages and gateway calls *)

Record TranscriptOptions := {
  limit : Z;
  returnType : string;
  filename : string;
  saveImages : bool
}.

(** The buffer [createTranscript] resolves to: the rendering of a channel's
    history under the given options. *)
Inductive Buffer := Html (channel : string) (options : TranscriptOptions).

Record Attachment := { attachment : Buffer; attachment_name : string }.

Record Embed := {
  embed_color : string;
  embed_title : string;
  embed_description : string;
  embed_image : option string
}.

Record Button := {
  customId : string;
  label : string;
  emoji : string
}.

Record Message := {
  content : string;
  embeds : list Embed;
  components : list Button;
  files : list Attachment
}.

Definition text (s : string) : Message :=
  {| content := s; embeds := []; components := []; files := [] |}.

Inductive Call :=
| channels_create (guild name : string) (type : ChannelType)
                  (permissionOverwrites : list (string * Overwrite.t))
| permissionOverwrites_edit (channel id : string) (options : list (Z * bool))
| permissionOverwrites_delete (channel id : string)
| setParent (channel category : string)
| channel_delete (channel reason : string)
| send (channel : string) (m : Message)
| createTranscript (channel : string) (options : TranscriptOptions)
| deferReply (ephemeral : bool)
| reply (m : Message) (ephemeral : bool)
| editReply (m : Message).

#[global] Instance TranscriptOptions_eq_dec : EqDecision TranscriptOptions.
Proof. solve_decision. Defined.
#[global] Instance Buffer_eq_dec : EqDecision Buffer.
Proof. solve_decision. Defined.
#[global] Instance Attachment_eq_dec : EqDecision Attachment.
Proof. solve_decision. Defined.
#[global] Instance Embed_eq_dec : EqDecision Embed.
Proof. solve_decision. Defined.
#[global] Instance Button_eq_dec : EqDecision Button.
Proof. solve_decision. Defined.
#[global] Instance Message_eq_dec : EqDecision Message.
Proof. solve_decision. Defined.
#[global] Instance Call_eq_dec : EqDecision Call.
Proof. solve_decision. Defined.

(** ** Exceptions *)

Inductive Exn :=
| Error (message : string)        (* [throw new Error(message)] *)
| TypeError (message : string)    (* a property read on [undefined] *)
| SqliteError (message : string)  (* a constraint violated by an INSERT *)
| Rejected (c : Call).            (* an awaited call rejected *)

(** The messages of the source, under the names of the spec's taxonomy. *)
Definition NotConfigured : Exn := Error "Ticket system not set up!".
Definition DuplicateTicket (existing : string) : Exn :=
  Error ("You already have an open ticket: " +:+ Channel.mention existing).
Definition NotATicketChannel : Exn := Error "This is not a ticket channel!".
Definition CannotRemoveOwner : Exn := Error "Cannot remove the ticket owner!".
Definition NotClosed : Exn := Error "This is not a closed ticket!".
Definition undefined_ownerId : Exn :=
  TypeError "Cannot read properties of undefined (reading 'ownerId')".

(** ** The world: the database and the gateway *)

Record World := {
  config : gmap string Config.t;              (* key: guildId *)
  tickets : gmap string Ticket.t;             (* key: channelId *)
  ticket_members : list (string * string);    (* rows (channelId, userId) *)
  panels : gmap (string * string) Panel.t;    (* key: (guildId, panelName) *)
  channels : gmap string Channel.t;           (* every guild's channels, by id *)
  trace : list Call                           (* calls performed, oldest first *)
}.

(** The builder calls of the source whose argument comes from a command
    option or from a stored row; each validates its argument and throws when
    it refuses it. *)
Inductive BuilderCall :=
| setColor (color : string)
| setTitle (title : string)
| setDescription (description : string)
| setImage (url : string)
| setCustomId (customId : string).

(** What the handler cannot decide: which awaited calls reject, the clock
    ([strftime('%s','now')]), the id the platform gives a new channel, the
    lower-casing of [String.prototype.toLowerCase], and the values the
    builders refuse, with the message of the error they throw. *)
Record Env := {
  fails : Call → bool;
  now : Z;
  newId : string;
  toLowerCase : string → string;
  refuses : BuilderCall → option string
}.

Definition set_config (f : gmap string Config.t → gmap string Config.t) (w : World) : World :=
  {| config := f (config w); tickets := tickets w; ticket_members := ticket_members w;
     panels := panels w; channels := channels w; trace := trace w |}.
Definition set_tickets (f : gmap string Ticket.t → gmap string Ticket.t) (w : World) : World :=
  {| config := config w; tickets := f (tickets w); ticket_members := ticket_members w;
     panels := panels w; channels := channels w; trace := trace w |}.
Definition set_ticket_members (f : list (string * string) → list (string * string))
    (w : World) : World :=
  {| config := config w; tickets := tickets w; ticket_members := f (ticket_members w);
     panels := panels w; channels := channels w; trace := trace w |}.
Definition set_panels
    (f : gmap (string * string) Panel.t → gmap (string * string) Panel.t) (w : World) : World :=
  {| config := config w; tickets := tickets w; ticket_members := ticket_members w;
     panels := f (panels w); channels := channels w; trace := trace w |}.

(** The overwrites [setParent] locks channel [c] to: those of [category],
    when the cache of the channel's guild holds it and it is a category. *)
Definition locked (category : string) (c : Channel.t) (chs : gmap string Channel.t)
    : option (gmap string Overwrite.t) :=
  p ← chs !! category;
  if decide (Channel.guild p = Channel.guild c ∧ Channel.type p = GuildCategory)
  then Some (Channel.permissionOverwrites p) else None.

(** The effect of a call that went through. *)
Definition perform (env : Env) (c : Call) (w : World) : World :=
  {| config := config w; tickets := tickets w; ticket_members := ticket_members w;
     panels := panels w;
     channels :=
       match c with
       | channels_create g n t ows =>
           <[newId env := Channel.Build g n t None (list_to_map ows)]> (channels w)
       | permissionOverwrites_edit ch id options =>
           alter (Channel.edit_overwrite id options) ch (channels w)
       | permissionOverwrites_delete ch id =>
           alter (Channel.delete_overwrite id) ch (channels w)
       | setParent ch category =>
           alter (λ c, Channel.set_parent category (locked category c (channels w)) c)
                 ch (channels w)
       | channel_delete ch _ => delete ch (channels w)
       | _ => channels w
       end;
     trace := trace w ++ [c] |}.

(** ** The monad of the two async functions: state with exceptions *)

Inductive Outcome (A : Type) :=
| Returned (a : A)
| Thrown (e : Exn).
Arguments Returned {A} a.
Arguments Thrown {A} e.

Definition M (A : Type) : Type := World → Outcome A * World.

#[global] Instance M_ret : MRet M := λ A a w, (Returned a, w).
#[global] Instance M_bind : MBind M := λ A B f m w,
  match m w with
  | (Returned a, w') => f a w'
  | (Thrown e, w') => (Thrown e, w')
  end.

Definition throw {A} (e : Exn) : M A := λ w, (Thrown e, w).
Definition query {A} (f : World → A) : M A := λ w, (Returned (f w), w).
Definition run (f : World → World) : M unit := λ w, (Returned (), f w).
Definition when (b : bool) (m : M unit) : M unit := if b then m else mret ().

(** [await call]: rejects as the environment says, else takes effect. *)
Definition await (env : Env) (c : Call) : M unit := λ w,
  if fails env c then (Thrown (Rejected c), w) else (Returned (), perform env c w).

(** [for (const x of l) body] *)
Fixpoint for_of {A} (l : list A) (body : A → M unit) : M unit :=
  match l with
  | [] => mret ()
  | x :: l' => body x;; for_of l' body
  end.

(** ** JavaScript idioms *)

(** Truthiness of a nullable string: [null], [undefined] and the empty string
    are falsy. *)
Definition truthy (o : option string) : option string :=
  match o with
  | Some s => if decide (s = "") then None else Some s
  | None => None
  end.

(** [o || d] *)
Definition or_else (o : option string) (d : string) : string :=
  default d (truthy o).

(** A builder call: throws when the builder refuses the value. *)
Definition build (env : Env) (b : BuilderCall) : M unit :=
  match refuses env b with
  | Some message => throw (Error message)
  | None => mret ()
  end.

Definition nl : string := String (Ascii.ascii_of_nat 10) EmptyString.

(** [ticket.ownerId] where [ticket] is what [.get()] returned: reading a
    property of [undefined] throws. *)
Definition ownerId_of (ticket : option Ticket.t) : M string :=
  match ticket with
  | Some t => mret (Ticket.ownerId t)
  | None => throw undefined_ownerId
  end.

(** ** Reads *)

(** [guild.channels.cache] *)
Definition cache (guild : string) (w : World) : gmap string Channel.t :=
  filter (λ kv, Channel.guild kv.2 = guild) (channels w).

(** [guild.channels.cache.find(c => p c)], the id of the channel found.
    Which of several matches is found depends on the order of the cache;
    no statement below depends on it. *)
Definition cache_find (guild : string) (p : Channel.t → bool) (w : World) : option string :=
  fst <$> List.find (λ kv, p kv.2) (map_to_list (cache guild w)).

(** [channel.name] *)
Definition channel_name (channel : string) (w : World) : string :=
  default "" (Channel.name <$> channels w !! channel).

(** The order of the [userId] column: byte by byte. *)
Definition userId_le (s1 s2 : string) : Prop := String.leb s1 s2 = true.

#[global] Instance userId_le_dec : RelDecision userId_le.
Proof. intros s1 s2. unfold userId_le. apply _. Defined.

(** [SELECT userId FROM ticket_members WHERE channelId = ?], [.all()]: the
    rows of the channel, answered from the index of the primary key
    [(channelId, userId)], that is, in the order of [userId]. *)
Definition select_members (channel : string) (w : World) : list string :=
  merge_sort userId_le (snd <$> filter (λ row, row.1 = channel) (ticket_members w)).

(** [SELECT * FROM tickets WHERE channelId = ? AND status = 'closed'] *)
Definition select_closed_ticket (channel : string) (w : World) : option Ticket.t :=
  t ← tickets w !! channel;
  if decide (Ticket.status t = "closed") then Some t else None.

(** ** Writes *)

(** [INSERT INTO tickets (channelId, guildId, ownerId, panelName)]: the
    other columns take their defaults; the primary key must be new. *)
Definition insert_ticket (env : Env) (channel guild owner panel : string) : M unit := λ w,
  match tickets w !! channel with
  | Some _ => (Thrown (SqliteError "UNIQUE constraint failed: tickets.channelId"), w)
  | None =>
      (Returned (),
       set_tickets <[channel := Ticket.Build guild owner panel "open" (now env) None]> w)
  end.

(** [INSERT INTO ticket_members (channelId, userId)] *)
Definition insert_member (channel user : string) : M unit := λ w,
  if decide ((channel, user) ∈ ticket_members w)
  then (Thrown (SqliteError
                  "UNIQUE constraint failed: ticket_members.channelId, ticket_members.userId"),
        w)
  else (Returned (), set_ticket_members (λ rows, rows ++ [(channel, user)]) w).

(** [INSERT OR IGNORE INTO ticket_members (channelId, userId)] *)
Definition insert_or_ignore_member (channel user : string) (w : World) : World :=
  if decide ((channel, user) ∈ ticket_members w) then w
  else set_ticket_members (λ rows, rows ++ [(channel, user)]) w.

(** [DELETE FROM ticket_members WHERE channelId = ? AND userId = ?] *)
Definition delete_member (channel user : string) : World → World :=
  set_ticket_members (filter (λ row, row ≠ (channel, user))).

(** [DELETE FROM ticket_members WHERE channelId = ?] *)
Definition delete_members (channel : string) : World → World :=
  set_ticket_members (filter (λ row, row.1 ≠ channel)).

(** [UPDATE tickets SET status = 'closed', closedAt = strftime('%s','now')
    WHERE channelId = ?] *)
Definition update_closed (env : Env) (channel : string) : World → World :=
  set_tickets (alter (λ t, Ticket.Build (Ticket.guildId t) (Ticket.ownerId t)
                             (Ticket.panelName t) "closed" (Ticket.createdAt t)
                             (Some (now env))) channel).

(** [UPDATE tickets SET status = 'open' WHERE channelId = ?] *)
Definition update_open (channel : string) : World → World :=
  set_tickets (alter (λ t, Ticket.Build (Ticket.guildId t) (Ticket.ownerId t)
                             (Ticket.panelName t) "open" (Ticket.createdAt t)
                             (Ticket.closedAt t)) channel).

(** ** Helper functions of the source *)

Definition view_send : Z :=
  BitField.resolve [PermissionFlagsBits.ViewChannel; PermissionFlagsBits.SendMessages].

Definition createTicketChannel (env : Env) (guild : string) (user : User.t)
    (panelName : string) : M string :=
  cfg ← query (λ w, config w !! guild);
  match truthy (cfg ≫= Config.supportRole) with
  | None => throw NotConfigured
  | Some supportRole =>
      let ticketName := "ticket-" +:+ toLowerCase env (User.username user) in
      existingTicket ← query (cache_find guild (λ c,
        bool_decide (Channel.name c = ticketName) && bool_decide (Channel.type c = GuildText)));
      match existingTicket with
      | Some existing => throw (DuplicateTicket existing)
      | None =>
          await env (channels_create guild ticketName GuildText
            [ (guild, Overwrite.Build 0 (BitField.resolve [PermissionFlagsBits.ViewChannel]));
              (User.id user, Overwrite.Build view_send 0);
              (supportRole, Overwrite.Build view_send 0) ]);;
          let channel := newId env in
          insert_ticket env channel guild (User.id user) panelName;;
          insert_member channel (User.id user);;
          mret channel
      end
  end.

Definition generateTranscript (env : Env) (channel : string) : M Buffer :=
  name ← query (channel_name channel);
  let options := {| limit := -1; returnType := "buffer";
                    filename := name +:+ "-transcript.html"; saveImages := true |} in
  await env (createTranscript channel options);;
  mret (Html channel options).

(** The transcript message of [close] and [delete], guarded as in the
    source: a configured log channel that the guild's cache resolves. *)
Definition send_to_log (env : Env) (cfg : option Config.t) (guild : string)
    (m : Message) : M unit :=
  match truthy (cfg ≫= Config.logChannel) with
  | Some id =>
      logChannel ← query (λ w, cache guild w !! id);
      match logChannel with
      | Some _ => await env (send id m)
      | None => mret ()
      end
  | None => mret ()
  end.

(** ** [handleSlashCommand] *)

Definition isAdmin_of (member : GuildMember.t) : bool :=
  BitField.has (GuildMember.permissions member) PermissionFlagsBits.Administrator.

(** [config?.supportRole && member.roles.cache.has(config.supportRole)] *)
Definition isStaff_of (cfg : option Config.t) (member : GuildMember.t) : bool :=
  match truthy (cfg ≫= Config.supportRole) with
  | Some role => bool_decide (role ∈ GuildMember.roles member)
  | None => false
  end.

Definition grant : list (Z * bool) :=
  [(PermissionFlagsBits.ViewChannel, true); (PermissionFlagsBits.SendMessages, true)].

(** The members [close] strips: everyone but the owner and, when the caller
    is staff, the caller. *)
Definition stripped_on_close (isStaff : bool) (owner caller userId : string) : bool :=
  bool_decide (userId ≠ owner) && negb (isStaff && bool_decide (userId = caller)).

Definition handleSlashCommand (env : Env) (interaction : Interaction.t) : M unit :=
  let channel := Interaction.channel interaction in
  let guild := Interaction.guild interaction in
  let member := Interaction.member interaction in
  let user := Interaction.user interaction in
  let isAdmin := isAdmin_of member in
  cfg ← query (λ w, config w !! guild);
  let isStaff := isStaff_of cfg member in
  match Interaction.subcommand interaction with
  | Setup supportRole closedCategory logChannel color0 =>
      when (negb isAdmin) (throw (Error "You need administrator permissions!"));;
      let color := or_else color0 "#FFC0CB" in
      run (set_config <[guild := Config.Build (Some supportRole) (Some closedCategory)
                                   logChannel (Some color)]>);;
      await env (reply (text (
          "✅ Ticket system configured!" +:+ nl
          +:+ "• Support Role: " +:+ Role.mention guild supportRole +:+ nl
          +:+ "• Closed Tickets: " +:+ Channel.mention closedCategory +:+ nl
          +:+ "• Log Channel: " +:+ from_option Channel.mention "Not set" logChannel +:+ nl
          +:+ "• Panel Color: " +:+ color)) true)

  | PanelCmd panelName panelChannel title0 description0 imageUrl =>
      when (negb isAdmin) (throw (Error "You need administrator permissions!"));;
      let title := or_else title0 "Support Tickets" in
      let description :=
        or_else description0 "Click the button below to create a new ticket!" in
      run (set_panels <[(guild, panelName) :=
                          Panel.Build panelChannel title description imageUrl]>);;
      build env (setColor (or_else (cfg ≫= Config.panelColor) "#FFC0CB"));;
      build env (setTitle title);;
      build env (setDescription description);;
      match truthy imageUrl with
      | Some url => build env (setImage url)
      | None => mret ()
      end;;
      let panelEmbed :=
        {| embed_color := or_else (cfg ≫= Config.panelColor) "#FFC0CB";
           embed_title := title; embed_description := description;
           embed_image := truthy imageUrl |} in
      build env (setCustomId ("ticket_" +:+ panelName));;
      let ticketButton :=
        {| customId := "ticket_" +:+ panelName; label := "Create Ticket"; emoji := "🎫" |} in
      await env (send panelChannel {| content := ""; embeds := [panelEmbed];
                                      components := [ticketButton]; files := [] |});;
      await env (reply (text ("✅ Created " +:+ panelName +:+ " ticket panel in "
                              +:+ Channel.mention panelChannel +:+ "!")) true)

  | Add userToAdd =>
      ticket ← query (λ w, tickets w !! channel);
      when (negb (bool_decide (is_Some ticket)) && negb isStaff) (throw NotATicketChannel);;
      (if negb isStaff
       then owner ← ownerId_of ticket;
            when (bool_decide (owner ≠ User.id user))
                 (throw (Error "Only ticket owners or staff can add users!"))
       else mret ());;
      await env (permissionOverwrites_edit channel (User.id userToAdd) grant);;
      run (insert_or_ignore_member channel (User.id userToAdd));;
      await env (reply (text ("✅ Added " +:+ User.mention userToAdd +:+ " to the ticket!"))
                       false)

  | Remove userToRemove =>
      ticketData ← query (λ w, tickets w !! channel);
      when (negb (bool_decide (is_Some ticketData)) && negb isStaff)
           (throw NotATicketChannel);;
      (if negb isStaff
       then owner ← ownerId_of ticketData;
            when (bool_decide (owner ≠ User.id user))
                 (throw (Error "Only ticket owners or staff can remove users!"))
       else mret ());;
      owner ← ownerId_of ticketData;
      when (bool_decide (User.id userToRemove = owner)) (throw CannotRemoveOwner);;
      await env (permissionOverwrites_delete channel (User.id userToRemove));;
      run (delete_member channel (User.id userToRemove));;
      await env (reply (text ("✅ Removed " +:+ User.mention userToRemove
                              +:+ " from the ticket!")) false)

  | Close =>
      ticketToClose ← query (λ w, tickets w !! channel);
      match ticketToClose with
      | None => throw NotATicketChannel
      | Some ticketToClose =>
          when (negb isStaff && bool_decide (Ticket.ownerId ticketToClose ≠ User.id user))
               (throw (Error "Only ticket owners or staff can close tickets!"));;
          await env (deferReply false);;
          transcript ← generateTranscript env channel;
          run (update_closed env channel);;
          match truthy (cfg ≫= Config.closedCategory) with
          | Some closedCategory => await env (setParent channel closedCategory)
          | None => mret ()
          end;;
          members ← query (select_members channel);
          for_of members (λ userId,
            when (stripped_on_close isStaff (Ticket.ownerId ticketToClose)
                                    (User.id user) userId)
                 (await env (permissionOverwrites_delete channel userId)));;
          name ← query (channel_name channel);
          send_to_log env cfg guild
            {| content := "📝 Transcript for ticket " +:+ name +:+ " (Closed by "
                          +:+ User.tag user +:+ ")";
               embeds := []; components := [];
               files := [ {| attachment := transcript;
                             attachment_name := name +:+ "-transcript.html" |} ] |};;
          await env (editReply (text "✅ Ticket closed! The transcript has been saved."))
      end

  | Open =>
      closedTicket ← query (select_closed_ticket channel);
      when (negb (bool_decide (is_Some closedTicket))) (throw NotClosed);;
      when (negb isStaff) (throw (Error "Only staff can reopen tickets!"));;
      originalMembers ← query (select_members channel);
      for_of originalMembers (λ userId,
        await env (permissionOverwrites_edit channel userId grant));;
      run (update_open channel);;
      await env (reply (text "✅ Ticket reopened! All original members have been readded.")
                       false)

  | Delete =>
      ticketToDelete ← query (λ w, tickets w !! channel);
      when (negb (bool_decide (is_Some ticketToDelete))) (throw NotATicketChannel);;
      when (negb isStaff) (throw (Error "Only staff can delete tickets!"));;
      await env (deferReply true);;
      deleteTranscript ← generateTranscript env channel;
      name ← query (channel_name channel);
      send_to_log env cfg guild
        {| content := "🗑️ Transcript for DELETED ticket " +:+ name +:+ " (Deleted by "
                      +:+ User.tag user +:+ ")";
           embeds := []; components := [];
           files := [ {| attachment := deleteTranscript;
                         attachment_name := name +:+ "-transcript.html" |} ] |};;
      run (set_tickets (delete channel));;
      run (delete_members channel);;
      await env (channel_delete channel "Ticket deleted by staff");;
      await env (editReply (text "✅ Ticket deleted! The transcript has been saved."))

  | Transcript =>
      ticketForTranscript ← query (λ w, tickets w !! channel);
      match ticketForTranscript with
      | None => throw NotATicketChannel
      | Some ticketForTranscript =>
          when (negb isStaff
                && bool_decide (Ticket.ownerId ticketForTranscript ≠ User.id user))
               (throw (Error "Only ticket owners or staff can generate transcripts!"));;
          await env (deferReply true);;
          transcriptFile ← generateTranscript env channel;
          name ← query (channel_name channel);
          await env (editReply {| content := "Here is the transcript of this ticket:";
                                  embeds := []; components := [];
                                  files := [ {| attachment := transcriptFile;
                                                attachment_name :=
                                                  name +:+ "-transcript.html" |} ] |})
      end

  | Unknown _ => throw (Error "Unknown subcommand!")
  end.

(** ** The [interactionCreate] listener

    The listener wraps the two functions above in [try]/[catch].  What it
    adds to the world is kept beside it: the lines written with
    [console.error], and the greeting sent to a new ticket channel, whose
    embed has a footer, which the embeds of the slash commands do not. *)

(** [s.startsWith(prefix)] *)
Definition startsWith (s prefix : string) : bool := String.prefix prefix s.

Fixpoint drop_chars (n : nat) (s : string) : string :=
  match n, s with
  | O, _ => s
  | S n', String _ s' => drop_chars n' s'
  | S _, EmptyString => EmptyString
  end.

(** [s.replace(pattern, replacement)] with a string pattern: the first
    occurrence only. *)
Fixpoint replace (pattern replacement s : string) : string :=
  if String.prefix pattern s
  then replacement +:+ drop_chars (String.length pattern) s
  else match s with
       | EmptyString => EmptyString
       | String a s' => String a (replace pattern replacement s')
       end.

Module ButtonInteraction.
Record t := Build { customId : string; guild : string; user : User.t }.
End ButtonInteraction.

(** [isChatInputCommand()], [isButton()], or neither. *)
Inductive InteractionEvent :=
| ChatInputCommand (interaction : Interaction.t)
| ButtonClick (interaction : ButtonInteraction.t)
| OtherInteraction.

Inductive HostEvent :=
| console_error (label : string) (error : Exn)
| channel_send_greeting (channel content : string) (embed : Embed) (footer : string).

Record Host := {
  world : World;
  host_log : list HostEvent     (* oldest first *)
}.

(** Beside [Env]: the text of the error an awaited call rejects with. *)
Record HostEnv := {
  gateway : Env;
  rejection_message : Call → string
}.

(** [error.message] *)
Definition message_of (henv : HostEnv) (error : Exn) : string :=
  match error with
  | Error m | TypeError m | SqliteError m => m
  | Rejected c => rejection_message henv c
  end.

Definition H (A : Type) : Type := Host → Outcome A * Host.

#[global] Instance H_ret : MRet H := λ A a h, (Returned a, h).
#[global] Instance H_bind : MBind H := λ A B f m h,
  match m h with
  | (Returned a, h') => f a h'
  | (Thrown e, h') => (Thrown e, h')
  end.

(** A computation of the functions above, run on the host's world. *)
Definition lift {A} (m : M A) : H A := λ h,
  let '(r, w') := m (world h) in (r, {| world := w'; host_log := host_log h |}).

Definition log_event (e : HostEvent) : H unit := λ h,
  (Returned (), {| world := world h; host_log := host_log h ++ [e] |}).

(** [try { body } catch (error) { handler }] *)
Definition try_catch {A} (body : H A) (handler : Exn → H A) : H A := λ h,
  match body h with
  | (Thrown e, h') => handler e h'
  | returned => returned
  end.

(** The message of a greeting as far as [Message] carries it; it names the
    call when the send rejects. *)
Definition greeting_message (content : string) (embed : Embed) : Message :=
  {| content := content; embeds := [embed]; components := []; files := [] |}.

(** [await channel.send({ content, embeds: [embed] })] for the greeting. *)
Definition send_greeting (henv : HostEnv) (channel content : string) (embed : Embed)
    (footer : string) : H unit := λ h,
  if fails (gateway henv) (send channel (greeting_message content embed))
  then (Thrown (Rejected (send channel (greeting_message content embed))), h)
  else log_event (channel_send_greeting channel content embed footer) h.

Definition is_reply (c : Call) : bool :=
  match c with
  | reply _ _ | editReply _ => true
  | _ => false
  end.

(** [interaction.replied]: a [reply] or [editReply] of this interaction went
    through, that is, since the trace had [since] entries. *)
Definition replied (since : nat) (w : World) : bool :=
  existsb is_reply (drop since (trace w)).

Definition is_defer (c : Call) : bool :=
  match c with
  | deferReply _ => true
  | _ => false
  end.

(** [interaction.deferred]: the [deferReply] of this interaction went
    through. *)
Definition deferred (since : nat) (w : World) : bool :=
  existsb is_defer (drop since (trace w)).

(** [interaction.reply] and [interaction.editReply] as the listener's
    handlers meet them: the library refuses a first response to an
    interaction that was deferred or answered, and an edit of one that was
    not.  Inside the two functions above every [reply] is the interaction's
    first response and every [editReply] follows its [deferReply], so there
    the check always passes. *)
Definition interaction_reply (env : Env) (since : nat) (m : Message) (ephemeral : bool)
    : M unit :=
  was_deferred ← query (deferred since);
  was_replied ← query (replied since);
  if was_deferred || was_replied
  then throw (Error "The reply to this interaction has already been sent or deferred.")
  else await env (reply m ephemeral).

Definition interaction_editReply (env : Env) (since : nat) (m : Message) : M unit :=
  was_deferred ← query (deferred since);
  was_replied ← query (replied since);
  if was_deferred || was_replied
  then await env (editReply m)
  else throw (Error "The reply to this interaction has not been sent or deferred.").

(** [config.supportRole] where [config] is what [.get()] returned. *)
Definition supportRole_of (config : option Config.t) : M (option string) :=
  match config with
  | Some c => mret (Config.supportRole c)
  | None => throw (TypeError "Cannot read properties of undefined (reading 'supportRole')")
  end.

Definition interactionCreate (henv : HostEnv) (event : InteractionEvent) : H unit :=
  let env := gateway henv in
  match event with
  | OtherInteraction => mret ()
  | ButtonClick interaction =>
      let guild := ButtonInteraction.guild interaction in
      let user := ButtonInteraction.user interaction in
      if startsWith (ButtonInteraction.customId interaction) "ticket_" then
        let panelName := replace "ticket_" "" (ButtonInteraction.customId interaction) in
        (* where this interaction's calls begin in the trace *)
        since ← lift (query (λ w, length (trace w)));
        try_catch
          (lift (await env (deferReply true));;
           channel ← lift (createTicketChannel env guild user panelName);
           panel ← lift (query (λ w, panels w !! (guild, panelName)));
           config ← lift (query (λ w, config w !! guild));
           let color := or_else (config ≫= Config.panelColor) "#FFC0CB" in
           let title := or_else (Panel.title <$> panel) "Support Ticket" in
           let description :=
             or_else (Panel.description <$> panel)
               ("Hello " +:+ User.mention user +:+ ", support will be with you shortly!") in
           lift (build env (setColor color));;
           lift (build env (setTitle title));;
           lift (build env (setDescription description));;
           let embed :=
             {| embed_color := color; embed_title := title;
                embed_description := description; embed_image := None |} in
           supportRole ← lift (supportRole_of config);
           send_greeting henv channel
             (User.mention user +:+ " <@&" +:+ default "null" supportRole +:+ ">")
             embed ("Ticket ID: " +:+ channel);;
           lift (await env (editReply (text ("Your ticket has been created: "
                                             +:+ Channel.mention channel)))))
          (λ error,
             log_event (console_error "Error creating ticket:" error);;
             lift (interaction_editReply env since
                     (text ("❌ Error: " +:+ message_of henv error))))
      else mret ()
  | ChatInputCommand interaction =>
      (* where this interaction's calls begin in the trace *)
      since ← lift (query (λ w, length (trace w)));
      try_catch
        (lift (handleSlashCommand env interaction))
        (λ error,
           log_event (console_error "Error handling command:" error);;
           was_replied ← lift (query (replied since));
           if negb was_replied
           then lift (interaction_reply env since
                        (text ("❌ Error: " +:+ message_of henv error)) true)
           else mret ())
  end.

(** ** A concrete guild, used by the examples below

    Guild [g] is set up with support role [staff], closed category [C] and
    log channel [L].  User [U] owns the open ticket in channel [t1], to which
    [X] and [Y] were added.  [S] holds the support role; [A] is an
    administrator without it. *)

Module Sample.
Definition allowed : Overwrite.t := Overwrite.Build view_send 0.

Definition t1 : Channel.t :=
  Channel.Build "g" "ticket-u" GuildText None
    (list_to_map [("g", Overwrite.Build 0 PermissionFlagsBits.ViewChannel);
                  ("U", allowed); ("staff", allowed); ("X", allowed); ("Y", allowed)]).

Definition cfg : Config.t :=
  Config.Build (Some "staff") (Some "C") (Some "L") (Some "#FFC0CB").

Definition ticket : Ticket.t := Ticket.Build "g" "U" "support" "open" 100 None.

Definition world : World :=
  {| config := {[ "g" := cfg ]};
     tickets := {[ "t1" := ticket ]};
     ticket_members := [("t1", "U"); ("t1", "X"); ("t1", "Y")];
     panels := ∅;
     channels := list_to_map
       [("t1", t1);
        ("C", Channel.Build "g" "closed" GuildCategory None ∅);
        ("L", Channel.Build "g" "logs" GuildText None ∅);
        ("lobby", Channel.Build "g" "lobby" GuildText None ∅)];
     trace := [] |}.

(** The same guild after [U]'s ticket was closed at time 150. *)
Definition closed_world : World :=
  set_tickets (<["t1" := Ticket.Build "g" "U" "support" "closed" 100 (Some 150%Z)]>) world.

Definition U : User.t := User.Build "U" "u" "u#0001".
Definition X : User.t := User.Build "X" "x" "x#0002".
Definition Y : User.t := User.Build "Y" "y" "y#0003".
Definition S : User.t := User.Build "S" "s" "s#0004".
Definition A : User.t := User.Build "A" "a" "a#0005".

Definition plain : GuildMember.t := GuildMember.Build 0 ∅.
Definition staff : GuildMember.t := GuildMember.Build 0 {[ "staff" ]}.
Definition admin : GuildMember.t :=
  GuildMember.Build PermissionFlagsBits.Administrator ∅.

(** The lower-casing of the sample: the names below are ASCII, where
    [toLowerCase] lowers [A]-[Z] and keeps the rest. *)
Definition lower_ascii (a : Ascii.ascii) : Ascii.ascii :=
  let n := Ascii.nat_of_ascii a in
  if (65 <=? n)%nat && (n <=? 90)%nat then Ascii.ascii_of_nat (n + 32) else a.

Fixpoint lower (s : string) : string :=
  match s with
  | EmptyString => EmptyString
  | String a s' => String (lower_ascii a) (lower s')
  end.

(** No call rejects and no builder refuses; the clock reads 200; the next
    channel is [t2]. *)
Definition calm : Env :=
  {| fails := λ _, false; now := 200; newId := "t2";
     toLowerCase := lower; refuses := λ _, None |}.

(** Only the given call rejects. *)
Definition failing (c : Call) : Env :=
  {| fails := λ c', bool_decide (c' = c); now := 200; newId := "t2";
     toLowerCase := lower; refuses := λ _, None |}.

(** The same guild where [Y] was added before [X] and the closed category
    [C] itself lets [Y] in. *)
Definition world_Y_in_category : World :=
  {| config := config world; tickets := tickets world;
     ticket_members := [("t1", "U"); ("t1", "Y"); ("t1", "X")]; panels := panels world;
     channels := <["C" := Channel.Build "g" "closed" GuildCategory None
                            {[ "Y" := allowed ]}]> (channels world);
     trace := [] |}.

(** The same guild after its log channel [L] was removed. *)
Definition world_without_log : World :=
  {| config := config world; tickets := tickets world;
     ticket_members := ticket_members world; panels := panels world;
     channels := delete "L" (channels world);
     trace := [] |}.

Definition by_ (who : User.t) (m : GuildMember.t) (cmd : Subcommand) (ch : string)
  : Interaction.t := Interaction.Build cmd ch "g" m who.
End Sample.

(** ** Notions used in the statements *)

(** The calls a guarded loop makes when none rejects. *)
Definition guarded_calls {A} (p : A → bool) (c : A → Call) (l : list A) : list Call :=
  c <$> List.filter p l.

(** The world after a run of calls that all went through. *)
Definition perform_all (env : Env) (cs : list Call) (w : World) : World :=
  foldl (λ w c, perform env c w) w cs.

(** A channel after [permissionOverwrites.delete] for each of [ids]. *)
Definition strip (ids : list string) (c : Channel.t) : Channel.t :=
  foldl (λ c id, Channel.delete_overwrite id c) c ids.

(** A channel after the view-and-send edit for each of [ids]. *)
Definition grant_all (ids : list string) (c : Channel.t) : Channel.t :=
  foldl (λ c id, Channel.edit_overwrite id grant c) c ids.

(** Every [TicketMember] row belongs to a [Ticket] row. *)
Definition members_have_ticket (w : World) : Prop :=
  ∀ ch uid, (ch, uid) ∈ ticket_members w → is_Some (tickets w !! ch).

(** The channel [close] and [delete] post the transcript to, if any: the
    configured id, when the guild's cache holds it. *)
Definition log_target (cfg : option Config.t) (guild : string) (w : World) : option string :=
  id ← truthy (cfg ≫= Config.logChannel);
  _ ← cache guild w !! id;
  Some id.

(** The options [generateTranscript] passes: [limit: -1] is the whole
    history. *)
Definition transcript_options (name : string) : TranscriptOptions :=
  {| limit := -1; returnType := "buffer";
     filename := name +:+ "-transcript.html"; saveImages := true |}.

(** The message [close] posts to the log channel. *)
Definition close_message (name tag : string) (transcript : Buffer) : Message :=
  {| content := "📝 Transcript for ticket " +:+ name +:+ " (Closed by " +:+ tag +:+ ")";
     embeds := []; components := [];
     files := [ {| attachment := transcript;
                   attachment_name := name +:+ "-transcript.html" |} ] |}.

(** The world once [close] has deferred, exported, updated the row and
    re-parented: everything before the loop over the members. *)
Definition before_strip (env : Env) (cfg : option Config.t) (ch name : string)
    (w : World) : World :=
  let w3 := update_closed env ch
              (perform env (createTranscript ch (transcript_options name))
                 (perform env (deferReply false) w)) in
  match truthy (cfg ≫= Config.closedCategory) with
  | Some category => perform env (setParent ch category) w3
  | None => w3
  end.

(** The channel under the closed category, when one is configured, among
    the channels [chs]. *)
Definition reparent (cfg : option Config.t) (chs : gmap string Channel.t)
    (c : Channel.t) : Channel.t :=
  match truthy (cfg ≫= Config.closedCategory) with
  | Some category => Channel.set_parent category (locked category c chs) c
  | None => c
  end.

(** The overwrites of channel [c] when the loop of [close] begins: those of
    the closed category, when one is configured and the guild has it as a
    category; its own otherwise. *)
Definition overwrites_before_loop (cfg : option Config.t) (w : World) (c : Channel.t)
    : gmap string Overwrite.t :=
  match truthy (cfg ≫= Config.closedCategory) with
  | Some category =>
      match channels w !! category with
      | Some p =>
          if decide (Channel.guild p = Channel.guild c ∧ Channel.type p = GuildCategory)
          then Channel.permissionOverwrites p
          else Channel.permissionOverwrites c
      | None => Channel.permissionOverwrites c
      end
  | None => Channel.permissionOverwrites c
  end.

(** [`ticket-${user.username.toLowerCase()}`] *)
Definition ticket_name (env : Env) (user : User.t) : string :=
  "ticket-" +:+ toLowerCase env (User.username user).

(** The test of [guild.channels.cache.find] in [createTicketChannel]. *)
Definition same_named (env : Env) (user : User.t) (c : Channel.t) : bool :=
  bool_decide (Channel.name c = ticket_name env user)
  && bool_decide (Channel.type c = GuildText).

(** The [guild.channels.create] call of [createTicketChannel]. *)
Definition create_call (env : Env) (guild : string) (user : User.t) (supportRole : string)
    : Call :=
  channels_create guild (ticket_name env user) GuildText
    [ (guild, Overwrite.Build 0 (BitField.resolve [PermissionFlagsBits.ViewChannel]));
      (User.id user, Overwrite.Build view_send 0);
      (supportRole, Overwrite.Build view_send 0) ].

(** Computations that never write the [tickets] table, however they end. *)
Definition keeps_tickets {A} (m : M A) : Prop := ∀ w, tickets (m w).2 = tickets w.

(** The message [delete] posts to the log channel. *)
Definition delete_message (name tag : string) (transcript : Buffer) : Message :=
  {| content := "🗑️ Transcript for DELETED ticket " +:+ name +:+ " (Deleted by "
                +:+ tag +:+ ")";
     embeds := []; components := [];
     files := [ {| attachment := transcript;
                   attachment_name := name +:+ "-transcript.html" |} ] |}.

(** The final reply of [delete]. *)
Definition deleted_reply : Call :=
  editReply (text "✅ Ticket deleted! The transcript has been saved.").

(** The world [delete] leaves when it returns, from the world [wl] in which
    the log message was dealt with. *)
Definition after_delete (env : Env) (ch : string) (wl : World) : World :=
  perform env deleted_reply
    (perform env (channel_delete ch "Ticket deleted by staff")
       (delete_members ch (set_tickets (delete ch) wl))).

(** ** The footprint of a command

    The effects [handleSlashCommand] can have on the world, by subcommand. *)

(** Calls that touch neither a table nor a channel. *)
Definition quiet (c : Call) : bool :=
  match c with
  | send _ _ | createTranscript _ _ | deferReply _ | reply _ _ | editReply _ => true
  | _ => false
  end.

Definition may_grant (cmd : Subcommand) (id : string) : Prop :=
  match cmd with
  | Add user => id = User.id user
  | Open => True
  | _ => False
  end.

Definition may_strip (cmd : Subcommand) (id : string) : Prop :=
  match cmd with
  | Remove user => id = User.id user
  | Close => True
  | _ => False
  end.

Inductive primitive (env : Env) (i : Interaction.t) : (World → World) → Prop :=
| prim_quiet c :
    quiet c = true → primitive env i (perform env c)
| prim_config role category log color :
    Interaction.subcommand i = Setup role category log color →
    primitive env i
      (set_config <[Interaction.guild i :=
                      Config.Build (Some role) (Some category) log
                        (Some (or_else color "#FFC0CB"))]>)
| prim_panel name channel title description image :
    Interaction.subcommand i = PanelCmd name channel title description image →
    primitive env i
      (set_panels <[(Interaction.guild i, name) :=
                      Panel.Build channel (or_else title "Support Tickets")
                        (or_else description
                                 "Click the button below to create a new ticket!")
                        image]>)
| prim_grant id :
    may_grant (Interaction.subcommand i) id →
    primitive env i
      (perform env (permissionOverwrites_edit (Interaction.channel i) id grant))
| prim_member user :
    Interaction.subcommand i = Add user →
    primitive env i (insert_or_ignore_member (Interaction.channel i) (User.id user))
| prim_strip id :
    may_strip (Interaction.subcommand i) id →
    primitive env i (perform env (permissionOverwrites_delete (Interaction.channel i) id))
| prim_unmember user :
    Interaction.subcommand i = Remove user →
    primitive env i (delete_member (Interaction.channel i) (User.id user))
| prim_closed :
    Interaction.subcommand i = Close →
    primitive env i (update_closed env (Interaction.channel i))
| prim_reparent category :
    Interaction.subcommand i = Close →
    primitive env i (perform env (setParent (Interaction.channel i) category))
| prim_reopened :
    Interaction.subcommand i = Open →
    primitive env i (update_open (Interaction.channel i))
| prim_rows :
    Interaction.subcommand i = Delete →
    primitive env i
      (λ w, delete_members (Interaction.channel i)
              (set_tickets (delete (Interaction.channel i)) w))
| prim_channel :
    Interaction.subcommand i = Delete →
    primitive env i
      (perform env (channel_delete (Interaction.channel i) "Ticket deleted by staff")).

Definition apply_all (fs : list (World → World)) (w : World) : World :=
  foldl (λ w f, f w) w fs.

(** [m] changes the world only by effects in [P], however it ends. *)
Definition steps (P : (World → World) → Prop) {A} (m : M A) : Prop :=
  ∀ w, ∃ fs, Forall P fs ∧ (m w).2 = apply_all fs w.

(** What a command may write. *)
Inductive Table := ConfigTable | PanelsTable | TicketsTable | MembersTable | ChannelState.

Definition may_write (cmd : Subcommand) (t : Table) : bool :=
  match cmd, t with
  | Setup _ _ _ _, ConfigTable => true
  | PanelCmd _ _ _ _ _, PanelsTable => true
  | (Close | Open | Delete), TicketsTable => true
  | (Add _ | Remove _ | Delete), MembersTable => true
  | (Add _ | Remove _ | Close | Open | Delete), ChannelState => true
  | _, _ => false
  end.

(** Two channels that are the same channel as far as
    [createTicketChannel]'s duplicate test can tell. *)
Definition same_channel (c c' : Channel.t) : Prop :=
  Channel.guild c' = Channel.guild c
  ∧ Channel.name c' = Channel.name c
  ∧ Channel.type c' = Channel.type c.


(** The row [panel] writes. *)
Definition panel_row (channel : string) (title description image : option string) : Panel.t :=
  Panel.Build channel (or_else title "Support Tickets")
    (or_else description "Click the button below to create a new ticket!") image.

(** The button [panel] posts. *)
Definition panel_button (name : string) : Button :=
  {| customId := "ticket_" +:+ name; label := "Create Ticket"; emoji := "🎫" |}.

(** The message [panel] posts: the panel's embed and its button. *)
Definition panel_post (cfg : option Config.t) (name : string) (row : Panel.t) : Message :=
  {| content := "";
     embeds := [ {| embed_color := or_else (cfg ≫= Config.panelColor) "#FFC0CB";
                    embed_title := Panel.title row;
                    embed_description := Panel.description row;
                    embed_image := truthy (Panel.imageUrl row) |} ];
     components := [panel_button name];
     files := [] |}.

(** The greeting a new ticket channel gets. *)
Definition greeting_embed (w : World) (guild panelName : string) (user : User.t) : Embed :=
  {| embed_color := or_else (config w !! guild ≫= Config.panelColor) "#FFC0CB";
     embed_title := or_else (Panel.title <$> panels w !! (guild, panelName)) "Support Ticket";
     embed_description :=
       or_else (Panel.description <$> panels w !! (guild, panelName))
         ("Hello " +:+ User.mention user +:+ ", support will be with you shortly!");
     embed_image := None |}.

(** The reply that reports an error to the requester. *)
Definition error_text (henv : HostEnv) (error : Exn) : Message :=
  text ("❌ Error: " +:+ message_of henv error).

Definition added_reply (target : User.t) : Call :=
  reply (text ("✅ Added " +:+ User.mention target +:+ " to the ticket!")) false.

Definition removed_reply (target : User.t) : Call :=
  reply (text ("✅ Removed " +:+ User.mention target +:+ " from the ticket!")) false.

(** The message of the first refusal among builder calls made in turn. *)
Fixpoint refusal (env : Env) (bs : list BuilderCall) : option string :=
  match bs with
  | [] => None
  | b :: bs' =>
      match refuses env b with
      | Some message => Some message
      | None => refusal env bs'
      end
  end.

(** What [panel] gives the builders, in turn: the colour, the title, the
    description, the image if there is one, and the button's id. *)
Definition panel_builds (cfg : option Config.t) (name : string) (row : Panel.t)
    : list BuilderCall :=
  [ setColor (or_else (cfg ≫= Config.panelColor) "#FFC0CB");
    setTitle (Panel.title row);
    setDescription (Panel.description row) ]
  ++ match truthy (Panel.imageUrl row) with
     | Some url => [setImage url]
     | None => []
     end
  ++ [ setCustomId ("ticket_" +:+ name) ].

(** What the listener gives the builders for the greeting [e]. *)
Definition greeting_builds (e : Embed) : list BuilderCall :=
  [ setColor (embed_color e); setTitle (embed_title e);
    setDescription (embed_description e) ].

(** * Properties *)

(** ** Runs on the sample guild *)

(** [X] presses the panel button: a channel is made for [X] and the support
    role, and the Ticket row and the owner's member row are written. *)
Example create_for_X :
  let r := createTicketChannel Sample.calm "g" Sample.X "support" Sample.world in
  r.1 = Returned "t2"
  ∧ tickets r.2 !! "t2" = Some (Ticket.Build "g" "X" "support" "open" 200 None)
  ∧ ticket_members r.2 = [("t1", "U"); ("t1", "X"); ("t1", "Y"); ("t2", "X")]
  ∧ (Channel.name <$> channels r.2 !! "t2") = Some "ticket-x"
  ∧ ((channels r.2 !! "t2") ≫= (λ c, Channel.permissionOverwrites c !! "X"))
    = Some Sample.allowed
  ∧ ((channels r.2 !! "t2") ≫= (λ c, Channel.permissionOverwrites c !! "staff"))
    = Some Sample.allowed
  ∧ ((channels r.2 !! "t2") ≫= (λ c, Channel.permissionOverwrites c !! "g"))
    = Some (Overwrite.Build 0 PermissionFlagsBits.ViewChannel).
Proof. repeat split; reflexivity. Qed.

(** The owner adds [A]; adding [A] again stores no second row. *)
Example add_twice_by_owner :
  let i := Sample.by_ Sample.U Sample.plain (Add Sample.A) "t1" in
  let r1 := handleSlashCommand Sample.calm i Sample.world in
  let r2 := handleSlashCommand Sample.calm i r1.2 in
  r1.1 = Returned () ∧ r2.1 = Returned ()
  ∧ ticket_members r1.2 = [("t1", "U"); ("t1", "X"); ("t1", "Y"); ("t1", "A")]
  ∧ ticket_members r2.2 = ticket_members r1.2.
Proof. repeat split; reflexivity. Qed.

(** Staff removes [X]: the overwrite and the member row go. *)
Example remove_X_by_staff :
  let r := handleSlashCommand Sample.calm
             (Sample.by_ Sample.S Sample.staff (Remove Sample.X) "t1") Sample.world in
  r.1 = Returned ()
  ∧ ticket_members r.2 = [("t1", "U"); ("t1", "Y")]
  ∧ ((channels r.2 !! "t1") ≫= (λ c, Channel.permissionOverwrites c !! "X")) = None.
Proof. repeat split; reflexivity. Qed.

(** [Y], neither staff nor owner, may not remove [X]: nothing changes. *)
Example remove_X_by_stranger :
  handleSlashCommand Sample.calm
    (Sample.by_ Sample.Y Sample.plain (Remove Sample.X) "t1") Sample.world
  = (Thrown (Error "Only ticket owners or staff can remove users!"), Sample.world).
Proof. reflexivity. Qed.

(** The owner closes the ticket: the channel moves under [C] and is locked
    to the overwrites of [C], which has none; the loop issues a strip for
    [X] and for [Y] and none for the owner. *)
Example close_by_owner :
  let r := handleSlashCommand Sample.calm
             (Sample.by_ Sample.U Sample.plain Close "t1") Sample.world in
  r.1 = Returned ()
  ∧ ((channels r.2 !! "t1") ≫= Channel.parent) = Some "C"
  ∧ (Channel.permissionOverwrites <$> channels r.2 !! "t1") = Some ∅
  ∧ filter (λ c, quiet c = false) (trace r.2)
    = [setParent "t1" "C"; permissionOverwrites_delete "t1" "X";
       permissionOverwrites_delete "t1" "Y"].
Proof. repeat split; reflexivity. Qed.

(** ** Stepping through the monad *)

Section Steps.
Context {A B : Type}.
Implicit Types (w : World) (k : A → M B) (h : unit → M B).

Lemma bind_ret (a : A) k w : (mret a ≫= k) w = k a w.
Proof. reflexivity. Qed.

Lemma bind_throw (e : Exn) k w : (throw e ≫= k) w = (Thrown e, w).
Proof. reflexivity. Qed.

Lemma bind_query (f : World → A) k w : (query f ≫= k) w = k (f w) w.
Proof. reflexivity. Qed.

Lemma bind_run (f : World → World) h w : (run f ≫= h) w = h () (f w).
Proof. reflexivity. Qed.

Lemma bind_returned (m : M A) k w a w1 :
  m w = (Returned a, w1) → (m ≫= k) w = k a w1.
Proof. intros H. unfold mbind, M_bind. by rewrite H. Qed.

Lemma bind_thrown (m : M A) k w e w1 :
  m w = (Thrown e, w1) → (m ≫= k) w = (Thrown e, w1).
Proof. intros H. unfold mbind, M_bind. by rewrite H. Qed.

Lemma bind_await_ok env c h w :
  fails env c = false → (await env c ≫= h) w = h () (perform env c w).
Proof. intros H. unfold mbind, M_bind, await. by rewrite H. Qed.

Lemma bind_await_fail env c h w :
  fails env c = true → (await env c ≫= h) w = (Thrown (Rejected c), w).
Proof. intros H. unfold mbind, M_bind, await. by rewrite H. Qed.

Lemma bind_bind {C} (m : M C) (f : C → M A) k w :
  ((m ≫= f) ≫= k) w = (m ≫= λ c, f c ≫= k) w.
Proof. unfold mbind, M_bind. by destruct (m w) as [[c|e] w1]. Qed.
End Steps.

Lemma await_ok env c w :
  fails env c = false → await env c w = (Returned (), perform env c w).
Proof. intros H. unfold await. by rewrite H. Qed.

(** ** Sequences of calls *)

Lemma perform_all_db env cs w :
  config (perform_all env cs w) = config w
  ∧ tickets (perform_all env cs w) = tickets w
  ∧ ticket_members (perform_all env cs w) = ticket_members w
  ∧ panels (perform_all env cs w) = panels w.
Proof.
  revert w. induction cs as [|c cs IH]; intros w; [done|].
  simpl. destruct (IH (perform env c w)) as (-> & -> & -> & ->). done.
Qed.

Lemma perform_all_trace env cs w :
  trace (perform_all env cs w) = trace w ++ cs.
Proof.
  revert w. induction cs as [|c cs IH]; intros w; simpl.
  - by rewrite app_nil_r.
  - rewrite IH. simpl. by rewrite <- app_assoc.
Qed.

(** A loop whose body awaits one call for the elements that pass a test. *)
Section Loops.
Context {A : Type} (env : Env) (p : A → bool) (c : A → Call).

Lemma for_of_all_ok l w :
  (∀ x, x ∈ l → p x = true → fails env (c x) = false) →
  for_of l (λ x, when (p x) (await env (c x))) w
  = (Returned (), perform_all env (guarded_calls p c l) w).
Proof.
  revert w. induction l as [|x l IH]; intros w Hok; [done|].
  unfold guarded_calls. simpl. destruct (p x) eqn:Hp; simpl.
  - rewrite bind_await_ok by (apply Hok; [left|done]).
    apply IH. intros y Hy. apply Hok. by right.
  - rewrite bind_ret. apply IH. intros y Hy. apply Hok. by right.
Qed.

(** The first rejection ends the loop: the elements after it are never
    visited. *)
Lemma for_of_first_failure pre x post w :
  (∀ y, y ∈ pre → p y = true → fails env (c y) = false) →
  p x = true → fails env (c x) = true →
  for_of (pre ++ x :: post) (λ x, when (p x) (await env (c x))) w
  = (Thrown (Rejected (c x)), perform_all env (guarded_calls p c pre) w).
Proof.
  revert w. induction pre as [|y pre IH]; intros w Hok Hp Hf.
  - simpl. rewrite Hp. simpl. by rewrite bind_await_fail.
  - unfold guarded_calls. simpl. destruct (p y) eqn:Hpy; simpl.
    + rewrite bind_await_ok by (apply Hok; [left|done]).
      apply IH; [|done..]. intros z Hz. apply Hok. by right.
    + rewrite bind_ret. apply IH; [|done..]. intros z Hz. apply Hok. by right.
Qed.
End Loops.

(** ** Overwrites after a run of deletions or of grants *)

Lemma perform_all_deletes env ch ids w :
  channels (perform_all env (permissionOverwrites_delete ch <$> ids) w)
  = alter (strip ids) ch (channels w).
Proof.
  revert w. induction ids as [|id ids IH]; intros w; simpl.
  - symmetry. by apply alter_id.
  - rewrite IH. simpl. apply alter_alter_eq.
Qed.

Lemma perform_all_edits env ch ids w :
  channels (perform_all env ((λ id, permissionOverwrites_edit ch id grant) <$> ids) w)
  = alter (grant_all ids) ch (channels w).
Proof.
  revert w. induction ids as [|id ids IH]; intros w; simpl.
  - symmetry. by apply alter_id.
  - rewrite IH. simpl. apply alter_alter_eq.
Qed.

Lemma strip_lookup ids c uid :
  Channel.permissionOverwrites (strip ids c) !! uid
  = if decide (uid ∈ ids) then None else Channel.permissionOverwrites c !! uid.
Proof.
  revert c. induction ids as [|id ids IH]; intros c.
  - rewrite decide_False; [done|]. apply not_elem_of_nil.
  - change (strip (id :: ids) c) with (strip ids (Channel.delete_overwrite id c)).
    rewrite IH. simpl. destruct (decide (uid = id)) as [->|Hne].
    + rewrite lookup_delete_eq. rewrite (decide_True (P := id ∈ id :: ids)) by left.
      by case_decide.
    + rewrite lookup_delete_ne by done.
      destruct (decide (uid ∈ ids)) as [Hin|Hin].
      * rewrite decide_True; [done|by right].
      * rewrite decide_False; [done|]. intros [?|?]%elem_of_cons; done.
Qed.

Lemma strip_frame ids c :
  Channel.guild (strip ids c) = Channel.guild c
  ∧ Channel.name (strip ids c) = Channel.name c
  ∧ Channel.type (strip ids c) = Channel.type c
  ∧ Channel.parent (strip ids c) = Channel.parent c.
Proof.
  revert c. induction ids as [|id ids IH]; intros c; [done|].
  simpl. destruct (IH (Channel.delete_overwrite id c)) as (-> & -> & -> & ->). done.
Qed.

Lemma land_lor_same x v : Z.land (Z.lor x v) v = v.
Proof.
  apply Z.bits_inj'. intros n _. rewrite Z.land_spec, Z.lor_spec.
  by destruct (Z.testbit x n), (Z.testbit v n).
Qed.

Lemma land_lor_keep x u v : Z.land x v = v → Z.land (Z.lor x u) v = v.
Proof.
  intros H. apply Z.bits_inj'. intros n _.
  apply (f_equal (λ z, Z.testbit z n)) in H. rewrite Z.land_spec in H.
  rewrite Z.land_spec, Z.lor_spec.
  by destruct (Z.testbit x n), (Z.testbit v n), (Z.testbit u n).
Qed.

(** [permissionOverwrites.edit(id, {ViewChannel: true, SendMessages: true})]
    leaves [id] able to view and send, whatever the overwrite was. *)
Lemma grant_grants o :
  Overwrite.grants_view_send (Overwrite.resolveOverwriteOptions grant o) = true.
Proof.
  unfold Overwrite.grants_view_send, Overwrite.resolveOverwriteOptions, grant,
    BitField.has, BitField.add. simpl.
  apply andb_true_intro. split; apply Z.eqb_eq.
  - apply land_lor_keep, land_lor_same.
  - apply land_lor_same.
Qed.

Lemma grant_all_keeps ids c uid o :
  Channel.permissionOverwrites c !! uid = Some o →
  Overwrite.grants_view_send o = true →
  ∃ o', Channel.permissionOverwrites (grant_all ids c) !! uid = Some o'
        ∧ Overwrite.grants_view_send o' = true.
Proof.
  revert c o. induction ids as [|id ids IH]; intros c o Hl Hg; simpl; [by eauto|].
  destruct (decide (id = uid)) as [->|Hne].
  - eapply IH; [simpl; apply lookup_insert_eq|apply grant_grants].
  - eapply IH; [simpl; by rewrite lookup_insert_ne|done].
Qed.

Lemma grant_all_lookup ids c uid :
  uid ∈ ids →
  ∃ o, Channel.permissionOverwrites (grant_all ids c) !! uid = Some o
       ∧ Overwrite.grants_view_send o = true.
Proof.
  revert c. induction ids as [|id ids IH]; intros c Hin; [by apply elem_of_nil in Hin|].
  apply elem_of_cons in Hin as [->|Hin]; simpl.
  - eapply grant_all_keeps; [simpl; apply lookup_insert_eq|apply grant_grants].
  - by apply IH.
Qed.

Lemma elem_of_select_members ch uid w :
  uid ∈ select_members ch w ↔ (ch, uid) ∈ ticket_members w.
Proof.
  unfold select_members. rewrite merge_sort_Permutation, list_elem_of_fmap. split.
  - intros ([c u] & -> & [Hc Hin]%list_elem_of_filter). simpl in Hc. by subst.
  - intros Hin. exists (ch, uid). split; [done|]. by apply list_elem_of_filter.
Qed.

#[local] Instance userId_le_total : Total userId_le.
Proof. intros s1 s2. apply String.leb_total. Qed.

(** The members of a channel come in the order of their ids, whatever the
    order in which the rows were inserted. *)
Lemma select_members_sorted ch w : Sorted userId_le (select_members ch w).
Proof. unfold select_members. apply (Sorted_merge_sort userId_le). Qed.

(** ** Proof steps for [handleSlashCommand] *)

Ltac enter :=
  unfold handleSlashCommand;
  cbn [Interaction.subcommand Interaction.channel Interaction.guild
       Interaction.member Interaction.user];
  rewrite bind_query.

Ltac step :=
  first [ rewrite bind_query | rewrite bind_run | rewrite bind_ret
        | rewrite bind_throw | rewrite bind_bind ].

Lemma is_Some_None_false : bool_decide (is_Some (@None Ticket.t)) = false.
Proof. apply bool_decide_eq_false. by intros [? ?]. Qed.

Lemma is_Some_Some_true (t : Ticket.t) : bool_decide (is_Some (Some t)) = true.
Proof. apply bool_decide_eq_true. by eexists. Qed.

(** ** [remove] *)

(** C10: for a staff caller, [remove] in a channel without a Ticket row skips
    the not-a-ticket guard and then reads [ownerId] of [undefined]: it throws
    a [TypeError], which is neither success nor [NotATicketChannel], and no
    staff call of [remove] ever ends in [NotATicketChannel]. *)
Theorem remove_by_staff_without_ticket_reads_undefined
    env ch g member user target w :
  isStaff_of (config w !! g) member = true →
  tickets w !! ch = None →
  let i := Interaction.Build (Remove target) ch g member user in
  handleSlashCommand env i w = (Thrown undefined_ownerId, w)
  ∧ undefined_ownerId ≠ NotATicketChannel
  ∧ ∀ w0, isStaff_of (config w0 !! g) member = true →
          (handleSlashCommand env i w0).1 ≠ Thrown NotATicketChannel.
Proof.
  intros Hs Ht i. split; [|split; [done|]].
  - subst i. enter. rewrite Hs. step. rewrite Ht, is_Some_None_false.
    cbn [negb andb when]. by repeat step.
  - intros w0 Hs0. subst i. enter. rewrite Hs0. step.
    rewrite andb_false_r. cbn [negb when]. repeat step.
    destruct (tickets w0 !! ch) as [t|]; [|done].
    cbn [ownerId_of]. step.
    destruct (bool_decide (User.id target = Ticket.ownerId t)); cbn [when].
    + by step.
    + step. unfold mbind, M_bind, await.
      destruct (fails env _); [done|]. unfold run.
      by destruct (fails env _).
Qed.

Lemma remove_by_staff_without_ticket_witness :
  handleSlashCommand Sample.calm
    (Sample.by_ Sample.S Sample.staff (Remove Sample.X) "lobby") Sample.world
  = (Thrown undefined_ownerId, Sample.world).
Proof.
  apply (remove_by_staff_without_ticket_reads_undefined
           Sample.calm "lobby" "g" Sample.staff Sample.S Sample.X Sample.world);
    reflexivity.
Defined.

(** C7, as amended: [remove] aimed at the ticket's owner always throws and
    changes nothing, so the owner's row and the owner's access stay; the
    error is [CannotRemoveOwner] when the caller is staff or the owner, and
    the owners-or-staff refusal otherwise. *)
Theorem remove_owner_always_refused env ch g member user target w t :
  tickets w !! ch = Some t →
  User.id target = Ticket.ownerId t →
  handleSlashCommand env (Interaction.Build (Remove target) ch g member user) w
  = (Thrown (if isStaff_of (config w !! g) member
                || bool_decide (Ticket.ownerId t = User.id user)
             then CannotRemoveOwner
             else Error "Only ticket owners or staff can remove users!"), w).
Proof.
  intros Ht Ho. enter. step. rewrite Ht, is_Some_Some_true. cbn [negb andb when].
  step. destruct (isStaff_of _ _); cbn [negb orb ownerId_of].
  - repeat step. rewrite bool_decide_eq_true_2 by done. cbn [when]. by step.
  - repeat step. destruct (decide (Ticket.ownerId t = User.id user)) as [He|Hne].
    + rewrite (bool_decide_eq_false_2 (_ ≠ _)) by (intros H; by apply H).
      rewrite (bool_decide_eq_true_2 (Ticket.ownerId t = _)) by done.
      cbn [when]. repeat step. rewrite bool_decide_eq_true_2 by done.
      cbn [when]. by step.
    + rewrite (bool_decide_eq_true_2 (_ ≠ _)) by done.
      rewrite (bool_decide_eq_false_2 (Ticket.ownerId t = _)) by done.
      cbn [when]. by repeat step.
Qed.

Lemma remove_owner_always_refused_witness :
  handleSlashCommand Sample.calm
    (Sample.by_ Sample.S Sample.staff (Remove Sample.U) "t1") Sample.world
  = (Thrown CannotRemoveOwner, Sample.world).
Proof.
  apply (remove_owner_always_refused Sample.calm "t1" "g" Sample.staff Sample.S
           Sample.U Sample.world Sample.ticket); reflexivity.
Defined.

(** C7, as stated, fails: [Y], neither staff nor owner, aims [remove] at the
    owner [U] of the ticket in [t1] and is refused as a non-owner, not with
    [CannotRemoveOwner]. *)
Lemma remove_owner_by_stranger_not_CannotRemoveOwner :
  let r := handleSlashCommand Sample.calm
             (Sample.by_ Sample.Y Sample.plain (Remove Sample.U) "t1") Sample.world in
  tickets Sample.world !! "t1" = Some Sample.ticket
  ∧ User.id Sample.U = Ticket.ownerId Sample.ticket
  ∧ r.1 = Thrown (Error "Only ticket owners or staff can remove users!")
  ∧ r.1 ≠ Thrown CannotRemoveOwner.
Proof. repeat split; [reflexivity..|discriminate]. Qed.

(** ** Staff-only commands *)

(** C8: a caller with the administrator permission but without the support
    role is refused both [open] and [delete]; the handler throws (the
    staff-only refusal when the ticket passes the lookup, the lookup's error
    otherwise) and changes nothing. *)
Theorem administrator_alone_cannot_reopen_or_delete env ch g member user w :
  isAdmin_of member = true →
  isStaff_of (config w !! g) member = false →
  handleSlashCommand env (Interaction.Build Open ch g member user) w
  = (Thrown (if bool_decide (is_Some (select_closed_ticket ch w))
             then Error "Only staff can reopen tickets!" else NotClosed), w)
  ∧ handleSlashCommand env (Interaction.Build Delete ch g member user) w
    = (Thrown (if bool_decide (is_Some (tickets w !! ch))
               then Error "Only staff can delete tickets!" else NotATicketChannel), w).
Proof.
  intros _ Hs. split; enter; rewrite Hs; step.
  - destruct (bool_decide (is_Some (select_closed_ticket ch w))); cbn [negb when];
      by repeat step.
  - destruct (bool_decide (is_Some (tickets w !! ch))); cbn [negb when];
      by repeat step.
Qed.

Lemma administrator_alone_cannot_reopen_or_delete_witness :
  handleSlashCommand Sample.calm
    (Sample.by_ Sample.A Sample.admin Open "t1") Sample.closed_world
  = (Thrown (Error "Only staff can reopen tickets!"), Sample.closed_world)
  ∧ handleSlashCommand Sample.calm
      (Sample.by_ Sample.A Sample.admin Delete "t1") Sample.closed_world
    = (Thrown (Error "Only staff can delete tickets!"), Sample.closed_world).
Proof.
  apply (administrator_alone_cannot_reopen_or_delete
           Sample.calm "t1" "g" Sample.admin Sample.A Sample.closed_world);
    reflexivity.
Defined.

(** ** [add] *)

(** C9: for a staff caller, [add] in a channel without a Ticket row is not
    refused as not-a-ticket-channel; once the permission edit goes through,
    the target can view and send and a [ticket_members] row for the channel
    is stored although no Ticket row exists, so [members_have_ticket] does
    not hold afterwards. *)
Theorem add_by_staff_without_ticket_orphans_member
    env ch g member user target w c :
  isStaff_of (config w !! g) member = true →
  tickets w !! ch = None →
  channels w !! ch = Some c →
  fails env (permissionOverwrites_edit ch (User.id target) grant) = false →
  let r := handleSlashCommand env (Interaction.Build (Add target) ch g member user) w in
  r.1 ≠ Thrown NotATicketChannel
  ∧ ((∀ m, fails env (reply m false) = false) → r.1 = Returned ())
  ∧ (ch, User.id target) ∈ ticket_members r.2
  ∧ tickets r.2 !! ch = None
  ∧ (∃ c' o, channels r.2 !! ch = Some c'
             ∧ Channel.permissionOverwrites c' !! User.id target = Some o
             ∧ Overwrite.grants_view_send o = true)
  ∧ ¬ members_have_ticket r.2.
Proof.
  intros Hs Ht Hc Hedit r.
  set (w1 := insert_or_ignore_member ch (User.id target)
               (perform env (permissionOverwrites_edit ch (User.id target) grant) w)).
  set (m := text ("✅ Added " +:+ User.mention target +:+ " to the ticket!")).
  assert (Hr : r = (if fails env (reply m false) then Thrown (Rejected (reply m false))
                    else Returned (),
                    if fails env (reply m false) then w1
                    else perform env (reply m false) w1)).
  { subst r. enter. rewrite Hs. step. rewrite andb_false_r. cbn [negb when].
    repeat step. rewrite bind_await_ok by done. step. fold w1 m.
    unfold await. by destruct (fails env (reply m false)). }
  assert (Hrow : (ch, User.id target) ∈ ticket_members w1).
  { subst w1. unfold insert_or_ignore_member. case_decide as Hin; [done|].
    simpl. apply elem_of_app. right. by left. }
  assert (Htk : tickets w1 !! ch = None).
  { subst w1. unfold insert_or_ignore_member. by case_decide. }
  assert (Hch : channels w1
                = alter (Channel.edit_overwrite (User.id target) grant) ch (channels w)).
  { subst w1. unfold insert_or_ignore_member. by case_decide. }
  assert (Hw2 : ticket_members r.2 = ticket_members w1 ∧ tickets r.2 = tickets w1
                ∧ channels r.2 = channels w1).
  { rewrite Hr. by destruct (fails env (reply m false)). }
  destruct Hw2 as (Hm2 & Ht2 & Hc2).
  split; [|split; [|split; [|split; [|split]]]].
  - rewrite Hr. by destruct (fails env (reply m false)).
  - intros Hok. rewrite Hr. by rewrite (Hok m).
  - by rewrite Hm2.
  - by rewrite Ht2.
  - rewrite Hc2, Hch. eexists _, _. split; [|split].
    + rewrite lookup_alter_eq, Hc. reflexivity.
    + simpl. apply lookup_insert_eq.
    + apply grant_grants.
  - intros Hinv. destruct (Hinv ch (User.id target)) as [t Hsome].
    + by rewrite Hm2.
    + rewrite Ht2, Htk in Hsome. done.
Qed.

Lemma add_by_staff_without_ticket_witness :
  let r := handleSlashCommand Sample.calm
             (Sample.by_ Sample.S Sample.staff (Add Sample.X) "lobby") Sample.world in
  r.1 ≠ Thrown NotATicketChannel
  ∧ ((∀ m, fails Sample.calm (reply m false) = false) → r.1 = Returned ())
  ∧ ("lobby", "X") ∈ ticket_members r.2
  ∧ tickets r.2 !! "lobby" = None
  ∧ (∃ c' o, channels r.2 !! "lobby" = Some c'
             ∧ Channel.permissionOverwrites c' !! "X" = Some o
             ∧ Overwrite.grants_view_send o = true)
  ∧ ¬ members_have_ticket r.2.
Proof.
  apply (add_by_staff_without_ticket_orphans_member
           Sample.calm "lobby" "g" Sample.staff Sample.S Sample.X Sample.world
           (Channel.Build "g" "lobby" GuildText None ∅));
    reflexivity.
Defined.

(** ** The log channel *)

Lemma send_to_log_target env cfg g m w :
  send_to_log env cfg g m w
  = match log_target cfg g w with
    | Some id => await env (send id m) w
    | None => (Returned (), w)
    end.
Proof.
  unfold send_to_log, log_target.
  destruct (truthy (cfg ≫= Config.logChannel)) as [id|]; [|done].
  rewrite bind_query. simpl. by destruct (cache g w !! id).
Qed.

Lemma cache_lookup g w id :
  cache g w !! id
  = c ← channels w !! id; if decide (Channel.guild c = g) then Some c else None.
Proof.
  unfold cache. rewrite map_lookup_filter.
  destruct (channels w !! id) as [c|]; simpl; [|done].
  destruct (decide (Channel.guild c = g)) as [Hg|Hg].
  - by rewrite option_guard_True.
  - by rewrite option_guard_False.
Qed.

(** Edits of one channel that keep its guild do not change which ids the
    cache resolves. *)
Lemma log_target_alter cfg g w w' f ch :
  channels w' = alter f ch (channels w) →
  (∀ c, Channel.guild (f c) = Channel.guild c) →
  log_target cfg g w' = log_target cfg g w.
Proof.
  intros Hc Hf. unfold log_target.
  destruct (truthy (cfg ≫= Config.logChannel)) as [id|]; [|done]. simpl.
  rewrite !cache_lookup, Hc, lookup_alter.
  case_decide as He; [subst id|done].
  destruct (channels w !! ch) as [c|]; simpl; [|done].
  rewrite Hf. by case_decide.
Qed.

(** ** [close] *)

Lemma before_strip_tickets env cfg ch name w :
  tickets (before_strip env cfg ch name w) = tickets (update_closed env ch w).
Proof. unfold before_strip. by destruct (truthy _). Qed.

Lemma before_strip_members env cfg ch name w :
  ticket_members (before_strip env cfg ch name w) = ticket_members w.
Proof. unfold before_strip. by destruct (truthy _). Qed.

Lemma before_strip_channels env cfg ch name w :
  channels (before_strip env cfg ch name w)
  = alter (reparent cfg (channels w)) ch (channels w).
Proof.
  unfold before_strip, reparent. destruct (truthy _); [done|].
  simpl. symmetry. by apply alter_id.
Qed.

Lemma reparent_frame cfg chs c :
  Channel.guild (reparent cfg chs c) = Channel.guild c
  ∧ Channel.name (reparent cfg chs c) = Channel.name c
  ∧ Channel.type (reparent cfg chs c) = Channel.type c
  ∧ Channel.parent (reparent cfg chs c)
    = match truthy (cfg ≫= Config.closedCategory) with
      | Some category => Some category
      | None => Channel.parent c
      end.
Proof. unfold reparent. by destruct (truthy _). Qed.

Lemma reparent_overwrites cfg w c :
  Channel.permissionOverwrites (reparent cfg (channels w) c)
  = overwrites_before_loop cfg w c.
Proof.
  unfold reparent, overwrites_before_loop, locked.
  destruct (truthy _) as [category|]; [|done]. simpl.
  destruct (channels w !! category) as [p|]; simpl; [|done]. by case_decide.
Qed.

Lemma before_strip_trace env cfg ch name w :
  trace (before_strip env cfg ch name w)
  = trace w ++ [deferReply false; createTranscript ch (transcript_options name)]
    ++ match truthy (cfg ≫= Config.closedCategory) with
       | Some category => [setParent ch category]
       | None => []
       end.
Proof.
  unfold before_strip. destruct (truthy _); simpl; by rewrite <- !app_assoc.
Qed.

(** [close] up to the loop: the handler has deferred, exported, written
    [status = 'closed'] and re-parented, and goes on with the loop, the log
    message and the final reply from [before_strip]. *)
Lemma close_reaches_loop env ch g member user w t c :
  let cfg := config w !! g in
  let isStaff := isStaff_of cfg member in
  let name := Channel.name c in
  tickets w !! ch = Some t →
  channels w !! ch = Some c →
  isStaff = true ∨ Ticket.ownerId t = User.id user →
  fails env (deferReply false) = false →
  fails env (createTranscript ch (transcript_options name)) = false →
  (∀ category, truthy (cfg ≫= Config.closedCategory) = Some category →
               fails env (setParent ch category) = false) →
  handleSlashCommand env (Interaction.Build Close ch g member user) w
  = (for_of (select_members ch w) (λ userId,
       when (stripped_on_close isStaff (Ticket.ownerId t) (User.id user) userId)
            (await env (permissionOverwrites_delete ch userId)));;
     name' ← query (channel_name ch);
     send_to_log env cfg g
       (close_message name' (User.tag user) (Html ch (transcript_options name)));;
     await env (editReply (text "✅ Ticket closed! The transcript has been saved.")))
    (before_strip env cfg ch name w).
Proof.
  intros cfg isStaff name Ht Hc Hauth Hdefer Hexport Hparent.
  enter. step. rewrite Ht. fold cfg isStaff.
  assert (negb isStaff && bool_decide (Ticket.ownerId t ≠ User.id user) = false) as ->.
  { destruct Hauth as [->| ->]; [done|].
    rewrite bool_decide_eq_false_2 by (intros H; by apply H). apply andb_false_r. }
  cbn [when]. step. rewrite bind_await_ok by done.
  unfold generateTranscript. repeat step.
  assert (channel_name ch (perform env (deferReply false) w) = name) as ->.
  { unfold channel_name. simpl. by rewrite Hc. }
  rewrite bind_await_ok by done. repeat step.
  unfold before_strip. fold (transcript_options name).
  destruct (truthy (cfg ≫= Config.closedCategory)) as [category|] eqn:Hcat.
  - rewrite bind_await_ok by (by apply Hparent). step. reflexivity.
  - repeat step. reflexivity.
Qed.

(** [close] when no call rejects: the final world. *)
Lemma close_runs env ch g member user w t c :
  let cfg := config w !! g in
  let isStaff := isStaff_of cfg member in
  let name := Channel.name c in
  let ids := List.filter (stripped_on_close isStaff (Ticket.ownerId t) (User.id user))
               (select_members ch w) in
  let w5 := perform_all env (permissionOverwrites_delete ch <$> ids)
              (before_strip env cfg ch name w) in
  let m := close_message name (User.tag user) (Html ch (transcript_options name)) in
  tickets w !! ch = Some t →
  channels w !! ch = Some c →
  isStaff = true ∨ Ticket.ownerId t = User.id user →
  (∀ call, fails env call = false) →
  handleSlashCommand env (Interaction.Build Close ch g member user) w
  = (Returned (),
     perform env (editReply (text "✅ Ticket closed! The transcript has been saved."))
       (match log_target cfg g w with
        | Some id => perform env (send id m) w5
        | None => w5
        end))
  ∧ channels w5 = alter (strip ids ∘ reparent cfg (channels w)) ch (channels w).
Proof.
  intros cfg isStaff name ids w5 m Ht Hc Hauth Hok.
  assert (Hch : channels w5
                = alter (strip ids ∘ reparent cfg (channels w)) ch (channels w)).
  { subst w5. rewrite perform_all_deletes, before_strip_channels.
    apply alter_alter_eq. }
  split; [|done].
  rewrite (close_reaches_loop env ch g member user w t c) by auto.
  fold cfg isStaff name.
  erewrite bind_returned by (apply for_of_all_ok; auto).
  unfold guarded_calls. fold ids w5. step.
  assert (channel_name ch w5 = name) as ->.
  { unfold channel_name. rewrite Hch, lookup_alter_eq, Hc. simpl.
    destruct (strip_frame ids (reparent cfg (channels w) c)) as (_ & -> & _).
    apply reparent_frame. }
  fold m.
  assert (log_target cfg g w5 = log_target cfg g w) as Hlog.
  { apply (log_target_alter _ _ _ _ _ _ Hch). intros c0. simpl.
    destruct (strip_frame ids (reparent cfg (channels w) c0)) as (-> & _).
    apply reparent_frame. }
  erewrite bind_returned; [by apply await_ok|].
  rewrite send_to_log_target, Hlog.
  destruct (log_target cfg g w); [by apply await_ok|done].
Qed.

Lemma elem_of_strip_ids isStaff owner caller ch w uid :
  uid ∈ List.filter (stripped_on_close isStaff owner caller) (select_members ch w)
  ↔ (ch, uid) ∈ ticket_members w ∧ uid ≠ owner ∧ ¬ (isStaff = true ∧ uid = caller).
Proof.
  rewrite list_elem_of_In, filter_In, <- list_elem_of_In, elem_of_select_members.
  unfold stripped_on_close.
  rewrite andb_true_iff, bool_decide_eq_true, negb_true_iff, andb_false_iff,
    bool_decide_eq_false.
  destruct isStaff; intuition congruence.
Qed.

(** Closes a goal from a membership [H] of a call in a literal list of
    calls of other kinds. *)
Ltac other_calls H :=
  repeat (apply elem_of_cons in H as [H|H]; [discriminate H|]);
  by apply elem_of_nil in H.

(** C1, as amended: [close] of an open ticket by its owner or by staff, when
    no call rejects, returns having exported the full-history transcript
    ([limit: -1]), set the row to [closed] with [closedAt] the current time,
    moved the channel under the configured closed category (if any), left
    every stored member other than the owner and the closing staff member
    without an overwrite, issued no strip for the owner or that staff
    member (whose overwrites are as they were when the channel is not
    moved), and without deleting the channel.  The transcript is posted to
    the configured log channel when the guild's cache resolves it: the
    message carries the exported buffer as its one file, named after the
    channel.  When the cache does not resolve the configured id, nothing is
    posted. *)
Theorem close_by_authorized_requester env ch g member user w t c :
  let cfg := config w !! g in
  let isStaff := isStaff_of cfg member in
  let name := Channel.name c in
  let options := {| limit := -1; returnType := "buffer";
                    filename := name +:+ "-transcript.html"; saveImages := true |} in
  tickets w !! ch = Some t →
  Ticket.status t = "open" →
  channels w !! ch = Some c →
  isStaff = true ∨ Ticket.ownerId t = User.id user →
  (∀ call, fails env call = false) →
  ∃ w' c',
    handleSlashCommand env (Interaction.Build Close ch g member user) w = (Returned (), w')
    ∧ createTranscript ch options ∈ trace w'
    ∧ tickets w' !! ch
      = Some (Ticket.Build (Ticket.guildId t) (Ticket.ownerId t) (Ticket.panelName t)
                "closed" (Ticket.createdAt t) (Some (now env)))
    ∧ channels w' !! ch = Some c'
    ∧ (∀ reason, channel_delete ch reason ∈ trace w' → channel_delete ch reason ∈ trace w)
    ∧ Channel.parent c'
      = match truthy (cfg ≫= Config.closedCategory) with
        | Some category => Some category
        | None => Channel.parent c
        end
    ∧ (∀ category, truthy (cfg ≫= Config.closedCategory) = Some category →
                   setParent ch category ∈ trace w')
    ∧ (∀ uid, (ch, uid) ∈ ticket_members w → uid ≠ Ticket.ownerId t →
              ¬ (isStaff = true ∧ uid = User.id user) →
              Channel.permissionOverwrites c' !! uid = None
              ∧ permissionOverwrites_delete ch uid ∈ trace w')
    ∧ (∀ uid, uid = Ticket.ownerId t ∨ (isStaff = true ∧ uid = User.id user) →
              (permissionOverwrites_delete ch uid ∈ trace w' →
               permissionOverwrites_delete ch uid ∈ trace w)
              ∧ (truthy (cfg ≫= Config.closedCategory) = None →
                 Channel.permissionOverwrites c' !! uid
                 = Channel.permissionOverwrites c !! uid))
    ∧ (∀ id, truthy (cfg ≫= Config.logChannel) = Some id →
             if bool_decide (is_Some (cache g w !! id))
             then send id
                    {| content := "📝 Transcript for ticket " +:+ name +:+ " (Closed by "
                                  +:+ User.tag user +:+ ")";
                       embeds := []; components := [];
                       files := [ {| attachment := Html ch options;
                                     attachment_name := name +:+ "-transcript.html" |} ] |}
                  ∈ trace w'
             else ∀ id' m, send id' m ∈ trace w' → send id' m ∈ trace w)
    ∧ (truthy (cfg ≫= Config.logChannel) = None →
       ∀ id' m, send id' m ∈ trace w' → send id' m ∈ trace w)
    ∧ ticket_members w' = ticket_members w.
Proof.
  intros cfg isStaff name options Ht _ Hc Hauth Hok.
  destruct (close_runs env ch g member user w t c Ht Hc Hauth Hok) as [Hrun Hch].
  change options with (transcript_options name) in *. clear options.
  fold cfg isStaff name in Hrun, Hch.
  set (ids := List.filter _ _) in Hrun, Hch.
  set (w5 := perform_all env _ _) in Hrun, Hch.
  set (m := close_message _ _ _) in Hrun.
  set (logged := match log_target cfg g w with Some id => [send id m] | None => [] end).
  set (w' := perform env _ _) in Hrun.
  assert (Htr5 : trace w5 = trace (before_strip env cfg ch name w)
                            ++ (permissionOverwrites_delete ch <$> ids))
    by apply perform_all_trace.
  assert (Htr : trace w' = trace w
      ++ [deferReply false; createTranscript ch (transcript_options name)]
      ++ match truthy (cfg ≫= Config.closedCategory) with
         | Some category => [setParent ch category]
         | None => []
         end
      ++ (permissionOverwrites_delete ch <$> ids)
      ++ logged
      ++ [editReply (text "✅ Ticket closed! The transcript has been saved.")]).
  { subst w' logged.
    destruct (log_target cfg g w); simpl;
      rewrite Htr5, before_strip_trace; repeat rewrite <- app_assoc; reflexivity. }
  assert (Hdb : tickets w' = tickets (update_closed env ch w)
                ∧ ticket_members w' = ticket_members w
                ∧ channels w' = channels w5).
  { destruct (perform_all_db env (permissionOverwrites_delete ch <$> ids)
                (before_strip env cfg ch name w)) as (_ & Ht5 & Hm5 & _).
    fold w5 in Ht5, Hm5. rewrite before_strip_tickets in Ht5.
    rewrite before_strip_members in Hm5.
    subst w'. by destruct (log_target cfg g w). }
  destruct Hdb as (Htk & Hmem & Hch').
  assert (Hsends : log_target cfg g w = None →
                   ∀ id' m', send id' m' ∈ trace w' → send id' m' ∈ trace w).
  { intros Hnone id' m'. rewrite Htr, !elem_of_app.
    intros [?|[Hin|[Hin|[Hin|[Hin|Hin]]]]]; [done|exfalso..].
    - other_calls Hin.
    - destruct (truthy _); other_calls Hin.
    - apply list_elem_of_fmap in Hin as (? & ? & ?). done.
    - subst logged. rewrite Hnone in Hin. by apply elem_of_nil in Hin.
    - other_calls Hin. }
  exists w', (strip ids (reparent cfg (channels w) c)).
  split; [done|]. split.
  { rewrite Htr. apply elem_of_app. right. right. left. }
  split.
  { rewrite Htk. simpl. by rewrite lookup_alter_eq, Ht. }
  split.
  { rewrite Hch', Hch, lookup_alter_eq, Hc. done. }
  split.
  { intros reason. rewrite Htr, !elem_of_app.
    intros [?|[Hin|[Hin|[Hin|[Hin|Hin]]]]]; [done|exfalso..].
    - other_calls Hin.
    - destruct (truthy _); other_calls Hin.
    - apply list_elem_of_fmap in Hin as (? & ? & ?). done.
    - subst logged. destruct (log_target _ _ _); other_calls Hin.
    - other_calls Hin. }
  split.
  { destruct (strip_frame ids (reparent cfg (channels w) c)) as (_ & _ & _ & ->).
    apply reparent_frame. }
  split.
  { intros category Hcat. rewrite Htr, Hcat, !elem_of_app. do 2 right. left. by left. }
  split.
  { intros uid Hin Hne Hnot.
    assert (uid ∈ ids) as Hids by (by apply elem_of_strip_ids).
    split.
    - rewrite strip_lookup. by rewrite decide_True.
    - rewrite Htr, !elem_of_app. do 3 right. left.
      apply list_elem_of_fmap. by exists uid. }
  split.
  { intros uid Hkeep.
    assert (uid ∉ ids) as Hids.
    { intros (_ & Hne & Hnot)%elem_of_strip_ids. destruct Hkeep; done. }
    split.
    - rewrite Htr, !elem_of_app.
      intros [?|[Hin|[Hin|[Hin|[Hin|Hin]]]]]; [done|exfalso..].
      + other_calls Hin.
      + destruct (truthy _); other_calls Hin.
      + apply list_elem_of_fmap in Hin as (uid' & [= ->] & ?). done.
      + subst logged. destruct (log_target _ _ _); other_calls Hin.
      + other_calls Hin.
    - intros Hcat. rewrite strip_lookup, decide_False by done.
      unfold reparent. by rewrite Hcat. }
  split; [|split; [|done]].
  - intros id Hid. case_bool_decide as Hres.
    + assert (log_target cfg g w = Some id) as Hlog.
      { unfold log_target. rewrite Hid. simpl. by destruct Hres as [? ->]. }
      rewrite Htr, !elem_of_app. do 4 right. left.
      subst logged. rewrite Hlog. by left.
    + apply Hsends. unfold log_target. rewrite Hid. simpl.
      destruct (cache g w !! id); [|done]. by destruct Hres.
  - intros Hnone. apply Hsends. unfold log_target. by rewrite Hnone.
Qed.

Lemma close_by_authorized_requester_witness :
  ∃ w', handleSlashCommand Sample.calm
          (Sample.by_ Sample.S Sample.staff Close "t1") Sample.world = (Returned (), w')
        ∧ tickets w' !! "t1"
          = Some (Ticket.Build "g" "U" "support" "closed" 100 (Some 200%Z)).
Proof.
  destruct (close_by_authorized_requester Sample.calm "t1" "g" Sample.staff Sample.S
              Sample.world Sample.ticket Sample.t1)
    as (w' & c' & Hrun & _ & Htk & _).
  - reflexivity.
  - reflexivity.
  - reflexivity.
  - left. reflexivity.
  - intros call. reflexivity.
  - exists w'. split; [exact Hrun | exact Htk].
Defined.

(** C1, as stated, fails twice on one run.  Staff [S] closes the open ticket
    of [U] in a guild whose configured log channel [L] is no longer among
    its channels, and no call rejects.  The command returns, but nothing is
    posted, although a log channel is configured; and the owner [U], who
    could view and send before, has no overwrite left: the move under [C]
    locked the channel to the overwrites of [C], which has none. *)
Lemma close_skips_unresolved_log_and_locks_owner_out :
  let w := Sample.world_without_log in
  let r := handleSlashCommand Sample.calm (Sample.by_ Sample.S Sample.staff Close "t1") w in
  (Ticket.status <$> tickets w !! "t1") = Some "open"
  ∧ (config w !! "g" ≫= Config.logChannel) = Some "L"
  ∧ ((channels w !! "t1") ≫= (λ c, Channel.permissionOverwrites c !! "U"))
    = Some Sample.allowed
  ∧ Overwrite.grants_view_send Sample.allowed = true
  ∧ r.1 = Returned ()
  ∧ trace r.2
    = [deferReply false;
       createTranscript "t1" (transcript_options "ticket-u");
       setParent "t1" "C";
       permissionOverwrites_delete "t1" "X";
       permissionOverwrites_delete "t1" "Y";
       editReply (text "✅ Ticket closed! The transcript has been saved.")]
  ∧ ((channels r.2 !! "t1") ≫= (λ c, Channel.permissionOverwrites c !! "U")) = None.
Proof. repeat split; reflexivity. Qed.

(** ** [open] *)

Lemma filter_all {A} (l : list A) : List.filter (λ _, true) l = l.
Proof. induction l as [|x l IH]; simpl; by rewrite ?IH. Qed.

Lemma select_closed_ticket_Some ch w t :
  tickets w !! ch = Some t → Ticket.status t = "closed" →
  select_closed_ticket ch w = Some t.
Proof.
  intros Ht Hs. unfold select_closed_ticket. rewrite Ht. simpl.
  by rewrite decide_True.
Qed.

Lemma select_closed_ticket_None ch w :
  (∀ t, tickets w !! ch = Some t → Ticket.status t ≠ "closed") →
  select_closed_ticket ch w = None.
Proof.
  intros H. unfold select_closed_ticket.
  destruct (tickets w !! ch) as [t|] eqn:Ht; simpl; [|done].
  rewrite decide_False; [done|]. by apply H.
Qed.

(** C2: [open] by a staff caller on a ticket whose status is [closed], when
    no call rejects, gives every stored member of the ticket view and send
    on the channel, sets the status to [open] and keeps [closedAt] as it
    was; on a channel whose ticket is missing or not closed, [open] throws
    and changes nothing. *)
Theorem reopen_by_staff env ch g member user w :
  (∀ t c,
     tickets w !! ch = Some t →
     Ticket.status t = "closed" →
     channels w !! ch = Some c →
     isStaff_of (config w !! g) member = true →
     (∀ call, fails env call = false) →
     ∃ w' c',
       handleSlashCommand env (Interaction.Build Open ch g member user) w
       = (Returned (), w')
       ∧ tickets w' !! ch
         = Some (Ticket.Build (Ticket.guildId t) (Ticket.ownerId t) (Ticket.panelName t)
                   "open" (Ticket.createdAt t) (Ticket.closedAt t))
       ∧ channels w' !! ch = Some c'
       ∧ (∀ uid, (ch, uid) ∈ ticket_members w →
                 permissionOverwrites_edit ch uid grant ∈ trace w'
                 ∧ ∃ o, Channel.permissionOverwrites c' !! uid = Some o
                        ∧ Overwrite.grants_view_send o = true)
       ∧ ticket_members w' = ticket_members w)
  ∧ ((∀ t, tickets w !! ch = Some t → Ticket.status t ≠ "closed") →
     handleSlashCommand env (Interaction.Build Open ch g member user) w
     = (Thrown NotClosed, w)).
Proof.
  split.
  - intros t c Ht Hst Hc Hs Hok.
    set (ids := select_members ch w).
    set (calls := (λ id, permissionOverwrites_edit ch id grant) <$> ids).
    set (w1 := perform_all env calls w).
    set (w' := perform env
                 (reply (text "✅ Ticket reopened! All original members have been readded.")
                        false)
                 (update_open ch w1)).
    assert (Hrun : handleSlashCommand env (Interaction.Build Open ch g member user) w
                   = (Returned (), w')).
    { enter. rewrite Hs. step. rewrite (select_closed_ticket_Some ch w t) by done.
      rewrite is_Some_Some_true. cbn [negb when]. repeat step. fold ids.
      erewrite bind_returned; cycle 1.
      { pose proof (for_of_all_ok env (λ _, true)
                      (λ id, permissionOverwrites_edit ch id grant) ids w) as Hloop.
        unfold guarded_calls in Hloop. rewrite filter_all in Hloop.
        apply Hloop. auto. }
      fold calls w1. step. by apply await_ok. }
    destruct (perform_all_db env calls w) as (_ & Htk1 & Hm1 & _). fold w1 in Htk1, Hm1.
    exists w', (grant_all ids c). split; [done|]. split; [|split; [|split]].
    + subst w'. simpl. by rewrite lookup_alter_eq, Htk1, Ht.
    + subst w' w1 calls. simpl. by rewrite perform_all_edits, lookup_alter_eq, Hc.
    + intros uid Hin. apply elem_of_select_members in Hin. fold ids in Hin. split.
      * subst w' w1. simpl. rewrite perform_all_trace.
        apply elem_of_app. left. apply elem_of_app. right.
        subst calls. apply list_elem_of_fmap. by exists uid.
      * by apply grant_all_lookup.
    + subst w'. simpl. by rewrite Hm1.
  - intros Hnot. enter. step. rewrite select_closed_ticket_None by done.
    rewrite is_Some_None_false. cbn [negb when]. by step.
Qed.

Lemma reopen_by_staff_witness :
  (∃ w', handleSlashCommand Sample.calm
           (Sample.by_ Sample.S Sample.staff Open "t1") Sample.closed_world
         = (Returned (), w')
         ∧ tickets w' !! "t1"
           = Some (Ticket.Build "g" "U" "support" "open" 100 (Some 150%Z)))
  ∧ handleSlashCommand Sample.calm
      (Sample.by_ Sample.S Sample.staff Open "t1") Sample.world
    = (Thrown NotClosed, Sample.world).
Proof.
  split.
  - destruct (proj1 (reopen_by_staff Sample.calm "t1" "g" Sample.staff Sample.S
                       Sample.closed_world)
                (Ticket.Build "g" "U" "support" "closed" 100 (Some 150%Z)) Sample.t1)
      as (w' & c' & Hrun & Htk & _).
    + reflexivity.
    + reflexivity.
    + reflexivity.
    + reflexivity.
    + intros call. reflexivity.
    + exists w'. split; [exact Hrun | exact Htk].
  - apply (proj2 (reopen_by_staff Sample.calm "t1" "g" Sample.staff Sample.S
                    Sample.world)).
    intros t Ht. vm_compute in Ht. injection Ht as <-. discriminate.
Defined.

(** ** [createTicketChannel] *)

Lemma cache_find_None g p w :
  cache_find g p w = None
  ↔ ∀ id c, channels w !! id = Some c → Channel.guild c = g → p c = false.
Proof.
  unfold cache_find. split.
  - intros Hfind id c Hc Hg.
    destruct (List.find _ _) as [kv|] eqn:Hf; [done|].
    apply (find_none _ _ Hf (id, c)). apply list_elem_of_In, elem_of_map_to_list.
    unfold cache. by apply map_lookup_filter_Some.
  - intros Hall. destruct (List.find _ _) as [[id c]|] eqn:Hf; [|done].
    apply find_some in Hf as [Hin Hp]. exfalso.
    apply list_elem_of_In, elem_of_map_to_list in Hin.
    unfold cache in Hin. apply map_lookup_filter_Some in Hin as [Hc Hg].
    simpl in Hp, Hg. rewrite (Hall id c Hc Hg) in Hp. done.
Qed.

Lemma cache_find_Some g p w id :
  cache_find g p w = Some id →
  ∃ c, channels w !! id = Some c ∧ Channel.guild c = g ∧ p c = true.
Proof.
  unfold cache_find. destruct (List.find _ _) as [[id' c]|] eqn:Hf; [|done].
  intros [= <-]. apply find_some in Hf as [Hin Hp].
  apply list_elem_of_In, elem_of_map_to_list in Hin.
  unfold cache in Hin. apply map_lookup_filter_Some in Hin as [Hc Hg]. eauto.
Qed.

(** C3: the three failures of [createTicketChannel] leave the world as it
    was, so no Ticket row and no TicketMember row is written (and, when the
    guild is not set up, no channel is made): a guild without a truthy
    support role gives [NotConfigured]; a text channel of the guild named
    [ticket-] followed by the user name as [toLowerCase] gives it, gives
    [DuplicateTicket]; a rejected [guild.channels.create] gives that
    rejection.  A run that did change either table made the channel
    first. *)
Theorem create_failure_writes_no_row env g user panel w :
  let r := createTicketChannel env g user panel w in
  let supportRole := truthy (config w !! g ≫= Config.supportRole) in
  (supportRole = None → r = (Thrown NotConfigured, w))
  ∧ (∀ role id c,
       supportRole = Some role →
       channels w !! id = Some c → Channel.guild c = g →
       Channel.name c = ticket_name env user → Channel.type c = GuildText →
       ∃ existing, r = (Thrown (DuplicateTicket existing), w))
  ∧ (∀ role,
       supportRole = Some role →
       (∀ id c, channels w !! id = Some c → Channel.guild c = g →
                same_named env user c = false) →
       fails env (create_call env g user role) = true →
       r = (Thrown (Rejected (create_call env g user role)), w))
  ∧ (∀ e, r.1 = Thrown e →
          e = NotConfigured ∨ (∃ existing, e = DuplicateTicket existing)
          ∨ (∃ call, e = Rejected call) →
          r.2 = w)
  ∧ (tickets r.2 ≠ tickets w ∨ ticket_members r.2 ≠ ticket_members w →
     ∃ role, supportRole = Some role
             ∧ fails env (create_call env g user role) = false
             ∧ create_call env g user role ∈ trace r.2
             ∧ is_Some (channels r.2 !! newId env)).
Proof.
  intros r supportRole. subst r. unfold createTicketChannel.
  rewrite bind_query. fold supportRole. fold (ticket_name env user) (same_named env user).
  split; [|split; [|split; [|split]]].
  - intros ->. done.
  - intros role id c -> Hc Hg Hn Ht. rewrite bind_query.
    destruct (cache_find g (same_named env user) w) as [existing|] eqn:Hf; [by eexists|].
    exfalso. pose proof (proj1 (cache_find_None _ _ _) Hf id c Hc Hg) as Hp.
    unfold same_named in Hp. by rewrite !bool_decide_eq_true_2 in Hp.
  - intros role -> Hnone Hfail. rewrite bind_query.
    rewrite (proj2 (cache_find_None _ _ _) Hnone).
    fold (create_call env g user role). by rewrite bind_await_fail.
  - intros e. destruct supportRole as [role|]; [|done].
    rewrite bind_query. destruct (cache_find g (same_named env user) w); [done|].
    fold (create_call env g user role).
    destruct (fails env (create_call env g user role)) eqn:Hfail.
    { by rewrite bind_await_fail. }
    rewrite bind_await_ok by done. unfold mbind, M_bind, insert_ticket.
    destruct (tickets _ !! newId env).
    { simpl. intros [= <-] [?|[[? ?]|[? ?]]]; discriminate. }
    unfold insert_member. case_decide; simpl; [|done].
    intros [= <-] [?|[[? ?]|[? ?]]]; discriminate.
  - destruct supportRole as [role|]; [|intros [H|H]; by destruct H].
    rewrite bind_query.
    destruct (cache_find g (same_named env user) w); [intros [H|H]; by destruct H|].
    fold (create_call env g user role).
    destruct (fails env (create_call env g user role)) eqn:Hfail.
    { rewrite bind_await_fail by done. intros [H|H]; by destruct H. }
    rewrite bind_await_ok by done. intros _. exists role.
    split; [done|]. split; [done|].
    set (w1 := perform env (create_call env g user role) w).
    assert (create_call env g user role ∈ trace w1 ∧ is_Some (channels w1 !! newId env))
      as [Htr Hch].
    { subst w1. simpl. split; [apply elem_of_app; right; left|].
      rewrite lookup_insert_eq. by eexists. }
    unfold mbind, M_bind, insert_ticket.
    destruct (tickets w1 !! newId env); [done|].
    unfold insert_member. case_decide; done.
Qed.

Lemma create_failure_writes_no_row_witness :
  createTicketChannel Sample.calm "h" Sample.X "support" Sample.world
  = (Thrown NotConfigured, Sample.world)
  ∧ (∃ existing, createTicketChannel Sample.calm "g" Sample.U "support" Sample.world
                 = (Thrown (DuplicateTicket existing), Sample.world))
  ∧ createTicketChannel (Sample.failing (create_call Sample.calm "g" Sample.X "staff"))
      "g" Sample.X "support" Sample.world
    = (Thrown (Rejected (create_call Sample.calm "g" Sample.X "staff")), Sample.world).
Proof.
  split; [|split].
  - apply (create_failure_writes_no_row Sample.calm "h" Sample.X "support" Sample.world).
    reflexivity.
  - apply (create_failure_writes_no_row Sample.calm "g" Sample.U "support" Sample.world)
      with (role := "staff") (id := "t1") (c := Sample.t1); reflexivity.
  - apply (create_failure_writes_no_row
             (Sample.failing (create_call Sample.calm "g" Sample.X "staff")) "g" Sample.X
             "support" Sample.world); [reflexivity| |reflexivity].
    apply cache_find_None. reflexivity.
Defined.

(** ** Rejections during [close] *)

Lemma keeps_tickets_ret {A} (a : A) : keeps_tickets (mret a).
Proof. by intros w. Qed.

Lemma keeps_tickets_query {A} (f : World → A) : keeps_tickets (query f).
Proof. by intros w. Qed.

Lemma keeps_tickets_await env c : keeps_tickets (await env c).
Proof. intros w. unfold await. by destruct (fails env c). Qed.

Lemma keeps_tickets_bind {A B} (m : M A) (k : A → M B) :
  keeps_tickets m → (∀ a, keeps_tickets (k a)) → keeps_tickets (m ≫= k).
Proof.
  intros Hm Hk w. unfold mbind, M_bind. specialize (Hm w).
  destruct (m w) as [[a|e] w1]; simpl in *; [|done]. by rewrite Hk.
Qed.

Lemma keeps_tickets_when b (m : M unit) : keeps_tickets m → keeps_tickets (when b m).
Proof. intros Hm. destruct b; [done|apply keeps_tickets_ret]. Qed.

Lemma keeps_tickets_for_of {A} (l : list A) (body : A → M unit) :
  (∀ x, keeps_tickets (body x)) → keeps_tickets (for_of l body).
Proof.
  intros Hb. induction l as [|x l IH]; [apply keeps_tickets_ret|].
  simpl. by apply keeps_tickets_bind.
Qed.

Lemma keeps_tickets_send_to_log env cfg g m : keeps_tickets (send_to_log env cfg g m).
Proof.
  unfold send_to_log. destruct (truthy _); [|apply keeps_tickets_ret].
  apply keeps_tickets_bind; [apply keeps_tickets_query|].
  intros [?|]; [apply keeps_tickets_await|apply keeps_tickets_ret].
Qed.

Create HintDb keeps.
#[local] Hint Resolve keeps_tickets_ret keeps_tickets_query keeps_tickets_await
  keeps_tickets_when keeps_tickets_for_of keeps_tickets_send_to_log : keeps.

(** C4, as amended: in [close], the rejection of one member's
    [permissionOverwrites.delete] ends the loop and the command: the members
    before it in the loop (the stored members come in the order of their
    ids) are stripped, no strip is issued for the ones after it, and every
    overwrite but those of the members before it is what it was when the
    loop began, that is, after the move under the closed category; neither
    the log message nor the final reply is sent, and the rejection is
    thrown.  The
    row update made before the loop stays: whatever rejects after the
    export, the ticket is [closed] with [closedAt] the current time. *)
Theorem close_strip_rejection_ends_loop env ch g member user w t c :
  let cfg := config w !! g in
  let isStaff := isStaff_of cfg member in
  let name := Channel.name c in
  let stripped := stripped_on_close isStaff (Ticket.ownerId t) (User.id user) in
  let r := handleSlashCommand env (Interaction.Build Close ch g member user) w in
  let closed_row := Ticket.Build (Ticket.guildId t) (Ticket.ownerId t) (Ticket.panelName t)
                      "closed" (Ticket.createdAt t) (Some (now env)) in
  tickets w !! ch = Some t →
  channels w !! ch = Some c →
  isStaff = true ∨ Ticket.ownerId t = User.id user →
  fails env (deferReply false) = false →
  fails env (createTranscript ch (transcript_options name)) = false →
  tickets r.2 !! ch = Some closed_row
  ∧ ∀ pre x post,
      select_members ch w = pre ++ x :: post →
      (∀ category, truthy (cfg ≫= Config.closedCategory) = Some category →
                   fails env (setParent ch category) = false) →
      (∀ y, y ∈ pre → stripped y = true →
            fails env (permissionOverwrites_delete ch y) = false) →
      stripped x = true →
      fails env (permissionOverwrites_delete ch x) = true →
      r.1 = Thrown (Rejected (permissionOverwrites_delete ch x))
      ∧ trace r.2
        = trace w ++ [deferReply false; createTranscript ch (transcript_options name)]
          ++ match truthy (cfg ≫= Config.closedCategory) with
             | Some category => [setParent ch category]
             | None => []
             end
          ++ (permissionOverwrites_delete ch <$> List.filter stripped pre)
      ∧ ∃ c', channels r.2 !! ch = Some c'
              ∧ (∀ y, y ∈ pre → stripped y = true →
                      Channel.permissionOverwrites c' !! y = None)
              ∧ (∀ y, y ∉ pre →
                      Channel.permissionOverwrites c' !! y
                      = overwrites_before_loop cfg w c !! y).
Proof.
  intros cfg isStaff name stripped r closed_row Ht Hc Hauth Hdefer Hexport. split.
  - subst r. enter. step. rewrite Ht. fold cfg isStaff.
    assert (negb isStaff && bool_decide (Ticket.ownerId t ≠ User.id user) = false) as ->.
    { destruct Hauth as [->| ->]; [done|].
      rewrite bool_decide_eq_false_2 by (intros H; by apply H). apply andb_false_r. }
    cbn [when]. step. rewrite bind_await_ok by done.
    unfold generateTranscript. repeat step.
    assert (channel_name ch (perform env (deferReply false) w) = name) as ->.
    { unfold channel_name. simpl. by rewrite Hc. }
    fold (transcript_options name). rewrite bind_await_ok by done. repeat step.
    match goal with |- tickets (?m ?w0).2 !! _ = _ =>
      assert (keeps_tickets m) as ->
    end.
    { repeat (apply keeps_tickets_bind; [|intros ?]); auto with keeps.
      destruct (truthy _); auto with keeps. }
    simpl. by rewrite lookup_alter_eq, Ht.
  - intros pre x post Hmem Hparent Hpre Hx Hfail.
    set (ids := List.filter stripped pre).
    set (w4 := before_strip env cfg ch name w).
    assert (Hr : r = (Thrown (Rejected (permissionOverwrites_delete ch x)),
                      perform_all env (permissionOverwrites_delete ch <$> ids) w4)).
    { subst r. rewrite (close_reaches_loop env ch g member user w t c) by auto.
      fold cfg isStaff name stripped w4. rewrite Hmem.
      apply bind_thrown.
      apply (for_of_first_failure env stripped (permissionOverwrites_delete ch)); auto. }
    rewrite Hr. simpl. split; [done|]. split.
    { rewrite perform_all_trace. subst w4. rewrite before_strip_trace.
      by repeat rewrite <- app_assoc. }
    exists (strip ids (reparent cfg (channels w) c)). split; [|split].
    + subst w4. rewrite perform_all_deletes, before_strip_channels.
      by rewrite !lookup_alter_eq, Hc.
    + intros y Hy Hsy. rewrite strip_lookup, decide_True; [done|].
      subst ids. by apply list_elem_of_In, filter_In; split; [apply list_elem_of_In|].
    + intros y Hy. rewrite strip_lookup, decide_False; [by rewrite reparent_overwrites|].
      subst ids. intros [Hin _]%list_elem_of_In%filter_In. by apply list_elem_of_In in Hin.
Qed.

Lemma close_strip_rejection_ends_loop_witness :
  let env := Sample.failing (permissionOverwrites_delete "t1" "X") in
  let r := handleSlashCommand env (Sample.by_ Sample.S Sample.staff Close "t1")
             Sample.world in
  tickets r.2 !! "t1" = Some (Ticket.Build "g" "U" "support" "closed" 100 (Some 200%Z))
  ∧ r.1 = Thrown (Rejected (permissionOverwrites_delete "t1" "X")).
Proof.
  intros env r.
  destruct (close_strip_rejection_ends_loop env "t1" "g" Sample.staff Sample.S
              Sample.world Sample.ticket Sample.t1) as [Hrow Hloop].
  - reflexivity.
  - reflexivity.
  - left. reflexivity.
  - reflexivity.
  - reflexivity.
  - split; [exact Hrow|].
    destruct (Hloop ["U"] "X" ["Y"]) as [Hthrown _].
    + reflexivity.
    + intros category [= <-]. reflexivity.
    + intros y Hy%list_elem_of_singleton. subst y. discriminate.
    + reflexivity.
    + reflexivity.
    + exact Hthrown.
Defined.

(** C4, as stated, fails: [S] closes the ticket of [U], whose stored members
    are [U], [Y] and [X], added in that order, in a guild whose closed
    category lets [Y] in; only the strip of [X] rejects.  The members come
    in the order of their ids, so [X] is met before [Y].  The row is
    [closed], but the loop ended at [X]: no strip of [Y] was attempted and
    [Y] has an overwrite that lets it view and send, which it has not when
    no strip rejects. *)
Lemma close_strip_rejection_leaves_later_member :
  let w := Sample.world_Y_in_category in
  let i := Sample.by_ Sample.S Sample.staff Close "t1" in
  let env := Sample.failing (permissionOverwrites_delete "t1" "X") in
  let r := handleSlashCommand env i w in
  let r0 := handleSlashCommand Sample.calm i w in
  ticket_members w = [("t1", "U"); ("t1", "Y"); ("t1", "X")]
  ∧ select_members "t1" w = ["U"; "X"; "Y"]
  ∧ fails env (permissionOverwrites_delete "t1" "Y") = false
  ∧ r.1 = Thrown (Rejected (permissionOverwrites_delete "t1" "X"))
  ∧ (Ticket.status <$> tickets r.2 !! "t1") = Some "closed"
  ∧ trace r.2
    = [deferReply false; createTranscript "t1" (transcript_options "ticket-u");
       setParent "t1" "C"]
  ∧ ((channels r.2 !! "t1") ≫= (λ c, Channel.permissionOverwrites c !! "Y"))
    = Some Sample.allowed
  ∧ Overwrite.grants_view_send Sample.allowed = true
  ∧ r0.1 = Returned ()
  ∧ ((channels r0.2 !! "t1") ≫= (λ c, Channel.permissionOverwrites c !! "Y")) = None.
Proof. repeat split; reflexivity. Qed.

(** ** [delete] *)

Lemma after_delete_gone env ch wl :
  tickets (after_delete env ch wl) !! ch = None
  ∧ (∀ uid, (ch, uid) ∉ ticket_members (after_delete env ch wl))
  ∧ channels (after_delete env ch wl) !! ch = None.
Proof.
  unfold after_delete. simpl. split; [apply lookup_delete_eq|].
  split; [|apply lookup_delete_eq].
  intros uid [Hne _]%list_elem_of_filter. by apply Hne.
Qed.

(** A [delete] that returns went through every step. *)
Lemma delete_returned env ch g member user w w' :
  handleSlashCommand env (Interaction.Build Delete ch g member user) w = (Returned (), w') →
  ∃ wl, w' = after_delete env ch wl
        ∧ is_Some (tickets w !! ch)
        ∧ isStaff_of (config w !! g) member = true
        ∧ fails env (createTranscript ch (transcript_options (channel_name ch w))) = false.
Proof.
  enter. step.
  destruct (tickets w !! ch) as [t|]; [rewrite is_Some_Some_true|by rewrite is_Some_None_false].
  cbn [negb when]. step.
  destruct (isStaff_of _ _); cbn [negb when]; [|by step]. step.
  destruct (fails env (deferReply true)) eqn:Hdefer;
    [by rewrite bind_await_fail|rewrite bind_await_ok by done].
  unfold generateTranscript. repeat step.
  change (channel_name ch (perform env (deferReply true) w)) with (channel_name ch w).
  fold (transcript_options (channel_name ch w)).
  destruct (fails env (createTranscript ch _)) eqn:Hexport;
    [by rewrite bind_await_fail|rewrite bind_await_ok by done].
  repeat step.
  match goal with |- (send_to_log ?e ?c ?g' ?m ≫= _) ?w0 = _ → _ =>
    destruct (send_to_log e c g' m w0) as [[[]|err] wl] eqn:Hlog
  end; [erewrite bind_returned by exact Hlog|by erewrite bind_thrown by exact Hlog].
  repeat step.
  destruct (fails env (channel_delete ch "Ticket deleted by staff")) eqn:Hdel;
    [by rewrite bind_await_fail|rewrite bind_await_ok by done].
  unfold await. fold deleted_reply. destruct (fails env deleted_reply); [done|].
  intros [= <-]. exists wl. split; [done|]. split; [by eexists|done].
Qed.

(** C6: when [delete] returns, the Ticket row of the channel, every
    TicketMember row of the channel and the channel itself are gone, and a
    later lookup of the ticket by that channel id finds nothing: [close]
    there is refused as not a ticket channel. *)
Theorem delete_removes_ticket_members_and_channel env ch g member user w w' :
  handleSlashCommand env (Interaction.Build Delete ch g member user) w = (Returned (), w') →
  tickets w' !! ch = None
  ∧ (∀ uid, (ch, uid) ∉ ticket_members w')
  ∧ select_members ch w' = []
  ∧ channels w' !! ch = None
  ∧ channel_delete ch "Ticket deleted by staff" ∈ trace w'
  ∧ ∀ env' g' member' user',
      handleSlashCommand env' (Interaction.Build Close ch g' member' user') w'
      = (Thrown NotATicketChannel, w').
Proof.
  intros (wl & -> & _)%delete_returned.
  destruct (after_delete_gone env ch wl) as (Htk & Hmem & Hch).
  split; [done|]. split; [done|]. split; [|split; [done|split]].
  - destruct (select_members ch (after_delete env ch wl)) as [|uid l] eqn:Hsel; [done|].
    exfalso. apply (Hmem uid), elem_of_select_members. rewrite Hsel. left.
  - unfold after_delete. simpl. apply elem_of_app. left. apply elem_of_app. right. left.
  - intros env' g' member' user'. enter. step. by rewrite Htk.
Qed.

Lemma delete_removes_ticket_members_and_channel_witness :
  let r := handleSlashCommand Sample.calm (Sample.by_ Sample.S Sample.staff Delete "t1")
             Sample.world in
  r.1 = Returned () ∧ tickets r.2 !! "t1" = None ∧ channels r.2 !! "t1" = None.
Proof.
  intros r.
  destruct (delete_removes_ticket_members_and_channel Sample.calm "t1" "g" Sample.staff
              Sample.S Sample.world r.2) as (Htk & _ & _ & Hch & _).
  - reflexivity.
  - split; [reflexivity|]. split; [exact Htk | exact Hch].
Defined.

(** C5, as amended: [delete] by a staff caller exports the transcript
    first and depends on it: when the export rejects, the command throws
    that rejection and the Ticket row, the TicketMember rows and the channel
    all stay; when no call rejects, it returns with the export made before
    the deletion and the row, the member rows and the channel gone. *)
Theorem delete_depends_on_export env ch g member user w t c :
  let cfg := config w !! g in
  let name := Channel.name c in
  let export := createTranscript ch (transcript_options name) in
  let m := delete_message name (User.tag user) (Html ch (transcript_options name)) in
  let r := handleSlashCommand env (Interaction.Build Delete ch g member user) w in
  tickets w !! ch = Some t →
  channels w !! ch = Some c →
  isStaff_of cfg member = true →
  fails env (deferReply true) = false →
  (fails env export = true →
     r.1 = Thrown (Rejected export)
     ∧ tickets r.2 = tickets w
     ∧ ticket_members r.2 = ticket_members w
     ∧ channels r.2 = channels w)
  ∧ ((∀ call, fails env call = false) →
     r.1 = Returned ()
     ∧ tickets r.2 !! ch = None
     ∧ (∀ uid, (ch, uid) ∉ ticket_members r.2)
     ∧ channels r.2 !! ch = None
     ∧ trace r.2
       = trace w ++ [deferReply true; export]
         ++ match log_target cfg g w with Some id => [send id m] | None => [] end
         ++ [channel_delete ch "Ticket deleted by staff"; deleted_reply]).
Proof.
  intros cfg name export m r Ht Hc Hs Hdefer.
  assert (Hname : channel_name ch w = name).
  { unfold channel_name. by rewrite Hc. }
  split.
  - intros Hexport. subst r. enter. fold cfg. rewrite Hs. step. rewrite Ht, is_Some_Some_true.
    cbn [negb when]. repeat step. rewrite bind_await_ok by done.
    unfold generateTranscript. repeat step.
    change (channel_name ch (perform env (deferReply true) w)) with (channel_name ch w).
    rewrite Hname. fold (transcript_options name). fold export.
    by rewrite bind_await_fail.
  - intros Hok.
    set (w2 := perform env export (perform env (deferReply true) w)).
    set (wl := match log_target cfg g w with
               | Some id => perform env (send id m) w2
               | None => w2
               end).
    assert (Hr : r = (Returned (), after_delete env ch wl)).
    { subst r. enter. fold cfg. rewrite Hs. step. rewrite Ht, is_Some_Some_true.
      cbn [negb when]. repeat step. rewrite bind_await_ok by done.
      unfold generateTranscript. repeat step.
      change (channel_name ch (perform env (deferReply true) w)) with (channel_name ch w).
      rewrite Hname. fold (transcript_options name). fold export.
      rewrite bind_await_ok by done. repeat step. fold w2.
      change (channel_name ch w2) with (channel_name ch w). rewrite Hname.
      fold (delete_message name (User.tag user) (Html ch (transcript_options name))).
      fold m.
      erewrite bind_returned; cycle 1.
      { rewrite send_to_log_target.
        change (log_target cfg g w2) with (log_target cfg g w).
        instantiate (1 := wl). instantiate (1 := ()). subst wl.
        destruct (log_target cfg g w); [by apply await_ok|done]. }
      repeat step. rewrite bind_await_ok by done.
      fold deleted_reply. by apply await_ok. }
    rewrite Hr. simpl.
    destruct (after_delete_gone env ch wl) as (Htk & Hmem & Hch).
    split; [done|]. split; [done|]. split; [done|]. split; [done|].
    subst wl w2. destruct (log_target cfg g w); simpl; by repeat rewrite <- app_assoc.
Qed.

Lemma delete_depends_on_export_witness :
  let export := createTranscript "t1" (transcript_options "ticket-u") in
  (let r := handleSlashCommand (Sample.failing export)
              (Sample.by_ Sample.S Sample.staff Delete "t1") Sample.world in
   r.1 = Thrown (Rejected export) ∧ tickets r.2 = tickets Sample.world)
  ∧ (let r := handleSlashCommand Sample.calm
                (Sample.by_ Sample.S Sample.staff Delete "t1") Sample.world in
     r.1 = Returned () ∧ tickets r.2 !! "t1" = None).
Proof.
  intros export. split.
  - destruct (delete_depends_on_export (Sample.failing export) "t1" "g" Sample.staff
                Sample.S Sample.world Sample.ticket Sample.t1) as [Habort _];
      [reflexivity..|].
    destruct Habort as (Hthrown & Htk & _); [reflexivity|].
    split; [exact Hthrown | exact Htk].
  - destruct (delete_depends_on_export Sample.calm "t1" "g" Sample.staff
                Sample.S Sample.world Sample.ticket Sample.t1) as [_ Hruns];
      [reflexivity..|].
    destruct Hruns as (Hret & Htk & _); [intros call; reflexivity|].
    split; [exact Hret | exact Htk].
Defined.

(** C5, as stated, fails: the export of [t1] rejects while staff member [S]
    deletes the ticket.  The command throws the rejection; the Ticket row,
    the member rows and the channel are all still there, and no deletion of
    the channel was attempted. *)
Lemma delete_stops_when_export_rejects :
  let export := createTranscript "t1" (transcript_options "ticket-u") in
  let r := handleSlashCommand (Sample.failing export)
             (Sample.by_ Sample.S Sample.staff Delete "t1") Sample.world in
  r.1 = Thrown (Rejected export)
  ∧ tickets r.2 !! "t1" = Some Sample.ticket
  ∧ select_members "t1" r.2 = ["U"; "X"; "Y"]
  ∧ channels r.2 !! "t1" = Some Sample.t1
  ∧ trace r.2 = [deferReply true].
Proof. repeat split; reflexivity. Qed.

(** * Further properties *)

(** ** [createTicketChannel]: the ticket it opens *)

(** The overwrites [createTicketChannel] gives a new channel. *)
Lemma create_overwrites_lookup g uid role p :
  (list_to_map [ (g, Overwrite.Build 0 (BitField.resolve [PermissionFlagsBits.ViewChannel]));
                 (uid, Overwrite.Build view_send 0);
                 (role, Overwrite.Build view_send 0) ] : gmap string Overwrite.t) !! p
  = if decide (p = g)
    then Some (Overwrite.Build 0 (BitField.resolve [PermissionFlagsBits.ViewChannel]))
    else if decide (p = uid ∨ p = role) then Some (Overwrite.Build view_send 0)
    else None.
Proof.
  simpl. rewrite !lookup_insert, lookup_empty.
  destruct (decide (g = p)) as [<-|].
  { by rewrite decide_True. }
  rewrite (decide_False (P := p = g)) by congruence.
  destruct (decide (uid = p)) as [<-|].
  { rewrite decide_True; [done|by left]. }
  destruct (decide (role = p)) as [<-|].
  { rewrite decide_True; [done|by right]. }
  rewrite decide_False; [done|]. intros [?|?]; congruence.
Qed.

(** The world a successful [createTicketChannel] leaves. *)
Lemma create_runs env g user panel w role :
  truthy (config w !! g ≫= Config.supportRole) = Some role →
  (∀ id c, channels w !! id = Some c → Channel.guild c = g →
           same_named env user c = false) →
  fails env (create_call env g user role) = false →
  tickets w !! newId env = None →
  (newId env, User.id user) ∉ ticket_members w →
  createTicketChannel env g user panel w
  = (Returned (newId env),
     set_ticket_members (λ rows, rows ++ [(newId env, User.id user)])
       (set_tickets
          <[newId env := Ticket.Build g (User.id user) panel "open" (now env) None]>
          (perform env (create_call env g user role) w))).
Proof.
  intros Hrole Hnone Hok Hfresh Hrow.
  unfold createTicketChannel. rewrite bind_query, Hrole, bind_query.
  fold (ticket_name env user) (same_named env user).
  rewrite (proj2 (cache_find_None _ _ _) Hnone).
  fold (create_call env g user role). rewrite bind_await_ok by done.
  unfold mbind, M_bind, insert_ticket. simpl. rewrite Hfresh.
  unfold insert_member. simpl. by rewrite decide_False.
Qed.

(** A text channel of the guild with the requester's ticket name stops
    [createTicketChannel] before anything is done. *)
Lemma create_blocked env g user panel w role id c :
  truthy (config w !! g ≫= Config.supportRole) = Some role →
  channels w !! id = Some c → Channel.guild c = g → same_named env user c = true →
  ∃ existing, createTicketChannel env g user panel w = (Thrown (DuplicateTicket existing), w).
Proof.
  intros Hrole Hc Hg Hn. unfold createTicketChannel.
  rewrite bind_query, Hrole, bind_query. fold (ticket_name env user) (same_named env user).
  destruct (cache_find g (same_named env user) w) as [existing|] eqn:Hf; [by eexists|].
  rewrite (proj1 (cache_find_None _ _ _) Hf id c Hc Hg) in Hn. done.
Qed.

(** X1: in a set-up guild where the requester has no same-named text
    channel, when the channel creation goes through and the platform's new
    id is unused in both tables, [createTicketChannel] returns the new id,
    stores an [open] Ticket row owned by the requester with [closedAt] null,
    appends the owner's member row, and makes a text channel that denies the
    guild's everyone role the view, lets the requester and the support role
    view and send, and has no other overwrite. *)
Theorem create_opens_ticket env g user panel w role :
  truthy (config w !! g ≫= Config.supportRole) = Some role →
  (∀ id c, channels w !! id = Some c → Channel.guild c = g →
           same_named env user c = false) →
  fails env (create_call env g user role) = false →
  tickets w !! newId env = None →
  (newId env, User.id user) ∉ ticket_members w →
  let r := createTicketChannel env g user panel w in
  r.1 = Returned (newId env)
  ∧ tickets r.2
    = <[newId env := Ticket.Build g (User.id user) panel "open" (now env) None]> (tickets w)
  ∧ ticket_members r.2 = ticket_members w ++ [(newId env, User.id user)]
  ∧ config r.2 = config w
  ∧ trace r.2 = trace w ++ [create_call env g user role]
  ∧ (∀ id, id ≠ newId env → channels r.2 !! id = channels w !! id)
  ∧ ∃ c, channels r.2 !! newId env = Some c
         ∧ Channel.guild c = g ∧ Channel.name c = ticket_name env user
         ∧ Channel.type c = GuildText ∧ Channel.parent c = None
         ∧ (∃ o, Channel.permissionOverwrites c !! g = Some o
                 ∧ BitField.has (Overwrite.deny o) PermissionFlagsBits.ViewChannel = true
                 ∧ Overwrite.grants_view_send o = false)
         ∧ (∀ p, p ≠ g → p = User.id user ∨ p = role →
                 ∃ o, Channel.permissionOverwrites c !! p = Some o
                      ∧ Overwrite.grants_view_send o = true)
         ∧ (∀ p, p ≠ g → p ≠ User.id user → p ≠ role →
                 Channel.permissionOverwrites c !! p = None).
Proof.
  intros Hrole Hnone Hok Hfresh Hrow r. subst r.
  rewrite (create_runs env g user panel w role) by done. simpl.
  split; [done|]. split; [done|]. split; [done|]. split; [done|].
  split; [done|]. split.
  { intros id Hne. by rewrite lookup_insert_ne. }
  eexists. split; [apply lookup_insert_eq|]. simpl.
  split; [done|]. split; [done|]. split; [done|]. split; [done|].
  split; [|split].
  - exists (Overwrite.Build 0 (BitField.resolve [PermissionFlagsBits.ViewChannel])).
    split; [|split; reflexivity]. rewrite !lookup_insert. by rewrite decide_True.
  - intros p Hg Hp. exists (Overwrite.Build view_send 0). split; [|reflexivity].
    pose proof (create_overwrites_lookup g (User.id user) role p) as Hl.
    simpl in Hl. rewrite Hl, decide_False by done. by rewrite decide_True.
  - intros p Hg Hu Hro.
    pose proof (create_overwrites_lookup g (User.id user) role p) as Hl.
    simpl in Hl. rewrite Hl, decide_False by done.
    rewrite decide_False; [done|]. intros [?|?]; congruence.
Qed.

Lemma create_opens_ticket_witness :
  let r := createTicketChannel Sample.calm "g" Sample.X "support" Sample.world in
  r.1 = Returned "t2"
  ∧ ticket_members r.2 = ticket_members Sample.world ++ [("t2", "X")].
Proof.
  intros r.
  destruct (create_opens_ticket Sample.calm "g" Sample.X "support" Sample.world "staff")
    as (Hret & _ & Hmem & _).
  - reflexivity.
  - apply cache_find_None. reflexivity.
  - reflexivity.
  - reflexivity.
  - intros Hin. vm_compute in Hin.
    repeat (apply elem_of_cons in Hin as [Hin|Hin]; [discriminate Hin|]).
    by apply elem_of_nil in Hin.
  - split; [exact Hret | exact Hmem].
Defined.

(** X2: once [createTicketChannel] has opened a ticket, a second call for a
    requester whose username [toLowerCase] maps to the same string (the same
    user, or one whose name differs only in case), from any panel and
    whichever calls reject, throws the duplicate-ticket error and changes
    nothing: one Ticket row was written, not two. *)
Theorem second_create_is_duplicate env g user panel w role env2 user2 panel2 :
  truthy (config w !! g ≫= Config.supportRole) = Some role →
  (∀ id c, channels w !! id = Some c → Channel.guild c = g →
           same_named env user c = false) →
  fails env (create_call env g user role) = false →
  tickets w !! newId env = None →
  (newId env, User.id user) ∉ ticket_members w →
  toLowerCase env2 (User.username user2) = toLowerCase env (User.username user) →
  let w1 := (createTicketChannel env g user panel w).2 in
  ∃ existing,
    createTicketChannel env2 g user2 panel2 w1 = (Thrown (DuplicateTicket existing), w1).
Proof.
  intros Hrole Hnone Hok Hfresh Hrow Hname w1. subst w1.
  rewrite (create_runs env g user panel w role) by done. simpl.
  eapply (create_blocked env2 g user2 panel2 _ role (newId env)).
  - exact Hrole.
  - simpl. apply lookup_insert_eq.
  - done.
  - unfold same_named, ticket_name. simpl. rewrite Hname.
    by rewrite !bool_decide_eq_true_2.
Qed.

Lemma second_create_is_duplicate_witness :
  let w1 := (createTicketChannel Sample.calm "g" Sample.X "support" Sample.world).2 in
  ∃ existing,
    createTicketChannel Sample.calm "g" (User.Build "X" "X" "X#0002") "billing" w1
    = (Thrown (DuplicateTicket existing), w1).
Proof.
  apply (second_create_is_duplicate Sample.calm "g" Sample.X "support" Sample.world
           "staff" Sample.calm (User.Build "X" "X" "X#0002") "billing").
  - reflexivity.
  - apply cache_find_None. reflexivity.
  - reflexivity.
  - reflexivity.
  - intros Hin. vm_compute in Hin.
    repeat (apply elem_of_cons in Hin as [Hin|Hin]; [discriminate Hin|]).
    by apply elem_of_nil in Hin.
  - reflexivity.
Defined.

(** ** The footprint of [handleSlashCommand] *)

Section Steps_of.
Context (P : (World → World) → Prop).

Lemma steps_ret {A} (a : A) : steps P (mret a).
Proof. intros w. by exists []. Qed.

Lemma steps_throw {A} e : steps P (@throw A e).
Proof. intros w. by exists []. Qed.

Lemma steps_query {A} (f : World → A) : steps P (query f).
Proof. intros w. by exists []. Qed.

Lemma steps_run f : P f → steps P (run f).
Proof. intros Hf w. exists [f]. split; [by constructor|done]. Qed.

Lemma steps_await env c : P (perform env c) → steps P (await env c).
Proof.
  intros Hc w. unfold await. destruct (fails env c).
  - by exists [].
  - exists [perform env c]. split; [by constructor|done].
Qed.

Lemma steps_bind {A B} (m : M A) (k : A → M B) :
  steps P m → (∀ a, steps P (k a)) → steps P (m ≫= k).
Proof.
  intros Hm Hk w. unfold mbind, M_bind. destruct (Hm w) as (fs & Hfs & Hw).
  destruct (m w) as [[a|e] w1]; simpl in Hw; subst w1.
  - destruct (Hk a (apply_all fs w)) as (gs & Hgs & Hw2).
    exists (fs ++ gs). split; [by apply Forall_app|].
    rewrite Hw2. unfold apply_all. by rewrite foldl_app.
  - by exists fs.
Qed.

Lemma steps_when b (m : M unit) : steps P m → steps P (when b m).
Proof. intros Hm. destruct b; [done|apply steps_ret]. Qed.

Lemma steps_for_of {A} (l : list A) (body : A → M unit) :
  (∀ x, steps P (body x)) → steps P (for_of l body).
Proof.
  intros Hb. induction l as [|x l IH]; [apply steps_ret|].
  simpl. by apply steps_bind.
Qed.

Lemma steps_ownerId_of ticket : steps P (ownerId_of ticket).
Proof. destruct ticket; [apply steps_ret|apply steps_throw]. Qed.

(** Two writes with nothing awaited between them count as one. *)
Lemma steps_run_run {B} f g (k : M B) :
  P (λ w, g (f w)) → steps P k → steps P (run f;; run g;; k).
Proof.
  intros Hfg Hk w. destruct (Hk (g (f w))) as (gs & Hgs & Hw).
  exists ((λ w, g (f w)) :: gs). split; [by constructor|].
  change ((run f;; run g;; k) w) with (k (g (f w))). by rewrite Hw.
Qed.
End Steps_of.

Lemma steps_generateTranscript P env ch :
  (∀ c, quiet c = true → P (perform env c)) → steps P (generateTranscript env ch).
Proof.
  intros Hq. unfold generateTranscript.
  apply steps_bind; [apply steps_query|intros name].
  apply steps_bind; [by apply steps_await, Hq|intros _]. apply steps_ret.
Qed.

Lemma steps_build P env b : steps P (build env b).
Proof. unfold build. destruct (refuses env b); [apply steps_throw|apply steps_ret]. Qed.

Lemma steps_send_to_log P env cfg g m :
  (∀ c, quiet c = true → P (perform env c)) → steps P (send_to_log env cfg g m).
Proof.
  intros Hq. unfold send_to_log. destruct (truthy _); [|apply steps_ret].
  apply steps_bind; [apply steps_query|].
  intros [?|]; [by apply steps_await, Hq|apply steps_ret].
Qed.

(** Every run of [handleSlashCommand], however it ends, changes the world
    only through the primitive effects of its subcommand. *)
Lemma handleSlashCommand_footprint env i :
  steps (primitive env i) (handleSlashCommand env i).
Proof.
  assert (Hq : ∀ c, quiet c = true → primitive env i (perform env c))
    by (intros c Hc; by constructor).
  unfold handleSlashCommand.
  apply steps_bind; [apply steps_query|intros cfg].
  destruct (Interaction.subcommand i) eqn:Hcmd.
  - (* add *)
    apply steps_bind; [apply steps_query|intros ticket].
    apply steps_bind; [apply steps_when, steps_throw|intros _].
    apply steps_bind.
    { destruct (negb _); [|apply steps_ret].
      apply steps_bind; [apply steps_ownerId_of|intros owner].
      apply steps_when, steps_throw. }
    intros _. apply steps_bind.
    { apply steps_await, prim_grant. by rewrite Hcmd. }
    intros _. apply steps_bind; [by apply steps_run, (prim_member env i user)|intros _].
    by apply steps_await, Hq.
  - (* remove *)
    apply steps_bind; [apply steps_query|intros ticket].
    apply steps_bind; [apply steps_when, steps_throw|intros _].
    apply steps_bind.
    { destruct (negb _); [|apply steps_ret].
      apply steps_bind; [apply steps_ownerId_of|intros owner].
      apply steps_when, steps_throw. }
    intros _. apply steps_bind; [apply steps_ownerId_of|intros owner].
    apply steps_bind; [apply steps_when, steps_throw|intros _].
    apply steps_bind.
    { apply steps_await, prim_strip. by rewrite Hcmd. }
    intros _. apply steps_bind; [by apply steps_run, (prim_unmember env i user)|intros _].
    by apply steps_await, Hq.
  - (* close *)
    apply steps_bind; [apply steps_query|intros [ticket|]]; [|apply steps_throw].
    apply steps_bind; [apply steps_when, steps_throw|intros _].
    apply steps_bind; [by apply steps_await, Hq|intros _].
    apply steps_bind; [by apply steps_generateTranscript|intros transcript].
    apply steps_bind; [by apply steps_run, prim_closed|intros _].
    apply steps_bind.
    { destruct (truthy _); [|apply steps_ret]. by apply steps_await, prim_reparent. }
    intros _. apply steps_bind; [apply steps_query|intros members].
    apply steps_bind.
    { apply steps_for_of. intros uid. apply steps_when, steps_await, prim_strip.
      by rewrite Hcmd. }
    intros _. apply steps_bind; [apply steps_query|intros name].
    apply steps_bind; [by apply steps_send_to_log|intros _].
    by apply steps_await, Hq.
  - (* delete *)
    apply steps_bind; [apply steps_query|intros ticket].
    apply steps_bind; [apply steps_when, steps_throw|intros _].
    apply steps_bind; [apply steps_when, steps_throw|intros _].
    apply steps_bind; [by apply steps_await, Hq|intros _].
    apply steps_bind; [by apply steps_generateTranscript|intros transcript].
    apply steps_bind; [apply steps_query|intros name].
    apply steps_bind; [by apply steps_send_to_log|intros _].
    apply steps_run_run; [by apply prim_rows|].
    apply steps_bind; [by apply steps_await, prim_channel|intros _].
    by apply steps_await, Hq.
  - (* open *)
    apply steps_bind; [apply steps_query|intros ticket].
    apply steps_bind; [apply steps_when, steps_throw|intros _].
    apply steps_bind; [apply steps_when, steps_throw|intros _].
    apply steps_bind; [apply steps_query|intros members].
    apply steps_bind.
    { apply steps_for_of. intros uid. apply steps_await, prim_grant. by rewrite Hcmd. }
    intros _. apply steps_bind; [by apply steps_run, prim_reopened|intros _].
    by apply steps_await, Hq.
  - (* panel *)
    apply steps_bind; [apply steps_when, steps_throw|intros _].
    apply steps_bind; [by eapply steps_run, prim_panel|intros _].
    do 3 (apply steps_bind; [apply steps_build|intros _]).
    apply steps_bind; [destruct (truthy _); [apply steps_build|apply steps_ret]|intros _].
    apply steps_bind; [apply steps_build|intros _].
    apply steps_bind; [by apply steps_await, Hq|intros _].
    by apply steps_await, Hq.
  - (* setup *)
    apply steps_bind; [apply steps_when, steps_throw|intros _].
    apply steps_bind; [by eapply steps_run, prim_config|intros _].
    by apply steps_await, Hq.
  - (* transcript *)
    apply steps_bind; [apply steps_query|intros [ticket|]]; [|apply steps_throw].
    apply steps_bind; [apply steps_when, steps_throw|intros _].
    apply steps_bind; [by apply steps_await, Hq|intros _].
    apply steps_bind; [by apply steps_generateTranscript|intros transcript].
    apply steps_bind; [apply steps_query|intros name].
    by apply steps_await, Hq.
  - apply steps_throw.
Qed.

(** A relation that is reflexive, transitive and kept by every effect in [P]
    holds between the world before and the world after. *)
Lemma steps_related P (R : relation World) {A} (m : M A) w :
  (∀ w0, R w0 w0) → (∀ w1 w2 w3, R w1 w2 → R w2 w3 → R w1 w3) →
  (∀ f w0, P f → R w0 (f w0)) → steps P m → R w (m w).2.
Proof.
  intros Hrefl Htrans HP Hm. destruct (Hm w) as (fs & Hfs & ->). clear Hm.
  revert w. induction Hfs as [|f fs Hf _ IH]; intros w; [apply Hrefl|].
  simpl. apply (Htrans _ (f w)); [by apply HP|apply IH].
Qed.

Lemma perform_quiet_channels env c w :
  quiet c = true → channels (perform env c w) = channels w.
Proof. by destruct c. Qed.

Lemma select_members_insert_other ch ch' uid w :
  ch' ≠ ch →
  select_members ch' (insert_or_ignore_member ch uid w) = select_members ch' w.
Proof.
  intros Hne. unfold insert_or_ignore_member. case_decide; [done|].
  unfold select_members. simpl. rewrite filter_app, filter_cons_False, filter_nil.
  - by rewrite app_nil_r.
  - simpl. congruence.
Qed.

Lemma select_members_delete_other ch ch' uid w :
  ch' ≠ ch →
  select_members ch' (delete_member ch uid w) = select_members ch' w.
Proof.
  intros Hne. unfold select_members, delete_member. simpl. do 2 f_equal.
  rewrite list_filter_filter. apply list_filter_iff. intros [c u]. simpl.
  split; [by intros [? _]|]. intros ->. split; [done|]. congruence.
Qed.

Lemma select_members_delete_all_other ch ch' w :
  ch' ≠ ch →
  select_members ch' (delete_members ch w) = select_members ch' w.
Proof.
  intros Hne. unfold select_members, delete_members. simpl. do 2 f_equal.
  rewrite list_filter_filter. apply list_filter_iff. intros [c u]. simpl.
  split; [by intros [? _]|]. intros ->. done.
Qed.

(** X3: a command stays in the channel it was invoked in.  However
    [handleSlashCommand] ends, the Ticket row, the member rows and the
    channel (its parent and overwrites, and its existence) of every other
    channel are as before. *)
Theorem command_touches_only_its_channel env i w ch' :
  ch' ≠ Interaction.channel i →
  let w' := (handleSlashCommand env i w).2 in
  tickets w' !! ch' = tickets w !! ch'
  ∧ select_members ch' w' = select_members ch' w
  ∧ channels w' !! ch' = channels w !! ch'.
Proof.
  intros Hne w'. subst w'.
  apply (steps_related (primitive env i)
           (λ w w', tickets w' !! ch' = tickets w !! ch'
                    ∧ select_members ch' w' = select_members ch' w
                    ∧ channels w' !! ch' = channels w !! ch'));
    [| | |apply handleSlashCommand_footprint].
  - done.
  - intros w1 w2 w3 (?&?&?) (?&?&?). split; [congruence|]. split; congruence.
  - intros f w0 Hf. destruct Hf; simpl.
    + split; [done|]. split; [done|]. by destruct c.
    + done.
    + done.
    + split; [done|]. split; [done|]. by rewrite lookup_alter_ne.
    + split; [by unfold insert_or_ignore_member; case_decide|].
      split; [by apply select_members_insert_other|].
      by unfold insert_or_ignore_member; case_decide.
    + split; [done|]. split; [done|]. by rewrite lookup_alter_ne.
    + split; [done|]. split; [|done]. by apply select_members_delete_other.
    + split; [by rewrite lookup_alter_ne|done].
    + split; [done|]. split; [done|]. by rewrite lookup_alter_ne.
    + split; [by rewrite lookup_alter_ne|done].
    + split; [by rewrite lookup_delete_ne|]. split; [|done].
      by apply (select_members_delete_all_other _ _ (set_tickets _ w0)).
    + split; [done|]. split; [done|]. by rewrite lookup_delete_ne.
Qed.

Lemma command_touches_only_its_channel_witness :
  let w' := (handleSlashCommand Sample.calm
               (Sample.by_ Sample.S Sample.staff Delete "lobby") Sample.world).2 in
  tickets w' !! "t1" = tickets Sample.world !! "t1"
  ∧ select_members "t1" w' = select_members "t1" Sample.world
  ∧ channels w' !! "t1" = channels Sample.world !! "t1".
Proof.
  apply (command_touches_only_its_channel Sample.calm
           (Sample.by_ Sample.S Sample.staff Delete "lobby") Sample.world "t1").
  discriminate.
Defined.

(** X4: no slash command makes a Ticket row, and none changes whose ticket
    a row is: every row present after [handleSlashCommand], however it ended,
    was there before with the same guild, owner, panel name and creation
    time.  A row that was there and is gone was deleted by [delete] in its
    own channel. *)
Theorem ticket_identity_is_fixed env i w ch :
  let w' := (handleSlashCommand env i w).2 in
  (∀ t', tickets w' !! ch = Some t' →
         ∃ t, tickets w !! ch = Some t
              ∧ Ticket.guildId t' = Ticket.guildId t
              ∧ Ticket.ownerId t' = Ticket.ownerId t
              ∧ Ticket.panelName t' = Ticket.panelName t
              ∧ Ticket.createdAt t' = Ticket.createdAt t)
  ∧ (is_Some (tickets w !! ch) → tickets w' !! ch = None →
     Interaction.subcommand i = Delete ∧ ch = Interaction.channel i).
Proof.
  intros w'. subst w'. split.
  - apply (steps_related (primitive env i)
             (λ w w', ∀ t', tickets w' !! ch = Some t' →
                ∃ t, tickets w !! ch = Some t
                     ∧ Ticket.guildId t' = Ticket.guildId t
                     ∧ Ticket.ownerId t' = Ticket.ownerId t
                     ∧ Ticket.panelName t' = Ticket.panelName t
                     ∧ Ticket.createdAt t' = Ticket.createdAt t));
      [| | |apply handleSlashCommand_footprint].
    + intros w0 t' Ht. by exists t'.
    + intros w1 w2 w3 H12 H23 t3 Ht3.
      destruct (H23 t3 Ht3) as (t2 & Ht2 & ? & ? & ? & ?).
      destruct (H12 t2 Ht2) as (t1 & Ht1 & ? & ? & ? & ?).
      exists t1. split; [done|]. split; [congruence|]. split; [congruence|].
      split; congruence.
    + assert (Hsame : ∀ w0 t', tickets w0 !! ch = Some t' →
                ∃ t, tickets w0 !! ch = Some t
                     ∧ Ticket.guildId t' = Ticket.guildId t
                     ∧ Ticket.ownerId t' = Ticket.ownerId t
                     ∧ Ticket.panelName t' = Ticket.panelName t
                     ∧ Ticket.createdAt t' = Ticket.createdAt t)
        by (intros w0 t' Ht; by exists t').
      intros f w0 Hf. destruct Hf; simpl; try exact (Hsame w0).
      * unfold insert_or_ignore_member. case_decide; exact (Hsame w0).
      * intros t'. rewrite lookup_alter. case_decide; [subst ch|exact (Hsame w0 t')].
        destruct (tickets w0 !! Interaction.channel i) as [t|]; [|done].
        intros [= <-]. by exists t.
      * intros t'. rewrite lookup_alter. case_decide; [subst ch|exact (Hsame w0 t')].
        destruct (tickets w0 !! Interaction.channel i) as [t|]; [|done].
        intros [= <-]. by exists t.
      * intros t'. rewrite lookup_delete. case_decide; [done|exact (Hsame w0 t')].
  - apply (steps_related (primitive env i)
             (λ w w', is_Some (tickets w !! ch) → tickets w' !! ch = None →
                      Interaction.subcommand i = Delete ∧ ch = Interaction.channel i));
      [| | |apply handleSlashCommand_footprint].
    + intros w0 [t Ht] Hn. congruence.
    + intros w1 w2 w3 H12 H23 H1 H3.
      destruct (tickets w2 !! ch) eqn:H2; [by apply H23|by apply H12].
    + intros f w0 Hf [t Ht]. destruct Hf; simpl; intros Hn; try congruence.
      * unfold insert_or_ignore_member in Hn. case_decide; simpl in Hn; congruence.
      * rewrite lookup_alter in Hn. case_decide; [subst ch|congruence].
        by rewrite Ht in Hn.
      * rewrite lookup_alter in Hn. case_decide; [subst ch|congruence].
        by rewrite Ht in Hn.
      * rewrite lookup_delete in Hn. case_decide; [done|congruence].
Qed.

Lemma ticket_identity_is_fixed_witness :
  let w' := (handleSlashCommand Sample.calm
               (Sample.by_ Sample.S Sample.staff Close "t1") Sample.world).2 in
  ∃ t, tickets Sample.world !! "t1" = Some t ∧ Ticket.ownerId t = "U".
Proof.
  intros w'.
  assert (Ht : tickets w' !! "t1"
               = Some (Ticket.Build "g" "U" "support" "closed" 100 (Some 200%Z)))
    by reflexivity.
  destruct (proj1 (ticket_identity_is_fixed Sample.calm
                     (Sample.by_ Sample.S Sample.staff Close "t1") Sample.world "t1")
              _ Ht) as (t & Hw & _ & Ho & _).
  exists t. split; [exact Hw|]. symmetry. exact Ho.
Defined.

(** ** What commands leave alone *)

Lemma same_channel_refl c : same_channel c c.
Proof. by repeat split. Qed.

Lemma same_channel_trans c1 c2 c3 :
  same_channel c1 c2 → same_channel c2 c3 → same_channel c1 c3.
Proof. intros (?&?&?) (?&?&?). repeat split; congruence. Qed.

(** No command makes a channel, renames one, changes its type or moves it
    to another guild. *)
Lemma channels_not_made env i w id c' :
  channels (handleSlashCommand env i w).2 !! id = Some c' →
  ∃ c, channels w !! id = Some c ∧ same_channel c c'.
Proof.
  revert c'.
  apply (steps_related (primitive env i)
           (λ w w', ∀ c', channels w' !! id = Some c' →
                          ∃ c, channels w !! id = Some c ∧ same_channel c c'));
    [| | |apply handleSlashCommand_footprint].
  - intros w0 c' Hc. exists c'. split; [done|apply same_channel_refl].
  - intros w1 w2 w3 H12 H23 c3 H3.
    destruct (H23 c3 H3) as (c2 & H2 & ?). destruct (H12 c2 H2) as (c1 & H1 & ?).
    exists c1. split; [done|]. by eapply same_channel_trans.
  - assert (Halter : ∀ (f : Channel.t → Channel.t) ch w0 c',
              (∀ c, same_channel c (f c)) →
              alter f ch (channels w0) !! id = Some c' →
              ∃ c, channels w0 !! id = Some c ∧ same_channel c c').
    { intros f ch w0 c' Hf. rewrite lookup_alter. case_decide; [subst ch|].
      - destruct (channels w0 !! id) as [c|]; [|done]. intros [= <-]. by exists c.
      - intros Hc. exists c'. split; [done|apply same_channel_refl]. }
    assert (Hsame : ∀ w0 c', channels w0 !! id = Some c' →
                             ∃ c, channels w0 !! id = Some c ∧ same_channel c c').
    { intros w0 c' Hc. exists c'. split; [done|apply same_channel_refl]. }
    intros f w0 Hf c'. destruct Hf; simpl.
    + destruct c; try done; exact (Hsame w0 c').
    + exact (Hsame w0 c').
    + exact (Hsame w0 c').
    + apply Halter. intros c. by repeat split.
    + unfold insert_or_ignore_member. case_decide; exact (Hsame w0 c').
    + apply Halter. intros c. by repeat split.
    + exact (Hsame w0 c').
    + exact (Hsame w0 c').
    + apply Halter. intros c. by repeat split.
    + exact (Hsame w0 c').
    + exact (Hsame w0 c').
    + rewrite lookup_delete. case_decide; [done|exact (Hsame w0 c')].
Qed.

(** A channel is only ever removed by [delete] invoked in it. *)
Lemma channel_kept env i w id c :
  Interaction.subcommand i ≠ Delete ∨ id ≠ Interaction.channel i →
  channels w !! id = Some c →
  ∃ c', channels (handleSlashCommand env i w).2 !! id = Some c' ∧ same_channel c c'.
Proof.
  intros Hnot. revert c.
  apply (steps_related (primitive env i)
           (λ w w', ∀ c, channels w !! id = Some c →
                         ∃ c', channels w' !! id = Some c' ∧ same_channel c c'));
    [| | |apply handleSlashCommand_footprint].
  - intros w0 c Hc. exists c. split; [done|apply same_channel_refl].
  - intros w1 w2 w3 H12 H23 c1 H1.
    destruct (H12 c1 H1) as (c2 & H2 & ?). destruct (H23 c2 H2) as (c3 & H3 & ?).
    exists c3. split; [done|]. by eapply same_channel_trans.
  - assert (Halter : ∀ (f : Channel.t → Channel.t) ch w0 c,
              (∀ c, same_channel c (f c)) →
              channels w0 !! id = Some c →
              ∃ c', alter f ch (channels w0) !! id = Some c' ∧ same_channel c c').
    { intros f ch w0 c Hf Hc. rewrite lookup_alter. case_decide; [subst ch|].
      - rewrite Hc. by eexists.
      - exists c. split; [done|apply same_channel_refl]. }
    assert (Hsame : ∀ w0 c, channels w0 !! id = Some c →
                            ∃ c', channels w0 !! id = Some c' ∧ same_channel c c').
    { intros w0 c Hc. exists c. split; [done|apply same_channel_refl]. }
    intros f w0 Hf c. destruct Hf; simpl.
    + destruct c0; try done; exact (Hsame w0 c).
    + exact (Hsame w0 c).
    + exact (Hsame w0 c).
    + apply Halter. intros c0. by repeat split.
    + unfold insert_or_ignore_member. case_decide; exact (Hsame w0 c).
    + apply Halter. intros c0. by repeat split.
    + exact (Hsame w0 c).
    + exact (Hsame w0 c).
    + apply Halter. intros c0. by repeat split.
    + exact (Hsame w0 c).
    + exact (Hsame w0 c).
    + rewrite lookup_delete_ne; [exact (Hsame w0 c)|].
      destruct Hnot as [Hnot|Hnot]; [done|congruence].
Qed.

(** X5: no slash command makes a channel, renames or retypes one or moves
    it to another guild, and only [delete] invoked in a channel removes it:
    however [handleSlashCommand] ends, each channel present afterwards was
    there before under the same guild, name and type, and each channel
    present before is still there unless the command was [delete] in that
    very channel. *)
Theorem channels_keep_their_names env i w id :
  let w' := (handleSlashCommand env i w).2 in
  (∀ c', channels w' !! id = Some c' → ∃ c, channels w !! id = Some c ∧ same_channel c c')
  ∧ (∀ c, channels w !! id = Some c → channels w' !! id = None →
          Interaction.subcommand i = Delete ∧ id = Interaction.channel i).
Proof.
  intros w'. subst w'. split.
  - intros c'. apply channels_not_made.
  - intros c Hc Hnone.
    assert (Hkept : Interaction.subcommand i ≠ Delete ∨ id ≠ Interaction.channel i →
                    False).
    { intros Hnot. destruct (channel_kept env i w id c Hnot Hc) as (c' & Hc' & _).
      congruence. }
    split.
    + destruct (Interaction.subcommand i); try done; exfalso; apply Hkept; by left.
    + destruct (decide (id = Interaction.channel i)) as [|Hid]; [done|].
      exfalso. apply Hkept. by right.
Qed.

Ltac kept_by_footprint env i :=
  match goal with
  | |- ?proj (handleSlashCommand env i ?w).2 = ?proj ?w =>
      apply (steps_related (primitive env i) (λ w0 w1, proj w1 = proj w0));
      [done|congruence| |apply handleSlashCommand_footprint]
  end.

Ltac not_written Hw :=
  match goal with
  | H : Interaction.subcommand _ = _ |- _ => rewrite H in Hw; discriminate Hw
  | H : may_grant (Interaction.subcommand _) _ |- _ =>
      destruct (Interaction.subcommand _); simpl in H, Hw; done
  | H : may_strip (Interaction.subcommand _) _ |- _ =>
      destruct (Interaction.subcommand _); simpl in H, Hw; done
  end.

Lemma config_kept env i w :
  may_write (Interaction.subcommand i) ConfigTable = false →
  config (handleSlashCommand env i w).2 = config w.
Proof.
  intros Hw. kept_by_footprint env i.
  intros f w0 Hf. destruct Hf; simpl; try done; try not_written Hw.
  unfold insert_or_ignore_member. by case_decide.
Qed.

Lemma panels_kept env i w :
  may_write (Interaction.subcommand i) PanelsTable = false →
  panels (handleSlashCommand env i w).2 = panels w.
Proof.
  intros Hw. kept_by_footprint env i.
  intros f w0 Hf. destruct Hf; simpl; try done; try not_written Hw.
  unfold insert_or_ignore_member. by case_decide.
Qed.

Lemma tickets_kept env i w :
  may_write (Interaction.subcommand i) TicketsTable = false →
  tickets (handleSlashCommand env i w).2 = tickets w.
Proof.
  intros Hw. kept_by_footprint env i.
  intros f w0 Hf. destruct Hf; simpl; try done; try not_written Hw.
  unfold insert_or_ignore_member. by case_decide.
Qed.

Lemma members_kept env i w :
  may_write (Interaction.subcommand i) MembersTable = false →
  ticket_members (handleSlashCommand env i w).2 = ticket_members w.
Proof.
  intros Hw. kept_by_footprint env i.
  intros f w0 Hf. destruct Hf; simpl; try done; try not_written Hw.
Qed.

Lemma channels_kept env i w :
  may_write (Interaction.subcommand i) ChannelState = false →
  channels (handleSlashCommand env i w).2 = channels w.
Proof.
  intros Hw. kept_by_footprint env i.
  intros f w0 Hf. destruct Hf; simpl; try done; try not_written Hw.
  by destruct c.
Qed.

(** X6: each table has its writers.  However [handleSlashCommand] ends,
    [config] is as before unless the command is [setup], [panels] unless it
    is [panel], [tickets] unless it is [close], [open] or [delete],
    [ticket_members] unless it is [add], [remove] or [delete], and the
    channels (existence, parent, overwrites) unless it is [add], [remove],
    [close], [open] or [delete].  In particular [transcript] and an unknown
    subcommand write nothing. *)
Theorem tables_have_their_writers env i w :
  let cmd := Interaction.subcommand i in
  let w' := (handleSlashCommand env i w).2 in
  (may_write cmd ConfigTable = false → config w' = config w)
  ∧ (may_write cmd PanelsTable = false → panels w' = panels w)
  ∧ (may_write cmd TicketsTable = false → tickets w' = tickets w)
  ∧ (may_write cmd MembersTable = false → ticket_members w' = ticket_members w)
  ∧ (may_write cmd ChannelState = false → channels w' = channels w).
Proof.
  intros cmd w'. subst cmd w'.
  split; [apply config_kept|]. split; [apply panels_kept|].
  split; [apply tickets_kept|]. split; [apply members_kept|apply channels_kept].
Qed.

Lemma tables_have_their_writers_witness :
  let w' := (handleSlashCommand Sample.calm
               (Sample.by_ Sample.U Sample.plain Transcript "t1") Sample.world).2 in
  tickets w' = tickets Sample.world
  ∧ ticket_members w' = ticket_members Sample.world
  ∧ channels w' = channels Sample.world.
Proof.
  intros w'.
  destruct (tables_have_their_writers Sample.calm
              (Sample.by_ Sample.U Sample.plain Transcript "t1") Sample.world)
    as (_ & _ & Ht & Hm & Hc).
  split; [apply Ht; reflexivity|]. split; [apply Hm; reflexivity|apply Hc; reflexivity].
Defined.

Lemma channels_keep_their_names_witness :
  let w' := (handleSlashCommand Sample.calm
               (Sample.by_ Sample.S Sample.staff Close "t1") Sample.world).2 in
  ∃ c', channels w' !! "t1" = Some c' ∧ Channel.name c' = "ticket-u".
Proof.
  intros w'.
  assert (Hc : is_Some (channels w' !! "t1")) by (eexists; reflexivity).
  destruct Hc as [c' Hc]. exists c'. split; [exact Hc|].
  destruct (proj1 (channels_keep_their_names Sample.calm
                     (Sample.by_ Sample.S Sample.staff Close "t1") Sample.world "t1")
              c' Hc) as (c & Hw & _ & Hn & _).
  rewrite Hn.
  assert (Hw0 : channels Sample.world !! "t1" = Some Sample.t1) by reflexivity.
  rewrite Hw0 in Hw. injection Hw as <-. reflexivity.
Defined.

(** ** Tickets and channel names *)

Lemma ticket_rows_not_made env i w id :
  tickets w !! id = None → tickets (handleSlashCommand env i w).2 !! id = None.
Proof.
  apply (steps_related (primitive env i)
           (λ w w', tickets w !! id = None → tickets w' !! id = None));
    [done|by auto| |apply handleSlashCommand_footprint].
  intros f w0 Hf Hn. destruct Hf; simpl; try done.
  - unfold insert_or_ignore_member. by case_decide.
  - rewrite lookup_alter. case_decide; [subst id; by rewrite Hn|done].
  - rewrite lookup_alter. case_decide; [subst id; by rewrite Hn|done].
  - rewrite lookup_delete. by case_decide.
Qed.

Lemma member_rows_not_made env i w row :
  may_write (Interaction.subcommand i) MembersTable = false
  ∨ (∀ user, Interaction.subcommand i ≠ Add user) →
  row ∈ ticket_members (handleSlashCommand env i w).2 → row ∈ ticket_members w.
Proof.
  intros Hcmd.
  apply (steps_related (primitive env i)
           (λ w w', row ∈ ticket_members w' → row ∈ ticket_members w));
    [done|by auto| |apply handleSlashCommand_footprint].
  intros f w0 Hf. destruct Hf; simpl; try done.
  - destruct Hcmd as [Hw|Hadd]; [not_written Hw|]. by destruct (Hadd user).
  - by intros [_ ?]%list_elem_of_filter.
  - by intros [_ ?]%list_elem_of_filter.
Qed.

(** X7: an existing text channel named after the requester keeps blocking
    a new ticket through every slash command except [setup] and [delete] in
    that channel, however the command ends.  In particular closing a ticket
    does not let its owner open another one: [createTicketChannel] still
    throws the duplicate-ticket error and changes nothing. *)
Theorem same_named_channel_keeps_blocking env i w ch c role env2 requester panel :
  channels w !! ch = Some c →
  Channel.guild c = Interaction.guild i →
  same_named env2 requester c = true →
  truthy (config w !! Interaction.guild i ≫= Config.supportRole) = Some role →
  may_write (Interaction.subcommand i) ConfigTable = false →
  Interaction.subcommand i ≠ Delete ∨ ch ≠ Interaction.channel i →
  let w' := (handleSlashCommand env i w).2 in
  ∃ existing,
    createTicketChannel env2 (Interaction.guild i) requester panel w'
    = (Thrown (DuplicateTicket existing), w').
Proof.
  intros Hc Hg Hn Hrole Hcfg Hnot w'. subst w'.
  destruct (channel_kept env i w ch c Hnot Hc) as (c' & Hc' & Hg' & Hn' & Ht').
  eapply (create_blocked env2 _ requester panel _ role ch c').
  - by rewrite config_kept.
  - exact Hc'.
  - congruence.
  - unfold same_named in *. by rewrite Hn', Ht'.
Qed.

Lemma same_named_channel_keeps_blocking_witness :
  let w' := (handleSlashCommand Sample.calm
               (Sample.by_ Sample.U Sample.plain Close "t1") Sample.world).2 in
  ∃ existing,
    createTicketChannel Sample.calm "g" Sample.U "support" w'
    = (Thrown (DuplicateTicket existing), w').
Proof.
  apply (same_named_channel_keeps_blocking Sample.calm
           (Sample.by_ Sample.U Sample.plain Close "t1") Sample.world "t1" Sample.t1
           "staff" Sample.calm Sample.U "support").
  - reflexivity.
  - reflexivity.
  - reflexivity.
  - reflexivity.
  - reflexivity.
  - left. discriminate.
Defined.

(** X8: [delete] frees the name.  When [delete] returns and the deleted
    channel was the guild's only text channel named after the requester,
    [createTicketChannel] for that requester is no longer refused as a
    duplicate: with the creation going through and an unused new id, it
    returns the new channel. *)
Theorem delete_frees_the_ticket_name env i w w' role env2 requester panel :
  Interaction.subcommand i = Delete →
  handleSlashCommand env i w = (Returned (), w') →
  truthy (config w !! Interaction.guild i ≫= Config.supportRole) = Some role →
  (∀ id c, channels w !! id = Some c → Channel.guild c = Interaction.guild i →
           same_named env2 requester c = true → id = Interaction.channel i) →
  fails env2 (create_call env2 (Interaction.guild i) requester role) = false →
  tickets w !! newId env2 = None →
  (newId env2, User.id requester) ∉ ticket_members w →
  let r := createTicketChannel env2 (Interaction.guild i) requester panel w' in
  r.1 = Returned (newId env2)
  ∧ tickets r.2 !! newId env2
    = Some (Ticket.Build (Interaction.guild i) (User.id requester) panel "open"
              (now env2) None).
Proof.
  intros Hcmd Hrun Hrole Honly Hok Hfresh Hrow r.
  assert (Hw' : w' = (handleSlashCommand env i w).2) by (by rewrite Hrun).
  assert (Hgone : channels w' !! Interaction.channel i = None).
  { destruct i as [cmd ch g member user]. simpl in *. subst cmd.
    apply delete_returned in Hrun as (wl & -> & _).
    by destruct (after_delete_gone env ch wl) as (_ & _ & ?). }
  subst r. rewrite (create_runs env2 _ requester panel w' role).
  - simpl. split; [done|]. apply lookup_insert_eq.
  - rewrite Hw', config_kept; [done|by rewrite Hcmd].
  - intros id c' Hc' Hg'.
    destruct (same_named env2 requester c') eqn:Hn; [exfalso|done].
    pose proof Hc' as Hc0. rewrite Hw' in Hc'.
    apply channels_not_made in Hc' as (c & Hc & Hg & Hname & Htype).
    assert (id = Interaction.channel i) as ->.
    { apply (Honly id c Hc); [congruence|].
      unfold same_named in *. by rewrite <- Hname, <- Htype. }
    congruence.
  - done.
  - rewrite Hw'. by apply ticket_rows_not_made.
  - intros Hin. apply Hrow. rewrite Hw' in Hin.
    eapply member_rows_not_made; [|exact Hin]. right. intros user. by rewrite Hcmd.
Qed.

Lemma delete_frees_the_ticket_name_witness :
  let i := Sample.by_ Sample.S Sample.staff Delete "t1" in
  let w' := (handleSlashCommand Sample.calm i Sample.world).2 in
  (createTicketChannel Sample.calm "g" Sample.U "support" w').1 = Returned "t2".
Proof.
  intros i w'.
  apply (delete_frees_the_ticket_name Sample.calm i Sample.world w' "staff" Sample.calm
           Sample.U "support").
  - reflexivity.
  - reflexivity.
  - reflexivity.
  - intros id c Hc _ Hn. apply elem_of_map_to_list in Hc. vm_compute in Hc.
    repeat (apply elem_of_cons in Hc as [Hc|Hc];
            [injection Hc as -> ->;
             first [reflexivity | vm_compute in Hn; discriminate Hn]|]).
    by apply elem_of_nil in Hc.
  - reflexivity.
  - reflexivity.
  - intros Hin. vm_compute in Hin.
    repeat (apply elem_of_cons in Hin as [Hin|Hin]; [discriminate Hin|]).
    by apply elem_of_nil in Hin.
Defined.

(** ** Invariants of the tables *)

(** X9: the primary key of [ticket_members] holds.  If no row occurs twice
    before, none does after [handleSlashCommand] or [createTicketChannel],
    however they end. *)
Theorem member_rows_stay_unique env w :
  NoDup (ticket_members w) →
  (∀ i, NoDup (ticket_members (handleSlashCommand env i w).2))
  ∧ (∀ g user panel, NoDup (ticket_members (createTicketChannel env g user panel w).2)).
Proof.
  intros Hnd. split.
  - intros i. revert Hnd.
    apply (steps_related (primitive env i)
             (λ w w', NoDup (ticket_members w) → NoDup (ticket_members w')));
      [done|by auto| |apply handleSlashCommand_footprint].
    intros f w0 Hf Hnd. destruct Hf; simpl; try done.
    + unfold insert_or_ignore_member. case_decide; [done|]. simpl.
      apply NoDup_app. split; [done|]. split; [|apply NoDup_singleton].
      intros x Hx ->%list_elem_of_singleton. done.
    + by apply NoDup_filter.
    + by apply NoDup_filter.
  - intros g user panel. unfold createTicketChannel. rewrite bind_query.
    destruct (truthy _) as [role|]; [|done]. rewrite bind_query.
    destruct (cache_find _ _ _); [done|].
    unfold mbind, M_bind, await. destruct (fails env _); [done|].
    unfold insert_ticket. destruct (tickets _ !! newId env); [done|].
    unfold insert_member. case_decide as Hin; [done|]. simpl in *.
    apply NoDup_app. split; [done|]. split; [|apply NoDup_singleton].
    intros x Hx ->%list_elem_of_singleton. done.
Qed.

Lemma member_rows_stay_unique_witness :
  NoDup (ticket_members (handleSlashCommand Sample.calm
                           (Sample.by_ Sample.U Sample.plain (Add Sample.X) "t1")
                           Sample.world).2).
Proof.
  apply (member_rows_stay_unique Sample.calm Sample.world).
  refine (@bool_decide_unpack _ (NoDup_dec _) _). vm_compute. exact I.
Defined.

(** X10: orphan member rows come from one place only.  If every
    [ticket_members] row has its Ticket row before, it has afterwards,
    however the command ends, unless the command is [add] in a channel
    without a Ticket row; [createTicketChannel] keeps it as well. *)
Theorem member_rows_keep_their_ticket env w :
  members_have_ticket w →
  (∀ i, (∀ user, Interaction.subcommand i = Add user →
                 is_Some (tickets w !! Interaction.channel i)) →
        members_have_ticket (handleSlashCommand env i w).2)
  ∧ (∀ g user panel, members_have_ticket (createTicketChannel env g user panel w).2).
Proof.
  intros Hinv. split.
  - intros i Hadd.
    cut (members_have_ticket (handleSlashCommand env i w).2
         ∧ (∀ user, Interaction.subcommand i = Add user →
                    is_Some (tickets (handleSlashCommand env i w).2
                             !! Interaction.channel i))); [by intros [? _]|].
    revert Hinv Hadd.
    apply (steps_related (primitive env i)
             (λ w w', members_have_ticket w →
                (∀ user, Interaction.subcommand i = Add user →
                         is_Some (tickets w !! Interaction.channel i)) →
                members_have_ticket w'
                ∧ (∀ user, Interaction.subcommand i = Add user →
                           is_Some (tickets w' !! Interaction.channel i))));
      [done| | |apply handleSlashCommand_footprint].
    { intros w1 w2 w3 H12 H23 H1 Ha. destruct (H12 H1 Ha). by apply H23. }
    intros f w0 Hf Hm Ha. destruct Hf; simpl; try done.
    + unfold insert_or_ignore_member. case_decide; [done|]. simpl. split; [|done].
      intros ch uid [Hin| [= -> ->]%list_elem_of_singleton]%elem_of_app;
        [by apply (Hm _ uid)|].
      simpl. by apply (Ha user).
    + split; [|done]. intros ch uid [_ Hin]%list_elem_of_filter. by apply (Hm _ uid).
    + split; [|intros user Hu; congruence].
      intros ch uid Hin. simpl. rewrite lookup_alter.
      case_decide; [subst ch|by apply (Hm _ uid)].
      destruct (Hm _ uid Hin) as [t ->]. by eexists.
    + split; [|intros user Hu; congruence].
      intros ch uid Hin. simpl. rewrite lookup_alter.
      case_decide; [subst ch|by apply (Hm _ uid)].
      destruct (Hm _ uid Hin) as [t ->]. by eexists.
    + split; [|intros user Hu; congruence].
      intros ch uid [Hne Hin]%list_elem_of_filter. simpl in *.
      rewrite lookup_delete_ne by done. by apply (Hm _ uid).
  - intros g user panel. unfold createTicketChannel. rewrite bind_query.
    destruct (truthy _) as [role|]; [|done]. rewrite bind_query.
    destruct (cache_find _ _ _); [done|].
    unfold mbind, M_bind, await. destruct (fails env _); [done|].
    unfold insert_ticket. destruct (tickets _ !! newId env) eqn:Hfresh; [done|].
    assert (Hgrown : ∀ ch uid, (ch, uid) ∈ ticket_members w →
              is_Some (<[newId env := Ticket.Build g (User.id user) panel "open" (now env)
                                        None]> (tickets w) !! ch)).
    { intros ch uid Hin. rewrite lookup_insert. case_decide; [by eexists|].
      by apply (Hinv _ uid). }
    unfold insert_member. case_decide as Hin; simpl in *.
    + intros ch uid. apply Hgrown.
    + intros ch uid [Hold| [= -> ->]%list_elem_of_singleton]%elem_of_app; simpl.
      * by apply (Hgrown _ uid).
      * rewrite lookup_insert_eq. by eexists.
Qed.

Lemma member_rows_keep_their_ticket_witness :
  members_have_ticket (handleSlashCommand Sample.calm
                         (Sample.by_ Sample.U Sample.plain (Add Sample.A) "t1")
                         Sample.world).2.
Proof.
  apply (member_rows_keep_their_ticket Sample.calm Sample.world).
  - intros ch uid Hin. vm_compute in Hin.
    repeat (apply elem_of_cons in Hin as [Hin|Hin];
            [injection Hin as -> ->; eexists; reflexivity|]).
    by apply elem_of_nil in Hin.
  - intros user _. eexists. reflexivity.
Defined.

(** ** Who may do what *)

(** X11: a caller who is not an administrator, does not hold the support
    role and does not own the ticket of the channel can do nothing: whatever
    the subcommand and its options, [handleSlashCommand] throws an [Error]
    with a message before any call is made, and the world is unchanged. *)
Theorem outsider_changes_nothing env i w :
  isAdmin_of (Interaction.member i) = false →
  isStaff_of (config w !! Interaction.guild i) (Interaction.member i) = false →
  (∀ t, tickets w !! Interaction.channel i = Some t →
        Ticket.ownerId t ≠ User.id (Interaction.user i)) →
  ∃ message, handleSlashCommand env i w = (Thrown (Error message), w).
Proof.
  destruct i as [cmd ch g member user]. simpl. intros Hadmin Hstaff Hown.
  enter. rewrite Hadmin, Hstaff. destruct cmd; cbn [negb andb when].
  - step. destruct (tickets w !! ch) as [t|] eqn:Ht.
    + rewrite is_Some_Some_true. cbn [negb andb when ownerId_of]. repeat step.
      rewrite bool_decide_eq_true_2 by (by apply Hown). cbn [when].
      repeat step. by eexists.
    + rewrite is_Some_None_false. cbn [negb andb when]. step. by eexists.
  - step. destruct (tickets w !! ch) as [t|] eqn:Ht.
    + rewrite is_Some_Some_true. cbn [negb andb when ownerId_of]. repeat step.
      rewrite bool_decide_eq_true_2 by (by apply Hown). cbn [when].
      repeat step. by eexists.
    + rewrite is_Some_None_false. cbn [negb andb when]. step. by eexists.
  - step. destruct (tickets w !! ch) as [t|] eqn:Ht; [|by eexists].
    rewrite bool_decide_eq_true_2 by (by apply Hown). cbn [when]. step. by eexists.
  - step. destruct (bool_decide (is_Some (tickets w !! ch))); cbn [negb when];
      repeat step; by eexists.
  - step. destruct (bool_decide (is_Some (select_closed_ticket ch w))); cbn [negb when];
      repeat step; by eexists.
  - step. by eexists.
  - step. by eexists.
  - step. destruct (tickets w !! ch) as [t|] eqn:Ht; [|by eexists].
    rewrite bool_decide_eq_true_2 by (by apply Hown). cbn [when]. step. by eexists.
  - by eexists.
Qed.

Lemma outsider_changes_nothing_witness :
  ∃ message,
    handleSlashCommand Sample.calm (Sample.by_ Sample.Y Sample.plain Close "t1")
      Sample.world
    = (Thrown (Error message), Sample.world).
Proof.
  apply (outsider_changes_nothing Sample.calm
           (Sample.by_ Sample.Y Sample.plain Close "t1") Sample.world).
  - reflexivity.
  - reflexivity.
  - intros t Ht. vm_compute in Ht. injection Ht as <-. discriminate.
Defined.

(** ** [setup] and [panel] *)



Lemma bind_build {A} env b (k : unit → M A) w :
  (build env b ≫= k) w
  = match refuses env b with
    | Some message => (Thrown (Error message), w)
    | None => k () w
    end.
Proof. unfold build. by destruct (refuses env b). Qed.

(** A run of builder calls throws the first refusal, and changes nothing. *)
Lemma builds_run {A} env (bs : list BuilderCall) (k : M A) w :
  (for_of bs (build env);; k) w
  = match refusal env bs with
    | Some message => (Thrown (Error message), w)
    | None => k w
    end.
Proof.
  induction bs as [|b bs IH]; [reflexivity|]. simpl.
  rewrite bind_bind, bind_build. destruct (refuses env b); [reflexivity|]. apply IH.
Qed.

(** X13: [panel] is for administrators only and stores the panel before it
    builds and posts it.  For an administrator the row (with the default
    title and description when none or an empty one is given) replaces the
    guild's panel of that name whatever happens afterwards.  If a builder
    refuses the colour, the title, the description, the image or the
    button's id, the command throws the first such refusal with the row
    stored and nothing posted.  Otherwise, if the post to the target channel
    rejects, the command throws that rejection with the row stored and
    nothing posted; and if it goes through, the post carries the panel's
    embed and a button whose custom id is [ticket_] followed by the panel
    name, and the reply follows. *)
Theorem panel_is_stored_then_posted env ch g member user w name channel title description
    image :
  let i := Interaction.Build (PanelCmd name channel title description image)
             ch g member user in
  let r := handleSlashCommand env i w in
  let row := panel_row channel title description image in
  let builds := panel_builds (config w !! g) name row in
  let post := send channel (panel_post (config w !! g) name row) in
  (isAdmin_of member = false →
   r = (Thrown (Error "You need administrator permissions!"), w))
  ∧ (isAdmin_of member = true →
     panels r.2 = <[(g, name) := row]> (panels w)
     ∧ (∀ message, refusal env builds = Some message →
                   r.1 = Thrown (Error message) ∧ trace r.2 = trace w)
     ∧ (refusal env builds = None →
        (fails env post = true → r.1 = Thrown (Rejected post) ∧ trace r.2 = trace w)
        ∧ (fails env post = false →
           ∃ m, trace r.2 = trace w ++ [post] ++ (if fails env (reply m true) then []
                                                  else [reply m true])
                ∧ r.1 = if fails env (reply m true) then Thrown (Rejected (reply m true))
                        else Returned ()))).
Proof.
  intros i r row builds post. subst i r. split.
  - intros Hadmin. enter. rewrite Hadmin. cbn [negb when]. by step.
  - intros Hadmin.
    set (w1 := set_panels <[(g, name) := row]> w).
    assert (Hr : ∃ m, handleSlashCommand env
                   (Interaction.Build (PanelCmd name channel title description image)
                      ch g member user) w
                 = (for_of builds (build env);;
                    await env post;; await env (reply m true)) w1).
    { eexists. enter. rewrite Hadmin. cbn [negb when]. do 2 step.
      rewrite builds_run. subst builds post.
      unfold panel_builds, panel_post, panel_button, row, panel_row.
      cbn [Panel.title Panel.description Panel.imageUrl]. cbn [app refusal].
      rewrite bind_build. destruct (refuses env (setColor _)); [reflexivity|].
      rewrite bind_build. destruct (refuses env (setTitle _)); [reflexivity|].
      rewrite bind_build. destruct (refuses env (setDescription _)); [reflexivity|].
      destruct (truthy image) as [url|]; cbn [app refusal].
      - rewrite bind_build. destruct (refuses env (setImage url)); [reflexivity|].
        rewrite bind_build. destruct (refuses env (setCustomId _)); reflexivity.
      - rewrite bind_ret, bind_build.
        destruct (refuses env (setCustomId _)); reflexivity. }
    destruct Hr as [m Hr]. rewrite Hr, builds_run.
    destruct (refusal env builds) as [message|].
    { split; [done|]. split; [|done]. by intros ? [= <-]. }
    destruct (fails env post) eqn:Hpost.
    + rewrite bind_await_fail by done. simpl. split; [done|]. split; [done|]. done.
    + rewrite bind_await_ok by done. unfold await.
      destruct (fails env (reply m true)) eqn:Hreply; simpl.
      * split; [done|]. split; [done|]. intros _. split; [done|].
        intros _. exists m. by rewrite Hreply.
      * split; [done|]. split; [done|]. intros _. split; [done|].
        intros _. exists m. rewrite Hreply. by rewrite <- app_assoc.
Qed.

Lemma panel_is_stored_then_posted_witness :
  let r := handleSlashCommand Sample.calm
             (Sample.by_ Sample.A Sample.admin
                (PanelCmd "billing" "lobby" None (Some "") None) "lobby") Sample.world in
  panels r.2 !! ("g", "billing")
  = Some (Panel.Build "lobby" "Support Tickets"
            "Click the button below to create a new ticket!" None).
Proof.
  intros r.
  destruct (proj2 (panel_is_stored_then_posted Sample.calm "lobby" "g" Sample.admin
                     Sample.A Sample.world "billing" "lobby" None (Some "") None))
    as (Hrow & _).
  - reflexivity.
  - pose proof (f_equal (λ m, m !! ("g", "billing")) Hrow) as Hg. cbv beta in Hg.
    rewrite lookup_insert_eq in Hg. exact Hg.
Defined.

(** ** [add] and [remove] *)

(** [add] by staff, or by the owner of the channel's ticket, when no call
    rejects. *)
Lemma add_runs env ch g member user target w :
  isStaff_of (config w !! g) member = true
  ∨ (∃ t, tickets w !! ch = Some t ∧ Ticket.ownerId t = User.id user) →
  (∀ call, fails env call = false) →
  handleSlashCommand env (Interaction.Build (Add target) ch g member user) w
  = (Returned (),
     perform env (added_reply target)
       (insert_or_ignore_member ch (User.id target)
          (perform env (permissionOverwrites_edit ch (User.id target) grant) w))).
Proof.
  intros Hauth Hok. enter. step.
  assert (Hguards :
    ∀ k : M unit,
      (when (negb (bool_decide (is_Some (tickets w !! ch)))
             && negb (isStaff_of (config w !! g) member)) (throw NotATicketChannel);;
       (if negb (isStaff_of (config w !! g) member)
        then owner ← ownerId_of (tickets w !! ch);
             when (bool_decide (owner ≠ User.id user))
                  (throw (Error "Only ticket owners or staff can add users!"))
        else mret ());;
       k) w = k w).
  { intros k. destruct Hauth as [->|(t & -> & Ho)].
    - rewrite andb_false_r. cbn [negb when]. by repeat step.
    - rewrite is_Some_Some_true. cbn [negb andb when].
      destruct (isStaff_of _ _); cbn [negb ownerId_of]; repeat step; [done|].
      rewrite bool_decide_eq_false_2 by (intros H; by apply H). cbn [when]. by step. }
  rewrite Hguards. rewrite bind_await_ok by done. step.
  by apply await_ok.
Qed.

(** [remove] of someone other than the owner, by staff or by the owner,
    when no call rejects. *)
Lemma remove_runs env ch g member user target w t :
  tickets w !! ch = Some t →
  isStaff_of (config w !! g) member = true ∨ Ticket.ownerId t = User.id user →
  User.id target ≠ Ticket.ownerId t →
  (∀ call, fails env call = false) →
  handleSlashCommand env (Interaction.Build (Remove target) ch g member user) w
  = (Returned (),
     perform env (removed_reply target)
       (delete_member ch (User.id target)
          (perform env (permissionOverwrites_delete ch (User.id target)) w))).
Proof.
  intros Ht Hauth Hne Hok. enter. step. rewrite Ht, is_Some_Some_true.
  cbn [negb andb when]. step.
  assert (Hguard :
    ∀ k : M unit,
      ((if negb (isStaff_of (config w !! g) member)
        then owner ← ownerId_of (Some t);
             when (bool_decide (owner ≠ User.id user))
                  (throw (Error "Only ticket owners or staff can remove users!"))
        else mret ());;
       k) w = k w).
  { intros k. destruct (isStaff_of _ _); cbn [negb ownerId_of]; repeat step; [done|].
    destruct Hauth as [?|Ho]; [done|].
    rewrite bool_decide_eq_false_2 by (intros H; by apply H). cbn [when]. by step. }
  rewrite Hguard. cbn [ownerId_of]. step.
  rewrite bool_decide_eq_false_2 by done. cbn [when]. step.
  rewrite bind_await_ok by done. step. by apply await_ok.
Qed.

Lemma filter_all_pass {A} (P : A → Prop) `{!∀ x, Decision (P x)} (l : list A) :
  Forall P l → filter P l = l.
Proof.
  induction 1 as [|x l Hx _ IH]; [done|].
  by rewrite filter_cons_True, IH.
Qed.

Lemma grant_twice o :
  Overwrite.resolveOverwriteOptions grant (Overwrite.resolveOverwriteOptions grant o)
  = Overwrite.resolveOverwriteOptions grant o.
Proof.
  unfold Overwrite.resolveOverwriteOptions, grant, BitField.add, BitField.remove. simpl.
  f_equal; apply Z.bits_inj'; intros n Hn;
    repeat first [rewrite Z.lor_spec | rewrite Z.land_spec | rewrite Z.lnot_spec by done];
    repeat match goal with |- context [Z.testbit ?a n] =>
             destruct (Z.testbit a n) end; reflexivity.
Qed.

Lemma edit_overwrite_twice id c :
  Channel.edit_overwrite id grant (Channel.edit_overwrite id grant c)
  = Channel.edit_overwrite id grant c.
Proof.
  unfold Channel.edit_overwrite.
  cbn [Channel.guild Channel.name Channel.type Channel.parent Channel.permissionOverwrites].
  f_equal. rewrite lookup_insert_eq. cbn [default from_option]. unfold Datatypes.id.
  by rewrite grant_twice, insert_insert_eq.
Qed.

Lemma insert_or_ignore_present ch uid w :
  (ch, uid) ∈ ticket_members w → insert_or_ignore_member ch uid w = w.
Proof. intros Hin. unfold insert_or_ignore_member. by rewrite decide_True. Qed.

Lemma insert_or_ignore_frame ch uid w :
  tickets (insert_or_ignore_member ch uid w) = tickets w
  ∧ channels (insert_or_ignore_member ch uid w) = channels w
  ∧ config (insert_or_ignore_member ch uid w) = config w
  ∧ (ch, uid) ∈ ticket_members (insert_or_ignore_member ch uid w).
Proof.
  unfold insert_or_ignore_member. case_decide; [done|]. simpl.
  repeat split. apply elem_of_app. right. left.
Qed.

(** X14: [add] is idempotent.  When staff or the ticket's owner adds the
    same user twice and no call rejects, both commands return, the user has
    one [ticket_members] row for the channel, and the second [add] changes
    neither the tables nor the channel's overwrites. *)
Theorem add_is_idempotent env env2 ch g member user target w :
  isStaff_of (config w !! g) member = true
  ∨ (∃ t, tickets w !! ch = Some t ∧ Ticket.ownerId t = User.id user) →
  (∀ call, fails env call = false) →
  (∀ call, fails env2 call = false) →
  let i := Interaction.Build (Add target) ch g member user in
  let r1 := handleSlashCommand env i w in
  let r2 := handleSlashCommand env2 i r1.2 in
  r1.1 = Returned () ∧ r2.1 = Returned ()
  ∧ (ch, User.id target) ∈ ticket_members r1.2
  ∧ ticket_members r2.2 = ticket_members r1.2
  ∧ tickets r2.2 = tickets r1.2
  ∧ channels r2.2 = channels r1.2.
Proof.
  intros Hauth Hok Hok2 i r1 r2. subst i r1 r2.
  rewrite (add_runs env ch g member user target w) by done.
  cbn [fst snd].
  set (w0 := perform env (permissionOverwrites_edit ch (User.id target) grant) w).
  destruct (insert_or_ignore_frame ch (User.id target) w0) as (Ht1 & Hc1 & Hg1 & Hin).
  set (w1 := perform env (added_reply target) (insert_or_ignore_member ch (User.id target) w0))
    in *.
  rewrite (add_runs env2 ch g member user target w1); [| |done]; cycle 1.
  { change (config w1) with (config (insert_or_ignore_member ch (User.id target) w0)).
    change (tickets w1) with (tickets (insert_or_ignore_member ch (User.id target) w0)).
    by rewrite Ht1, Hg1. }
  cbn [fst snd].
  rewrite (insert_or_ignore_present ch (User.id target)) by done.
  split; [done|]. split; [done|]. split; [done|]. split; [done|]. split; [done|].
  change (alter (Channel.edit_overwrite (User.id target) grant) ch
            (channels (insert_or_ignore_member ch (User.id target) w0))
          = channels (insert_or_ignore_member ch (User.id target) w0)).
  rewrite Hc1. subst w0. simpl.
  rewrite alter_alter_eq. apply alter_ext. intros c _. apply edit_overwrite_twice.
Qed.

Lemma add_is_idempotent_witness :
  let i := Sample.by_ Sample.U Sample.plain (Add Sample.A) "t1" in
  let r1 := handleSlashCommand Sample.calm i Sample.world in
  let r2 := handleSlashCommand Sample.calm i r1.2 in
  ticket_members r2.2 = ticket_members r1.2 ∧ channels r2.2 = channels r1.2.
Proof.
  intros i r1 r2.
  destruct (add_is_idempotent Sample.calm Sample.calm "t1" "g" Sample.plain Sample.U
              Sample.A Sample.world) as (_ & _ & _ & Hm & _ & Hc).
  - right. exists Sample.ticket. split; reflexivity.
  - intros call. reflexivity.
  - intros call. reflexivity.
  - split; [exact Hm | exact Hc].
Defined.

(** X15: [add] then [remove] is a round trip.  For a ticket's staff or
    owner, a target who is not the owner, had no member row and no overwrite
    on the channel: after adding and then removing the target, with no call
    rejecting, the tables and the channels are exactly as before. *)
Theorem add_then_remove_restores env env2 ch g member user target w t c :
  tickets w !! ch = Some t →
  channels w !! ch = Some c →
  isStaff_of (config w !! g) member = true ∨ Ticket.ownerId t = User.id user →
  User.id target ≠ Ticket.ownerId t →
  (ch, User.id target) ∉ ticket_members w →
  Channel.permissionOverwrites c !! User.id target = None →
  (∀ call, fails env call = false) →
  (∀ call, fails env2 call = false) →
  let r1 := handleSlashCommand env (Interaction.Build (Add target) ch g member user) w in
  let r2 := handleSlashCommand env2 (Interaction.Build (Remove target) ch g member user)
              r1.2 in
  r1.1 = Returned () ∧ r2.1 = Returned ()
  ∧ ticket_members r2.2 = ticket_members w
  ∧ tickets r2.2 = tickets w
  ∧ channels r2.2 = channels w
  ∧ config r2.2 = config w.
Proof.
  intros Ht Hc Hauth Hne Hrow Hov Hok Hok2 r1 r2. subst r1 r2.
  rewrite (add_runs env ch g member user target w); [|destruct Hauth; eauto|done].
  cbn [fst snd].
  set (w1 := perform env (added_reply target) _).
  assert (Hw1 : tickets w1 = tickets w ∧ config w1 = config w
                ∧ ticket_members w1 = ticket_members w ++ [(ch, User.id target)]
                ∧ channels w1
                  = alter (Channel.edit_overwrite (User.id target) grant) ch (channels w)).
  { subst w1. simpl. unfold insert_or_ignore_member. by rewrite decide_False. }
  destruct Hw1 as (Ht1 & Hg1 & Hm1 & Hc1). clearbody w1.
  rewrite (remove_runs env2 ch g member user target w1 t); [|by rewrite Ht1|by rewrite Hg1|done..].
  cbn [fst snd]. split; [done|]. split; [done|]. simpl.
  split; [|split; [done|split; [|done]]].
  - rewrite Hm1, filter_app, filter_cons_False, filter_nil, app_nil_r by (by intros H).
    apply filter_all_pass. apply Forall_forall. intros row Hin ->. done.
  - rewrite Hc1, alter_alter_eq. apply alter_id. intros c0 Hc0.
    rewrite Hc in Hc0. injection Hc0 as <-. destruct c as [cg cn ct cp ov].
    unfold Channel.delete_overwrite, Channel.edit_overwrite. simpl in *. f_equal.
    rewrite delete_insert_eq. by apply delete_id.
Qed.

Lemma add_then_remove_restores_witness :
  let r1 := handleSlashCommand Sample.calm
              (Sample.by_ Sample.U Sample.plain (Add Sample.A) "t1") Sample.world in
  let r2 := handleSlashCommand Sample.calm
              (Sample.by_ Sample.U Sample.plain (Remove Sample.A) "t1") r1.2 in
  ticket_members r2.2 = ticket_members Sample.world
  ∧ channels r2.2 = channels Sample.world.
Proof.
  intros r1 r2.
  destruct (add_then_remove_restores Sample.calm Sample.calm "t1" "g" Sample.plain
              Sample.U Sample.A Sample.world Sample.ticket Sample.t1)
    as (_ & _ & Hm & _ & Hc & _).
  - reflexivity.
  - reflexivity.
  - right. reflexivity.
  - discriminate.
  - intros Hin. vm_compute in Hin.
    repeat (apply elem_of_cons in Hin as [Hin|Hin]; [discriminate Hin|]).
    by apply elem_of_nil in Hin.
  - reflexivity.
  - intros call. reflexivity.
  - intros call. reflexivity.
  - split; [exact Hm | exact Hc].
Defined.

(** X16: [remove] takes the target's row and overwrite and nothing else.
    For a ticket's staff or owner and a target who is not the owner, with no
    call rejecting, the command returns whether or not the target was a
    member; afterwards the target has no member row and no overwrite on the
    channel, every other member row (the owner's among them) and every other
    overwrite is as before, and the Ticket row is untouched. *)
Theorem remove_takes_only_the_target env ch g member user target w t c :
  tickets w !! ch = Some t →
  channels w !! ch = Some c →
  isStaff_of (config w !! g) member = true ∨ Ticket.ownerId t = User.id user →
  User.id target ≠ Ticket.ownerId t →
  (∀ call, fails env call = false) →
  let r := handleSlashCommand env (Interaction.Build (Remove target) ch g member user) w in
  r.1 = Returned ()
  ∧ ((ch, User.id target) ∉ ticket_members r.2)
  ∧ (∀ row, row ≠ (ch, User.id target) →
            (row ∈ ticket_members r.2 ↔ row ∈ ticket_members w))
  ∧ tickets r.2 = tickets w
  ∧ ∃ c', channels r.2 !! ch = Some c'
          ∧ Channel.permissionOverwrites c' !! User.id target = None
          ∧ (∀ id, id ≠ User.id target →
                   Channel.permissionOverwrites c' !! id
                   = Channel.permissionOverwrites c !! id)
          ∧ Channel.parent c' = Channel.parent c.
Proof.
  intros Ht Hc Hauth Hne Hok r. subst r.
  rewrite (remove_runs env ch g member user target w t) by done. simpl.
  split; [done|]. split; [|split; [|split; [done|]]].
  - intros [Hn _]%list_elem_of_filter. by apply Hn.
  - intros row Hrow. rewrite list_elem_of_filter. split; [by intros [_ ?]|by intros ?].
  - exists (Channel.delete_overwrite (User.id target) c).
    rewrite lookup_alter_eq, Hc. simpl. split; [done|].
    split; [apply lookup_delete_eq|]. split; [|done].
    intros id Hid. by rewrite lookup_delete_ne.
Qed.

Lemma remove_takes_only_the_target_witness :
  let r := handleSlashCommand Sample.calm
             (Sample.by_ Sample.S Sample.staff (Remove Sample.X) "t1") Sample.world in
  r.1 = Returned () ∧ (("t1", "X") ∉ ticket_members r.2).
Proof.
  intros r.
  destruct (remove_takes_only_the_target Sample.calm "t1" "g" Sample.staff Sample.S
              Sample.X Sample.world Sample.ticket Sample.t1) as (Hret & Hgone & _).
  - reflexivity.
  - reflexivity.
  - left. reflexivity.
  - discriminate.
  - intros call. reflexivity.
  - split; [exact Hret | exact Hgone].
Defined.

(** ** [close] then [open] *)

(** The tables and channels a [close] leaves when no call rejects. *)
Lemma close_leaves env ch g member user w t c :
  let cfg := config w !! g in
  let isStaff := isStaff_of cfg member in
  let ids := List.filter (stripped_on_close isStaff (Ticket.ownerId t) (User.id user))
               (select_members ch w) in
  tickets w !! ch = Some t →
  channels w !! ch = Some c →
  isStaff = true ∨ Ticket.ownerId t = User.id user →
  (∀ call, fails env call = false) →
  ∃ w', handleSlashCommand env (Interaction.Build Close ch g member user) w
        = (Returned (), w')
        ∧ tickets w' = tickets (update_closed env ch w)
        ∧ ticket_members w' = ticket_members w
        ∧ config w' = config w
        ∧ channels w' = alter (strip ids ∘ reparent cfg (channels w)) ch (channels w).
Proof.
  intros cfg isStaff ids Ht Hc Hauth Hok.
  destruct (close_runs env ch g member user w t c Ht Hc Hauth Hok) as [Hrun Hch].
  fold cfg isStaff ids in Hrun, Hch.
  set (w5 := perform_all env _ _) in Hrun, Hch.
  destruct (perform_all_db env (permissionOverwrites_delete ch <$> ids)
              (before_strip env cfg ch (Channel.name c) w)) as (Hg5 & Ht5 & Hm5 & _).
  fold w5 in Hg5, Ht5, Hm5.
  rewrite before_strip_tickets in Ht5. rewrite before_strip_members in Hm5.
  assert (Hg : config (before_strip env cfg ch (Channel.name c) w) = config w).
  { unfold before_strip. by destruct (truthy _). }
  rewrite Hg in Hg5.
  eexists. split; [exact Hrun|]. clearbody w5.
  destruct (log_target cfg g w); simpl; by rewrite ?Ht5, ?Hm5, ?Hg5, ?Hch.
Qed.

(** [open] by staff on a closed ticket, when no call rejects. *)
Lemma reopen_runs env ch g member user w t :
  tickets w !! ch = Some t →
  Ticket.status t = "closed" →
  isStaff_of (config w !! g) member = true →
  (∀ call, fails env call = false) →
  handleSlashCommand env (Interaction.Build Open ch g member user) w
  = (Returned (),
     perform env
       (reply (text "✅ Ticket reopened! All original members have been readded.") false)
       (update_open ch
          (perform_all env
             ((λ id, permissionOverwrites_edit ch id grant) <$> select_members ch w) w))).
Proof.
  intros Ht Hst Hs Hok.
  enter. rewrite Hs. step. rewrite (select_closed_ticket_Some ch w t) by done.
  rewrite is_Some_Some_true. cbn [negb when]. repeat step.
  erewrite bind_returned; cycle 1.
  { pose proof (for_of_all_ok env (λ _, true)
                  (λ id, permissionOverwrites_edit ch id grant) (select_members ch w) w)
      as Hloop.
    unfold guarded_calls in Hloop. rewrite filter_all in Hloop.
    apply Hloop. auto. }
  step. by apply await_ok.
Qed.

Lemma grant_all_parent ids c : Channel.parent (grant_all ids c) = Channel.parent c.
Proof.
  revert c. induction ids as [|id ids IH]; intros c; [done|].
  simpl. by rewrite IH.
Qed.

(** X17: [close] then [open] gives the members back their access and keeps
    the record of the closure.  With no call rejecting, after a close by the
    owner or staff and a reopening by staff, the ticket is [open] with
    [closedAt] still the time of the close, the member rows are as before,
    and every stored member can view and send again; the channel stays under
    the closed category it was moved to. *)
Theorem close_then_reopen env env2 ch g closer user opener user2 w t c :
  tickets w !! ch = Some t →
  channels w !! ch = Some c →
  isStaff_of (config w !! g) closer = true ∨ Ticket.ownerId t = User.id user →
  isStaff_of (config w !! g) opener = true →
  (∀ call, fails env call = false) →
  (∀ call, fails env2 call = false) →
  let r1 := handleSlashCommand env (Interaction.Build Close ch g closer user) w in
  let r2 := handleSlashCommand env2 (Interaction.Build Open ch g opener user2) r1.2 in
  r1.1 = Returned () ∧ r2.1 = Returned ()
  ∧ tickets r2.2 !! ch
    = Some (Ticket.Build (Ticket.guildId t) (Ticket.ownerId t) (Ticket.panelName t)
              "open" (Ticket.createdAt t) (Some (now env)))
  ∧ ticket_members r2.2 = ticket_members w
  ∧ ∃ c', channels r2.2 !! ch = Some c'
          ∧ (∀ uid, (ch, uid) ∈ ticket_members w →
                    ∃ o, Channel.permissionOverwrites c' !! uid = Some o
                         ∧ Overwrite.grants_view_send o = true)
          ∧ Channel.parent c'
            = match truthy (config w !! g ≫= Config.closedCategory) with
              | Some category => Some category
              | None => Channel.parent c
              end.
Proof.
  intros Ht Hc Hauth Hopener Hok Hok2 r1 r2. subst r1 r2.
  destruct (close_leaves env ch g closer user w t c Ht Hc Hauth Hok)
    as (w1 & Hrun & Ht1 & Hm1 & Hg1 & Hc1).
  rewrite Hrun. cbn [fst snd].
  set (closed := Ticket.Build (Ticket.guildId t) (Ticket.ownerId t) (Ticket.panelName t)
                   "closed" (Ticket.createdAt t) (Some (now env))).
  assert (Hrow : tickets w1 !! ch = Some closed).
  { rewrite Ht1. simpl. by rewrite lookup_alter_eq, Ht. }
  rewrite (reopen_runs env2 ch g opener user2 w1 closed); [|done|done|by rewrite Hg1|done].
  cbn [fst snd].
  assert (Hsel : select_members ch w1 = select_members ch w).
  { unfold select_members. by rewrite Hm1. }
  rewrite Hsel.
  set (calls := (λ id, permissionOverwrites_edit ch id grant) <$> select_members ch w).
  destruct (perform_all_db env2 calls w1) as (_ & Ht2 & Hm2 & _).
  split; [done|]. split; [done|]. split; [|split].
  - simpl. by rewrite lookup_alter_eq, Ht2, Hrow.
  - simpl. by rewrite Hm2.
  - simpl. subst calls. rewrite perform_all_edits, Hc1, alter_alter_eq, lookup_alter_eq, Hc.
    eexists. split; [reflexivity|]. split.
    + intros uid Hin. apply grant_all_lookup. by apply elem_of_select_members.
    + simpl. rewrite grant_all_parent.
      destruct (strip_frame
                  (List.filter
                     (stripped_on_close (isStaff_of (config w !! g) closer)
                        (Ticket.ownerId t) (User.id user)) (select_members ch w))
                  (reparent (config w !! g) (channels w) c)) as (_ & _ & _ & ->).
      apply reparent_frame.
Qed.

Lemma close_then_reopen_witness :
  let r1 := handleSlashCommand Sample.calm
              (Sample.by_ Sample.U Sample.plain Close "t1") Sample.world in
  let r2 := handleSlashCommand Sample.calm
              (Sample.by_ Sample.S Sample.staff Open "t1") r1.2 in
  tickets r2.2 !! "t1" = Some (Ticket.Build "g" "U" "support" "open" 100 (Some 200%Z)).
Proof.
  intros r1 r2.
  destruct (close_then_reopen Sample.calm Sample.calm "t1" "g" Sample.plain Sample.U
              Sample.staff Sample.S Sample.world Sample.ticket Sample.t1)
    as (_ & _ & Hrow & _).
  - reflexivity.
  - reflexivity.
  - right. reflexivity.
  - reflexivity.
  - intros call. reflexivity.
  - intros call. reflexivity.
  - exact Hrow.
Defined.

(** ** The listener *)

Lemma prefix_append p s : String.prefix p (p +:+ s) = true.
Proof.
  induction p as [|a p IH]; simpl.
  - by destruct s.
  - rewrite IH. by destruct (Ascii.ascii_dec a a).
Qed.

Lemma drop_chars_append p s : drop_chars (String.length p) (p +:+ s) = s.
Proof. induction p as [|a p IH]; simpl; [by destruct s|done]. Qed.

Lemma replace_unfold pattern replacement s :
  replace pattern replacement s
  = if String.prefix pattern s
    then replacement +:+ drop_chars (String.length pattern) s
    else match s with
         | EmptyString => EmptyString
         | String a s' => String a (replace pattern replacement s')
         end.
Proof. by destruct s. Qed.

(** Replacing a prefix replaces just that prefix, also when the pattern
    occurs again further on. *)
Lemma replace_prefix pattern replacement s :
  replace pattern replacement (pattern +:+ s) = replacement +:+ s.
Proof. by rewrite replace_unfold, prefix_append, drop_chars_append. Qed.

Lemma truthy_Some o s : truthy o = Some s → o = Some s ∧ s ≠ "".
Proof.
  destruct o as [s'|]; simpl; [|done]. case_decide; [done|]. by intros [= ->].
Qed.

(** [createTicketChannel] only adds to the trace. *)
Lemma create_trace env g user panel w :
  ∃ l, trace (createTicketChannel env g user panel w).2 = trace w ++ l.
Proof.
  unfold createTicketChannel. rewrite bind_query.
  destruct (truthy _); [|exists []; simpl; by rewrite app_nil_r].
  rewrite bind_query.
  destruct (cache_find _ _ _); [exists []; simpl; by rewrite app_nil_r|].
  unfold mbind, M_bind, await.
  destruct (fails env _); [exists []; simpl; by rewrite app_nil_r|].
  eexists [_]. unfold insert_ticket. simpl.
  destruct (tickets w !! newId env); [done|].
  unfold insert_member. simpl. by case_decide.
Qed.

Lemma lift_run {A} (m : M A) h r w' :
  m (world h) = (r, w') → lift m h = (r, {| world := w'; host_log := host_log h |}).
Proof. intros Hm. unfold lift. by rewrite Hm. Qed.

(** X18: the button that [panel] posts opens a ticket under that panel's
    name.  Pressing a button whose custom id is [ticket_] followed by a
    name, in a set-up guild where the requester has no same-named channel,
    with no call rejecting and an unused new id: the listener returns and
    the Ticket row records exactly that panel name (also when the name
    itself contains [ticket_]).  When the builders accept the stored colour
    and the panel's title and description (or the defaults), the new channel
    gets one greeting that mentions the requester and the support role, with
    that embed and the channel id in the footer, the requester is told where
    the ticket is, and nothing is written to the console.  When a builder
    refuses one of them, the ticket is there all the same, no greeting is
    sent, the refusal is written to the console and the requester is told
    the refusal's message. *)
Theorem panel_button_opens_its_ticket henv g user name w log role :
  let env := gateway henv in
  let press := ButtonClick (ButtonInteraction.Build (customId (panel_button name)) g user) in
  let greeting := greeting_embed w g name user in
  truthy (config w !! g ≫= Config.supportRole) = Some role →
  (∀ id c, channels w !! id = Some c → Channel.guild c = g →
           same_named env user c = false) →
  (∀ call, fails env call = false) →
  tickets w !! newId env = None →
  (newId env, User.id user) ∉ ticket_members w →
  let r := interactionCreate henv press {| world := w; host_log := log |} in
  r.1 = Returned ()
  ∧ tickets (world r.2) !! newId env
    = Some (Ticket.Build g (User.id user) name "open" (now env) None)
  ∧ match refusal env (greeting_builds greeting) with
    | None =>
        host_log r.2
        = log ++ [channel_send_greeting (newId env)
                    (User.mention user +:+ " <@&" +:+ role +:+ ">")
                    greeting ("Ticket ID: " +:+ newId env)]
        ∧ trace (world r.2)
          = trace w ++ [deferReply true; create_call env g user role;
                        editReply (text ("Your ticket has been created: "
                                         +:+ Channel.mention (newId env)))]
    | Some message =>
        host_log r.2 = log ++ [console_error "Error creating ticket:" (Error message)]
        ∧ trace (world r.2)
          = trace w ++ [deferReply true; create_call env g user role;
                        editReply (text ("❌ Error: " +:+ message))]
    end.
Proof.
  intros env press greeting Hrole Hnone Hok Hfresh Hrow r.
  set (w1 := perform env (deferReply true) w).
  assert (Hcreate := create_runs env g user name w1 role Hrole Hnone (Hok _) Hfresh Hrow).
  set (wc := set_ticket_members _ _) in Hcreate.
  assert (Htrace : trace wc = trace w ++ [deferReply true; create_call env g user role])
    by (subst wc w1; simpl; by rewrite <- app_assoc).
  assert (Hrow' : tickets wc !! newId env
                  = Some (Ticket.Build g (User.id user) name "open" (now env) None))
    by apply lookup_insert_eq.
  assert (Hcfg' : config wc = config w) by done.
  assert (Hpanels : panels wc = panels w) by done.
  destruct (truthy_Some _ _ Hrole) as [Hsome _].
  destruct (config w !! g) as [cfg|] eqn:Hcfg; [|done]. simpl in Hsome.
  assert (Hr : r = match refusal env (greeting_builds greeting) with
                   | None =>
                       (Returned (),
                        {| world := perform env
                                      (editReply (text ("Your ticket has been created: "
                                                        +:+ Channel.mention (newId env))))
                                      wc;
                           host_log :=
                             log ++ [channel_send_greeting (newId env)
                                       (User.mention user +:+ " <@&" +:+ role +:+ ">")
                                       greeting ("Ticket ID: " +:+ newId env)] |})
                   | Some message =>
                       (Returned (),
                        {| world := perform env (editReply (text ("❌ Error: " +:+ message)))
                                      wc;
                           host_log :=
                             log ++ [console_error "Error creating ticket:"
                                       (Error message)] |})
                   end).
  { subst r press greeting. clearbody wc. unfold interactionCreate.
    cbn [ButtonInteraction.customId ButtonInteraction.guild ButtonInteraction.user].
    unfold startsWith, panel_button. cbn [customId].
    rewrite prefix_append, replace_prefix.
    change ("" +:+ name) with name. fold env.
    unfold try_catch, mbind, H_bind. unfold lift at 1, query at 1. cbn [world host_log].
    rewrite (lift_run (await env (deferReply true)) _ (Returned ()) w1)
      by (by apply await_ok).
    erewrite (lift_run (createTicketChannel env g user name)) by exact Hcreate.
    unfold lift at 1 2, query. cbn [world host_log]. rewrite Hcfg', Hpanels, Hcfg.
    unfold greeting_builds, greeting_embed, refusal.
    cbn [embed_color embed_title embed_description]. rewrite Hcfg.
    unfold lift, build, throw, supportRole_of, log_event, interaction_editReply.
    cbn [world host_log].
    destruct (refuses env (setColor _)) as [message|];
      [|destruct (refuses env (setTitle _)) as [message|];
        [|destruct (refuses env (setDescription _)) as [message|]]].
    4: { cbn [mret M_ret]. rewrite Hsome. cbn [default].
         unfold send_greeting. rewrite (Hok (send _ _)). unfold log_event.
         cbn [world host_log]. unfold await. rewrite (Hok (editReply _)). done. }
    all: cbn [mret M_ret world host_log]; rewrite !bind_query;
      unfold deferred, replied; rewrite Htrace, drop_app_length;
      cbn [existsb is_defer orb message_of];
      unfold await; by rewrite (Hok (editReply _)). }
  rewrite Hr.
  destruct (refusal env (greeting_builds greeting)) as [message|]; cbn [fst snd world host_log];
    (split; [done|]); (split; [done|]); (split; [done|]);
    cbn [trace perform]; by rewrite Htrace, <- app_assoc.
Qed.

Lemma panel_button_opens_its_ticket_witness :
  let henv := {| gateway := Sample.calm; rejection_message := λ _, "Missing Access" |} in
  let press := ButtonClick (ButtonInteraction.Build "ticket_ticket_vip" "g" Sample.X) in
  let r := interactionCreate henv press {| world := Sample.world; host_log := [] |} in
  tickets (world r.2) !! "t2"
  = Some (Ticket.Build "g" "X" "ticket_vip" "open" 200 None).
Proof.
  intros henv press r.
  destruct (panel_button_opens_its_ticket henv "g" Sample.X "ticket_vip" Sample.world []
              "staff") as (_ & Hrow & _).
  - reflexivity.
  - apply cache_find_None. reflexivity.
  - intros call. reflexivity.
  - reflexivity.
  - intros Hin. vm_compute in Hin.
    repeat (apply elem_of_cons in Hin as [Hin|Hin]; [discriminate Hin|]).
    by apply elem_of_nil in Hin.
  - exact Hrow.
Defined.

(** X19: a refused ticket is reported, not half-made.  When a ticket button
    is pressed, the deferral goes through and [createTicketChannel] throws,
    the listener writes the error to the console, sends no greeting, and
    edits the deferred reply to the error's message; the world is the one
    [createTicketChannel] left, plus that edit.  The listener itself throws
    only if the edit rejects. *)
Theorem refused_ticket_is_reported henv press w log e w1 :
  let env := gateway henv in
  let panelName := replace "ticket_" "" (ButtonInteraction.customId press) in
  let report := editReply (error_text henv e) in
  startsWith (ButtonInteraction.customId press) "ticket_" = true →
  fails env (deferReply true) = false →
  createTicketChannel env (ButtonInteraction.guild press) (ButtonInteraction.user press)
    panelName (perform env (deferReply true) w) = (Thrown e, w1) →
  let r := interactionCreate henv (ButtonClick press) {| world := w; host_log := log |} in
  host_log r.2 = log ++ [console_error "Error creating ticket:" e]
  ∧ (fails env report = false →
     r.1 = Returned () ∧ world r.2 = perform env report w1)
  ∧ (fails env report = true →
     r.1 = Thrown (Rejected report) ∧ world r.2 = w1).
Proof.
  intros env panelName report Hpre Hdefer Hcreate r.
  destruct (create_trace env (ButtonInteraction.guild press) (ButtonInteraction.user press)
              panelName (perform env (deferReply true) w)) as [l Hl].
  rewrite Hcreate in Hl. cbn [snd trace perform] in Hl.
  assert (Hr : r = let '(o, w') := await env report w1 in
                   (o, {| world := w';
                          host_log := log ++ [console_error "Error creating ticket:" e] |})).
  { subst r. unfold interactionCreate. rewrite Hpre. fold env panelName.
    unfold try_catch, mbind, H_bind. unfold lift at 1, query at 1. cbn [world host_log].
    erewrite (lift_run (await env (deferReply true))) by (by apply await_ok).
    erewrite (lift_run (createTicketChannel env _ _ panelName)) by exact Hcreate.
    unfold log_event. cbn [world host_log].
    unfold lift, interaction_editReply. cbn [world host_log]. rewrite !bind_query.
    unfold deferred. rewrite Hl, <- app_assoc, drop_app_length.
    cbn [app existsb is_defer orb]. reflexivity. }
  rewrite Hr. unfold await. destruct (fails env report); simpl; by repeat split.
Qed.

Lemma refused_ticket_is_reported_witness :
  let henv := {| gateway := Sample.calm; rejection_message := λ _, "Missing Access" |} in
  let press := ButtonInteraction.Build "ticket_support" "h" Sample.X in
  let r := interactionCreate henv (ButtonClick press)
             {| world := Sample.world; host_log := [] |} in
  r.1 = Returned ()
  ∧ world r.2
    = perform Sample.calm (editReply (text "❌ Error: Ticket system not set up!"))
        (perform Sample.calm (deferReply true) Sample.world).
Proof.
  intros henv press r.
  destruct (refused_ticket_is_reported henv press Sample.world [] NotConfigured
              (perform Sample.calm (deferReply true) Sample.world)) as (_ & Hok & _).
  - reflexivity.
  - reflexivity.
  - reflexivity.
  - apply Hok. reflexivity.
Defined.

(** X20: the listener surfaces a command's refusal and adds nothing else.
    When [handleSlashCommand] returns, the listener returns with the same
    world and writes nothing to the console.  When it throws before any
    call was made (the world is unchanged, as for every authorization and
    precondition refusal), the listener writes the error to the console and
    replies, ephemerally, with the error's message; it throws only if that
    reply rejects, and the tables are untouched either way. *)
Theorem command_refusal_is_surfaced henv i w log :
  let env := gateway henv in
  let r := interactionCreate henv (ChatInputCommand i) {| world := w; host_log := log |} in
  (∀ w', handleSlashCommand env i w = (Returned (), w') →
         r = (Returned (), {| world := w'; host_log := log |}))
  ∧ (∀ e, handleSlashCommand env i w = (Thrown e, w) →
          let report := reply (error_text henv e) true in
          host_log r.2 = log ++ [console_error "Error handling command:" e]
          ∧ r.1 = (if fails env report then Thrown (Rejected report) else Returned ())
          ∧ world r.2 = (if fails env report then w else perform env report w)).
Proof.
  intros env r. subst r. split.
  - intros w' Hrun. unfold interactionCreate. fold env.
    unfold try_catch, mbind, H_bind. unfold lift at 1, query. simpl.
    erewrite (lift_run (handleSlashCommand env i)) by exact Hrun. done.
  - intros e Hrun report. unfold interactionCreate. fold env.
    unfold try_catch, mbind, H_bind. unfold lift at 1, query. simpl.
    erewrite (lift_run (handleSlashCommand env i)) by exact Hrun.
    unfold log_event. simpl. unfold lift, query, replied. simpl.
    rewrite drop_all. simpl.
    unfold interaction_reply, query, deferred, replied, mbind, M_bind. simpl.
    rewrite drop_all. simpl. unfold await. fold (error_text henv e). fold report.
    by destruct (fails env report).
Qed.

Lemma command_refusal_is_surfaced_witness :
  let henv := {| gateway := Sample.calm; rejection_message := λ _, "Missing Access" |} in
  let i := Sample.by_ Sample.Y Sample.plain Close "t1" in
  let r := interactionCreate henv (ChatInputCommand i)
             {| world := Sample.world; host_log := [] |} in
  world r.2
  = perform Sample.calm
      (reply (text "❌ Error: Only ticket owners or staff can close tickets!") true)
      Sample.world.
Proof.
  intros henv i r.
  destruct (proj2 (command_refusal_is_surfaced henv i Sample.world [])
              (Error "Only ticket owners or staff can close tickets!"))
    as (_ & _ & Hworld).
  - reflexivity.
  - exact Hworld.
Defined.

(** ** [transcript], and closing twice *)

(** X21: [transcript] by the ticket's owner or staff defers ephemerally,
    exports the channel's whole history (no limit, images saved) and hands
    the exported buffer over, as the one file of the edited reply, named
    [<name>-transcript.html], in that order and with no other call; if the
    export rejects, the command throws that rejection after the deferral
    alone. *)
Theorem transcript_delivers_the_export env ch g member user w t c :
  let name := Channel.name c in
  let options := {| limit := -1; returnType := "buffer";
                    filename := name +:+ "-transcript.html"; saveImages := true |} in
  let export := createTranscript ch options in
  let delivery :=
    editReply {| content := "Here is the transcript of this ticket:";
                 embeds := []; components := [];
                 files := [ {| attachment := Html ch options;
                               attachment_name := name +:+ "-transcript.html" |} ] |} in
  let r := handleSlashCommand env (Interaction.Build Transcript ch g member user) w in
  tickets w !! ch = Some t →
  channels w !! ch = Some c →
  isStaff_of (config w !! g) member = true ∨ Ticket.ownerId t = User.id user →
  fails env (deferReply true) = false →
  (fails env export = true →
   r.1 = Thrown (Rejected export) ∧ trace r.2 = trace w ++ [deferReply true])
  ∧ (fails env export = false → fails env delivery = false →
     r.1 = Returned ()
     ∧ trace r.2 = trace w ++ [deferReply true; export; delivery]).
Proof.
  intros name options export delivery r Ht Hc Hauth Hdefer.
  assert (Hr : r = (generated ← generateTranscript env ch;
                    name' ← query (channel_name ch);
                    await env (editReply
                      {| content := "Here is the transcript of this ticket:";
                         embeds := []; components := [];
                         files := [ {| attachment := generated;
                                       attachment_name :=
                                         name' +:+ "-transcript.html" |} ] |}))
                     (perform env (deferReply true) w)).
  { subst r. enter. step. rewrite Ht.
    assert (negb (isStaff_of (config w !! g) member)
            && bool_decide (Ticket.ownerId t ≠ User.id user) = false) as ->.
    { destruct Hauth as [->| ->]; [done|].
      rewrite bool_decide_eq_false_2 by (intros H; by apply H). apply andb_false_r. }
    cbn [when]. step. by rewrite bind_await_ok. }
  rewrite Hr. unfold generateTranscript. rewrite !bind_bind, bind_query.
  assert (channel_name ch (perform env (deferReply true) w) = name) as ->.
  { unfold channel_name. simpl. by rewrite Hc. }
  fold options. fold export. split.
  - intros Hexport. rewrite bind_bind, bind_await_fail by done. done.
  - intros Hexport Hreply. rewrite bind_bind, bind_await_ok by done.
    rewrite bind_ret, bind_query.
    assert (channel_name ch (perform env export (perform env (deferReply true) w)) = name)
      as ->.
    { unfold channel_name. simpl. by rewrite Hc. }
    fold delivery. rewrite await_ok by done. simpl.
    by rewrite <- !app_assoc.
Qed.

Lemma transcript_delivers_the_export_witness :
  let r := handleSlashCommand Sample.calm
             (Sample.by_ Sample.U Sample.plain Transcript "t1") Sample.world in
  let options := {| limit := -1; returnType := "buffer";
                    filename := "ticket-u-transcript.html"; saveImages := true |} in
  r.1 = Returned ()
  ∧ trace r.2
    = [deferReply true;
       createTranscript "t1" options;
       editReply {| content := "Here is the transcript of this ticket:";
                    embeds := []; components := [];
                    files := [ {| attachment := Html "t1" options;
                                  attachment_name := "ticket-u-transcript.html" |} ] |}].
Proof.
  intros r options.
  destruct (transcript_delivers_the_export Sample.calm "t1" "g" Sample.plain Sample.U
              Sample.world Sample.ticket Sample.t1) as (_ & Hok).
  - reflexivity.
  - reflexivity.
  - right. reflexivity.
  - reflexivity.
  - apply Hok; reflexivity.
Defined.

(** X22: [close] has no status precondition.  Closing a ticket that is
    already [closed], by its owner or staff with no call rejecting, returns
    like a first close and overwrites [closedAt] with the current time: the
    time of the earlier close is lost. *)
Theorem closing_again_resets_closedAt env ch g member user w t c earlier :
  tickets w !! ch = Some t →
  Ticket.status t = "closed" →
  Ticket.closedAt t = Some earlier →
  channels w !! ch = Some c →
  isStaff_of (config w !! g) member = true ∨ Ticket.ownerId t = User.id user →
  (∀ call, fails env call = false) →
  let r := handleSlashCommand env (Interaction.Build Close ch g member user) w in
  r.1 = Returned ()
  ∧ ∃ t', tickets r.2 !! ch = Some t'
          ∧ Ticket.status t' = "closed"
          ∧ Ticket.closedAt t' = Some (now env).
Proof.
  intros Ht _ _ Hc Hauth Hok r. subst r.
  destruct (close_leaves env ch g member user w t c Ht Hc Hauth Hok)
    as (w' & -> & Ht' & _).
  split; [done|]. simpl. rewrite Ht'. simpl. rewrite lookup_alter_eq, Ht. by eexists.
Qed.

Lemma closing_again_resets_closedAt_witness :
  let r := handleSlashCommand Sample.calm (Sample.by_ Sample.S Sample.staff Close "t1")
             Sample.closed_world in
  ∃ t', tickets r.2 !! "t1" = Some t' ∧ Ticket.closedAt t' = Some 200%Z.
Proof.
  intros r.
  destruct (closing_again_resets_closedAt Sample.calm "t1" "g" Sample.staff Sample.S
              Sample.closed_world
              (Ticket.Build "g" "U" "support" "closed" 100 (Some 150%Z)) Sample.t1 150%Z)
    as (_ & t' & Hrow & _ & Hat).
  - reflexivity.
  - reflexivity.
  - reflexivity.
  - reflexivity.
  - left. reflexivity.
  - intros call. reflexivity.
  - exists t'. split; [exact Hrow | exact Hat].
Defined.

(** X23: [delete] removes only ticket channels, and only for staff.  If a
    channel that existed is gone after [handleSlashCommand], however it
    ended, then the command was [delete] invoked in that channel, the
    channel had a Ticket row, and the caller held the support role. *)
Theorem channel_removed_only_with_ticket_by_staff env i w id c :
  channels w !! id = Some c →
  channels (handleSlashCommand env i w).2 !! id = None →
  Interaction.subcommand i = Delete
  ∧ id = Interaction.channel i
  ∧ is_Some (tickets w !! id)
  ∧ isStaff_of (config w !! Interaction.guild i) (Interaction.member i) = true.
Proof.
  intros Hc Hgone.
  assert (Hkept : Interaction.subcommand i ≠ Delete ∨ id ≠ Interaction.channel i →
                  False).
  { intros Hnot. destruct (channel_kept env i w id c Hnot Hc) as (c' & Hc' & _).
    congruence. }
  assert (Hcmd : Interaction.subcommand i = Delete).
  { destruct (Interaction.subcommand i); try done; exfalso; apply Hkept; by left. }
  assert (Hid : id = Interaction.channel i).
  { destruct (decide (id = Interaction.channel i)); [done|]. exfalso. apply Hkept. by right. }
  split; [done|]. split; [done|]. subst id.
  destruct i as [cmd ch g member user]. simpl in *. subst cmd.
  revert Hgone. enter. step.
  destruct (tickets w !! ch) as [t|];
    [rewrite is_Some_Some_true|rewrite is_Some_None_false; cbn [negb when]; step;
                               simpl; congruence].
  cbn [negb when]. step.
  destruct (isStaff_of (config w !! g) member); cbn [negb when];
    [|step; simpl; congruence].
  intros _. split; [by eexists|done].
Qed.

Lemma channel_removed_only_with_ticket_by_staff_witness :
  isStaff_of (config Sample.world !! "g") Sample.staff = true.
Proof.
  apply (channel_removed_only_with_ticket_by_staff Sample.calm
           (Sample.by_ Sample.S Sample.staff Delete "t1") Sample.world "t1" Sample.t1).
  - reflexivity.
  - reflexivity.
Defined.
